(** * BlockWallet: the ledger core (transaction.py, blockchain.py, crypto_utils.py)

    A shallow embedding of the Python sources.  Python [float] is IEEE
    binary64, so amounts, fees and timestamps are primitive floats;
    [str] is [string]; objects that are shared between containers
    (transactions) live in a heap and are referred to by location. *)

From Stdlib Require Import ZArith QArith String Ascii List Uint63 Floats Lia Bool.
From stdpp Require Import base list strings pretty.

Set Warnings "-inexact-float".
Open Scope Z_scope.

(** ** Bytes, hexadecimal and decimal rendering *)

Module Hex.

Definition digit (d : Z) : ascii :=
  ascii_of_N (Z.to_N (if d <? 10 then 48 + d else 87 + d)).

(** [n] lower-case hexadecimal digits of [x], most significant first. *)
Fixpoint of_Z (n : nat) (x : Z) : string :=
  match n with
  | O => EmptyString
  | S n' => String (digit (Z.land (Z.shiftr x (4 * Z.of_nat n')) 15)) (of_Z n' x)
  end.

Definition bytes_of_string (s : string) : list Z :=
  map (fun c => Z.of_N (N_of_ascii c)) (list_ascii_of_string s).

(** Big-endian bytes of [x], [n] of them. *)
Fixpoint be_bytes (n : nat) (x : Z) : list Z :=
  match n with
  | O => []
  | S n' => Z.land (Z.shiftr x (8 * Z.of_nat n')) 255 :: be_bytes n' x
  end.

Definition be_word (bs : list Z) : Z :=
  fold_left (fun acc b => Z.lor (Z.shiftl acc 8) b) bs 0.

Fixpoint chunks (fuel n : nat) (l : list Z) : list (list Z) :=
  match fuel, l with
  | O, _ | _, [] => []
  | S fuel', _ => take n l :: chunks fuel' n (drop n l)
  end.

(** Merkle-Damgard padding to 64-byte blocks: a 1 bit, zeros, and the
    bit length on 8 bytes. *)
Definition pad (msg : list Z) : list Z :=
  let len := Z.of_nat (length msg) in
  let zeros := Z.to_nat ((55 - len) mod 64) in
  msg ++ 128 :: repeat 0 zeros ++ be_bytes 8 (8 * len).

Definition blocks (msg : string) : list (list Z) :=
  let bs := pad (bytes_of_string msg) in
  chunks (length bs) 64 bs.

Definition concat_words (n : nat) (ws : list Z) : string :=
  fold_right (fun w acc => of_Z n w +:+ acc) EmptyString ws.

End Hex.

(** ** hashlib.sha256 (FIPS 180-4), on byte strings

    The 32-bit words are kept in machine integers, masked after every
    addition and left shift. *)

Module SHA256.

Local Open Scope uint63_scope.

Definition mask32 : int := 4294967295.
Definition w32 (x : int) : int := x land mask32.
Definition add32 (x y : int) : int := w32 (x + y).
Definition rotr (n x : int) : int := (x >> n) lor w32 (x << (32 - n)).
Definition xor3 (a b c : int) : int := a lxor (b lxor c).

Definition Ch (x y z : int) : int := (x land y) lxor ((x lxor mask32) land z).
Definition Maj (x y z : int) : int := xor3 (x land y) (x land z) (y land z).
Definition Sigma0 (x : int) : int := xor3 (rotr 2 x) (rotr 13 x) (rotr 22 x).
Definition Sigma1 (x : int) : int := xor3 (rotr 6 x) (rotr 11 x) (rotr 25 x).
Definition sigma0 (x : int) : int := xor3 (rotr 7 x) (rotr 18 x) (x >> 3).
Definition sigma1 (x : int) : int := xor3 (rotr 17 x) (rotr 19 x) (x >> 10).

(** The constants are the fractional parts of the square and cube roots
    of the first primes; they are computed rather than tabulated. *)
Definition primes : list Z :=
  [2; 3; 5; 7; 11; 13; 17; 19; 23; 29; 31; 37; 41; 43; 47; 53;
   59; 61; 67; 71; 73; 79; 83; 89; 97; 101; 103; 107; 109; 113; 127; 131;
   137; 139; 149; 151; 157; 163; 167; 173; 179; 181; 191; 193; 197; 199; 211; 223;
   227; 229; 233; 239; 241; 251; 257; 263; 269; 271; 277; 281; 283; 293; 307; 311]%Z.

(** Integer cube root by bisection on the bits, from bit [n] down. *)
Fixpoint icbrt (n : nat) (x r : Z) : Z :=
  match n with
  | O => r
  | S n' =>
      let c := Z.lor r (Z.shiftl 1 (Z.of_nat n')) in
      icbrt n' x (if (c * c * c <=? x)%Z then c else r)
  end.

Definition word_of_Z (x : Z) : int := Uint63.of_Z (Z.land x 4294967295).

Definition K : list int :=
  Eval vm_compute in map (fun p => word_of_Z (icbrt 36 (p * 2 ^ 96) 0)) primes.

Definition H0 : list int :=
  Eval vm_compute in map (fun p => word_of_Z (Z.sqrt (p * 2 ^ 64))) (take 8 primes).

(** The sixteen big-endian words of a 64-byte block. *)
Definition words (block : list Z) : list int :=
  map (fun bs => Uint63.of_Z (Hex.be_word bs)) (Hex.chunks 16 4 block).

(** The message schedule, most recent word first. *)
Fixpoint schedule (n : nat) (rw : list int) : list int :=
  match n with
  | O => rw
  | S n' =>
      let w := add32 (add32 (sigma1 (nth 1 rw 0)) (nth 6 rw 0))
                     (add32 (sigma0 (nth 14 rw 0)) (nth 15 rw 0)) in
      schedule n' (w :: rw)
  end.

Definition round (st : list int) (kw : int * int) : list int :=
  match st with
  | [a; b; c; d; e; f; g; h] =>
      let t1 := add32 (add32 (add32 h (Sigma1 e)) (add32 (Ch e f g) kw.1)) kw.2 in
      let t2 := add32 (Sigma0 a) (Maj a b c) in
      [add32 t1 t2; a; b; c; add32 d t1; e; f; g]
  | _ => st
  end.

Definition compress (st : list int) (block : list Z) : list int :=
  let w := rev (schedule 48 (rev (words block))) in
  zip_with add32 st (fold_left round (zip K w) st).

Definition digest (msg : string) : list Z :=
  map Uint63.to_Z (fold_left compress (Hex.blocks msg) H0).

Definition hexdigest (msg : string) : string :=
  Hex.concat_words 8 (digest msg).

End SHA256.

(** ** hashlib.sha1, the digest python-ecdsa signs by default *)

Module SHA1.

Local Open Scope uint63_scope.

Definition rotl (n x : int) : int := SHA256.w32 (x << n) lor (x >> (32 - n)).

Definition H0 : list int :=
  [0x67452301; 0xefcdab89; 0x98badcfe; 0x10325476; 0xc3d2e1f0].

Fixpoint schedule (n : nat) (rw : list int) : list int :=
  match n with
  | O => rw
  | S n' =>
      let w := rotl 1 (SHA256.xor3 (nth 2 rw 0) (nth 7 rw 0) (nth 13 rw 0)
                       lxor nth 15 rw 0) in
      schedule n' (w :: rw)
  end.

(** The round constants are [2^30] times the square roots of 2, 3, 5
    and 10. *)
Definition K : list int :=
  Eval vm_compute in
    map (fun x => Uint63.of_Z (Z.sqrt (x * 2 ^ 60))) [2; 3; 5; 10]%Z.

(** Round function and constant of round [i]. *)
Definition f_k (i : nat) (b c d : int) : int * int :=
  match (i / 20)%nat with
  | 0%nat => ((b land c) lor ((b lxor SHA256.mask32) land d), nth 0 K 0)
  | 1%nat => (SHA256.xor3 b c d, nth 1 K 0)
  | 2%nat => (SHA256.Maj b c d, nth 2 K 0)
  | _ => (SHA256.xor3 b c d, nth 3 K 0)
  end.

Definition round (st : nat * list int) (w : int) : nat * list int :=
  match st with
  | (i, [a; b; c; d; e]) =>
      let '(f, k) := f_k i b c d in
      let t := SHA256.add32 (SHA256.add32 (rotl 5 a) f)
                            (SHA256.add32 (SHA256.add32 e k) w) in
      (S i, [t; a; rotl 30 b; c; d])
  | _ => st
  end.

Definition compress (st : list int) (block : list Z) : list int :=
  let w := rev (schedule 64 (rev (SHA256.words block))) in
  zip_with SHA256.add32 st (fold_left round w (O, st)).2.

Definition digest (msg : string) : list Z :=
  map Uint63.to_Z (fold_left compress (Hex.blocks msg) H0).

Definition hexdigest (msg : string) : string :=
  Hex.concat_words 8 (digest msg).

End SHA1.

(** ** Python floats: truncation and [repr]

    [float.__repr__] prints the shortest decimal string that reads back as
    the same binary64 value (the closest one to the value when there are
    several), in fixed notation when the decimal exponent is in (-4, 16]
    and in exponent notation otherwise. *)

Module PyFloat.

(** [int(x)]: truncation towards zero; [None] stands for the
    ValueError / OverflowError raised on nan and the infinities. *)
Definition to_int (x : float) : option Z :=
  match Prim2SF x with
  | S754_zero _ => Some 0
  | S754_finite s m e =>
      let a := if 0 <=? e then Z.pos m * 2 ^ e else Z.pos m / 2 ^ (- e) in
      Some (if s then - a else a)
  | _ => None
  end.

(** Python truthiness of a float: false for 0.0 and -0.0 only. *)
Definition truthy (x : float) : bool :=
  match Prim2SF x with S754_zero _ => false | _ => true end.

(** [10^j] as a fraction of two positive integers. *)
Definition pow10 (j : Z) : Z * Z :=
  if 0 <=? j then (10 ^ j, 1) else (1, 10 ^ (- j)).

Definition strip_zeros (s : string) : string :=
  let fix go (l : list ascii) : list ascii :=
    match l with
    | "0"%char :: l' => go l'
    | _ => l
    end in
  string_of_list_ascii (rev (go (rev (list_ascii_of_string s)))).

Section Shortest.
(** The value is [m * 2^e]; all quantities below are multiples of
    [2^(e-2)], written as [x * sn / sd]. *)
Variables (m e : Z).

Definition sn : Z := if 0 <=? e - 2 then 2 ^ (e - 2) else 1.
Definition sd : Z := if 0 <=? e - 2 then 1 else 2 ^ (2 - e).
Definition v4 : Z := 4 * m.
(** Half-way points to the neighbouring floats; the lower gap is
    halved at a power of two. *)
Definition lo4 : Z := if (m =? 2 ^ 52) && (-1074 <? e) then v4 - 1 else v4 - 2.
Definition hi4 : Z := v4 + 2.

(** [q * 10^j ?= x4 * 2^(e-2)] *)
Definition cmp (q j x4 : Z) : comparison :=
  let '(p, d) := pow10 j in (q * p * sd ?= x4 * sn * d).

Definition rounds_back (q j : Z) : bool :=
  let closed := Z.even m in
  match cmp q j lo4, cmp q j hi4 with
  | Gt, Lt => true
  | Eq, Lt | Gt, Eq => closed
  | _, _ => false
  end.

(** Largest [j] at or below [j0] with [10^j <= value]. *)
Fixpoint log10_from (fuel : nat) (j0 : Z) : Z :=
  match fuel with
  | O => j0
  | S fuel' =>
      match cmp 1 j0 v4 with
      | Gt => log10_from fuel' (j0 - 1)
      | _ => j0
      end
  end.

Definition log10_floor : Z :=
  log10_from 8 ((e + Z.log2 m) * 30103 / 100000 + 2).

Definition floor_at (j : Z) : Z :=
  let '(p, d) := pow10 j in (v4 * sn * d) / (sd * p).

(** The [n]-digit candidate, if one reads back as the same float. *)
Definition candidate (k : Z) (n : Z) : option (Z * Z) :=
  let j := k - n + 1 in
  let q := floor_at j in
  match rounds_back q j, rounds_back (q + 1) j with
  | true, false => Some (q, j)
  | false, true => Some (q + 1, j)
  | true, true =>
      (* both read back: the one closer to the value *)
      match cmp (2 * q + 1) j (2 * v4) with
      | Lt => Some (q + 1, j)
      | Gt => Some (q, j)
      | Eq => Some (if Z.even q then q else q + 1, j)
      end
  | false, false => None
  end.

Fixpoint search (fuel : nat) (k n : Z) : Z * Z :=
  match fuel with
  | O => (floor_at (k - 16), k - 16)
  | S fuel' =>
      match candidate k n with
      | Some c => c
      | None => search fuel' k (n + 1)
      end
  end.

(** Digits (no trailing zeros) and the position of the decimal point:
    the value printed is [0.digits * 10^decpt]. *)
Definition shortest : string * Z :=
  let '(q, j) := search 17 log10_floor 1 in
  let ds := pretty q in
  (strip_zeros ds, j + Z.of_nat (String.length ds)).
End Shortest.

Definition zeros (n : Z) : string :=
  string_of_list_ascii (repeat "0"%char (Z.to_nat n)).

Definition format_short (ds : string) (decpt : Z) : string :=
  let nd := Z.of_nat (String.length ds) in
  if (-4 <? decpt) && (decpt <=? 16) then
    if decpt <=? 0 then "0." +:+ zeros (- decpt) +:+ ds
    else if nd <=? decpt then ds +:+ zeros (decpt - nd) +:+ ".0"
    else substring 0 (Z.to_nat decpt) ds +:+ "."
         +:+ substring (Z.to_nat decpt) (Z.to_nat (nd - decpt)) ds
  else
    let x := decpt - 1 in
    let xs := pretty (Z.abs x) in
    substring 0 1 ds
    +:+ (if 1 <? nd then "." +:+ substring 1 (Z.to_nat (nd - 1)) ds else EmptyString)
    +:+ "e" +:+ (if x <? 0 then "-" else "+")
    +:+ (if Z.abs x <? 10 then "0" else EmptyString) +:+ xs.

Definition sign_prefix (s : bool) : string := if s then "-" else EmptyString.

(** [repr(x)], also what [str(x)] and an f-string give. *)
Definition repr (x : float) : string :=
  match Prim2SF x with
  | S754_nan => "nan"
  | S754_infinity s => sign_prefix s +:+ "inf"
  | S754_zero s => sign_prefix s +:+ "0.0"
  | S754_finite s m e =>
      let '(ds, decpt) := shortest (Z.pos m) e in
      sign_prefix s +:+ format_short ds decpt
  end.

(** What [json.dumps] writes for a float (allow_nan is on by default). *)
Definition json_repr (x : float) : string :=
  match Prim2SF x with
  | S754_nan => "NaN"
  | S754_infinity s => sign_prefix s +:+ "Infinity"
  | _ => repr x
  end.

End PyFloat.


(** ** json.dumps with the default separators and ensure_ascii

    Characters of a [string] are read as code points below 256. *)

Module Json.

#[local] Unset Elimination Schemes.
Inductive value : Type :=
| Null
| Int (n : Z)
| Float (x : float)
| Str (s : string)
| List (l : list value)
| Dict (items : list (string * value)).
#[local] Set Elimination Schemes.

Definition dquote : string := String "034"%char EmptyString.
Definition backslash : string := String "092"%char EmptyString.

Definition escape_char (c : ascii) : string :=
  let n := Z.of_N (N_of_ascii c) in
  if n =? 34 then backslash +:+ dquote
  else if n =? 92 then backslash +:+ backslash
  else if n =? 10 then backslash +:+ "n"
  else if n =? 13 then backslash +:+ "r"
  else if n =? 9 then backslash +:+ "t"
  else if n =? 8 then backslash +:+ "b"
  else if n =? 12 then backslash +:+ "f"
  else if (32 <=? n) && (n <=? 126) then String c EmptyString
  else backslash +:+ "u" +:+ Hex.of_Z 4 n.

Fixpoint escape (s : string) : string :=
  match s with
  | EmptyString => EmptyString
  | String c s' => escape_char c +:+ escape s'
  end.

Definition quote (s : string) : string := dquote +:+ escape s +:+ dquote.

Fixpoint join (sep : string) (l : list string) : string :=
  match l with
  | [] => EmptyString
  | [x] => x
  | x :: l' => x +:+ sep +:+ join sep l'
  end.

Fixpoint write (j : value) : string :=
  match j with
  | Null => "null"
  | Int n => pretty n
  | Float x => PyFloat.json_repr x
  | Str s => quote s
  | List l => "[" +:+ join ", " (map write l) +:+ "]"
  | Dict items =>
      "{" +:+ join ", " (map (fun kv => quote kv.1 +:+ ": " +:+ write kv.2) items) +:+ "}"
  end.

Fixpoint insert_item (kv : string * value) (l : list (string * value)) :=
  match l with
  | [] => [kv]
  | kv' :: l' => if String.leb kv.1 kv'.1 then kv :: l else kv' :: insert_item kv l'
  end.

(** sort_keys=True orders the items of every dictionary by key. *)
Fixpoint sort_keys (j : value) : value :=
  match j with
  | List l => List (map sort_keys l)
  | Dict items =>
      Dict (fold_right insert_item [] (map (fun kv => (kv.1, sort_keys kv.2)) items))
  | _ => j
  end.

Definition dumps (j : value) (sorted : bool) : string :=
  write (if sorted then sort_keys j else j).

End Json.

(** ** The secp256k1 curve and ECDSA as python-ecdsa's SigningKey.sign
    and VerifyingKey.verify perform it *)

Module Secp256k1.

Definition p : Z := 2 ^ 256 - 2 ^ 32 - 977.
Definition n : Z :=
  0xfffffffffffffffffffffffffffffffebaaedce6af48a03bbfd25e8cd0364141.
Definition G : Z * Z :=
  (0x79be667ef9dcbbac55a06295ce870b07029bfcdb2dce28d959f2815b16f81798,
   0x483ada7726a3c4655da4fbfc0e1108a8fd17b448a68554199c47d08ffb10d4b8).

(** Extended Euclid: the coefficient of the first argument. *)
Fixpoint egcd (fuel : nat) (r0 r1 s0 s1 : Z) : Z :=
  match fuel with
  | O => s0
  | S fuel' =>
      if r1 =? 0 then s0
      else let q := r0 / r1 in egcd fuel' r1 (r0 - q * r1) s1 (s0 - q * s1)
  end.

Definition inverse_mod (a m : Z) : Z := egcd 600 (a mod m) m 1 0 mod m.

(** Affine points; [None] is the point at infinity. *)
Definition point : Type := option (Z * Z).

Definition add (P Q : point) : point :=
  match P, Q with
  | None, _ => Q
  | _, None => P
  | Some (x1, y1), Some (x2, y2) =>
      if (x1 =? x2) && ((y1 + y2) mod p =? 0) then None
      else
        let l := if x1 =? x2
                 then 3 * x1 * x1 * inverse_mod (2 * y1) p mod p
                 else (y2 - y1) * inverse_mod (x2 - x1) p mod p in
        let x3 := (l * l - x1 - x2) mod p in
        Some (x3, (l * (x1 - x3) - y1) mod p)
  end.

Fixpoint pmul (k : positive) (P : point) : point :=
  match k with
  | xH => P
  | xO k' => let Q := pmul k' P in add Q Q
  | xI k' => let Q := pmul k' P in add (add Q Q) P
  end.

Definition mul (k : Z) (P : point) : point :=
  match k with
  | Zpos k' => pmul k' P
  | _ => None
  end.

Definition on_curve (P : Z * Z) : bool :=
  (P.2 * P.2 - P.1 * P.1 * P.1 - 7) mod p =? 0.

(** The digest as a number: SHA-1 is shorter than the order, nothing
    is truncated. *)
Definition digest_number (message : string) : Z :=
  Hex.be_word (flat_map (Hex.be_bytes 4) (SHA1.digest message)).

(** [sign_number] with the nonce [k] that [randrange(order)] drew;
    [None] is the RSZeroError. *)
Definition sign (secret k : Z) (message : string) : option (Z * Z) :=
  match mul k (Some G) with
  | None => None
  | Some (x, _) =>
      let r := x mod n in
      if r =? 0 then None
      else
        let s := inverse_mod k n * (digest_number message + secret * r mod n) mod n in
        if s =? 0 then None else Some (r, s)
  end.

Definition verify (Q : point) (message : string) (r s : Z) : bool :=
  if (1 <=? r) && (r <? n) && (1 <=? s) && (s <? n) then
    let c := inverse_mod s n in
    let u1 := digest_number message * c mod n in
    let u2 := r * c mod n in
    match add (mul u1 (Some G)) (mul u2 Q) with
    | Some (x, _) => x mod n =? r
    | None => false
    end
  else false.

End Secp256k1.

(** ** Exceptions and results

    Every failure in the sources is a plain [Exception] carrying a message;
    the handlers re-raise with a prefix.  The constructors keep that
    nesting, [str] gives the message. *)

Inductive exn : Type :=
| Invalid_transaction (message : string)
| Insufficient_balance (available required : float)
| Transaction_already_exists
| Failed_to_add_to_pool (e : exn)
| Failed_to_add_transaction (e : exn)
| Failed_to_mine_block (e : exn)
| Failed_to_sign_message (e : exn)
| Failed_to_sign_transaction (e : exn)
| Library_error (message : string).

Fixpoint str (e : exn) : string :=
  match e with
  | Invalid_transaction message => "Invalid transaction: " +:+ message
  | Insufficient_balance available required =>
      "Insufficient balance. Available: " +:+ PyFloat.repr available
      +:+ ", Required: " +:+ PyFloat.repr required
  | Transaction_already_exists => "Transaction already exists in pool"
  | Failed_to_add_to_pool e => "Failed to add transaction to pool: " +:+ str e
  | Failed_to_add_transaction e => "Failed to add transaction: " +:+ str e
  | Failed_to_mine_block e => "Failed to mine block: " +:+ str e
  | Failed_to_sign_message e => "Failed to sign message: " +:+ str e
  | Failed_to_sign_transaction e => "Failed to sign transaction: " +:+ str e
  | Library_error message => message
  end.

Inductive outcome (A : Type) : Type :=
| Returned (a : A)
| Raised (e : exn).
Arguments Returned {A} a.
Arguments Raised {A} e.

(** ** Strings as Python slices them *)

Module PyStr.

(** [s[:d]] *)
Definition slice_to (s : string) (d : Z) : string :=
  let len := Z.of_nat (String.length s) in
  substring 0 (Z.to_nat (if d <? 0 then len + d else d)) s.

(** ["0" * d] *)
Definition zeros (d : Z) : string := PyFloat.zeros d.

Definition truthy (s : string) : bool := negb (String.eqb s EmptyString).

Definition opt_truthy (s : option string) : bool :=
  match s with
  | Some s => truthy s
  | None => false
  end.

(** [==] between values that are a [str] or [None]. *)
Definition opt_eqb (a b : option string) : bool :=
  match a, b with
  | Some a, Some b => String.eqb a b
  | None, None => true
  | _, _ => false
  end.

End PyStr.

(** ** crypto_utils.py *)

Module CryptoUtils.

(** A SigningKey is its secret number, a VerifyingKey its point. *)
Definition get_public_key (private_key : Z) : Secp256k1.point :=
  Secp256k1.mul private_key (Some Secp256k1.G).

(** [private_key.sign(message).hex()]; [k] is the nonce the library
    draws for this call, the signature the 32-byte [r] and [s]. *)
Definition sign_message (private_key k : Z) (message : string)
  : outcome string :=
  match Secp256k1.sign private_key k message with
  | Some (r, s) => Returned (Hex.of_Z 64 r +:+ Hex.of_Z 64 s)
  | None =>
      Raised (Failed_to_sign_message (Library_error "amazingly unlucky random number"))
  end.

Definition hex_value (c : ascii) : option Z :=
  let n := Z.of_N (N_of_ascii c) in
  if (48 <=? n) && (n <=? 57) then Some (n - 48)
  else if (97 <=? n) && (n <=? 102) then Some (n - 87)
  else if (65 <=? n) && (n <=? 70) then Some (n - 55)
  else None.

(** [bytes.fromhex]: pairs of digits, white space allowed between. *)
Fixpoint fromhex (s : string) : option (list Z) :=
  match s with
  | EmptyString => Some []
  | String c s' =>
      let n := Z.of_N (N_of_ascii c) in
      if (n =? 32) || ((9 <=? n) && (n <=? 13)) then fromhex s'
      else
        match s' with
        | EmptyString => None
        | String c' s'' =>
            match hex_value c, hex_value c', fromhex s'' with
            | Some a, Some b, Some l => Some (16 * a + b :: l)
            | _, _, _ => None
            end
        end
  end.

Definition verify_signature (public_key : Secp256k1.point)
    (message signature_hex : string) : bool :=
  match fromhex signature_hex with
  | Some bs =>
      if (length bs =? 64)%nat
      then Secp256k1.verify public_key message
             (Hex.be_word (take 32 bs)) (Hex.be_word (drop 32 bs))
      else false
  | None => false
  end.

Definition hash_transaction (transaction_data : string) : string :=
  SHA256.hexdigest transaction_data.

(** [private_key.to_string().hex()]: the secret number on 32 bytes. *)
Definition private_key_to_hex (private_key : Z) : string := Hex.of_Z 64 private_key.

(** [SigningKey.from_string(bytes.fromhex(hex_string), curve=SECP256k1)]:
    the string must decode to 32 bytes and the number lie in [1, n).
    The messages of the two libraries are shortened. *)
Definition private_key_from_hex (hex_string : string) : outcome Z :=
  match fromhex hex_string with
  | None =>
      Raised (Library_error
                "Failed to create private key from hex: non-hexadecimal number found")
  | Some bs =>
      let secexp := Hex.be_word bs in
      if (length bs =? 32)%nat && (1 <=? secexp) && (secexp <? Secp256k1.n)
      then Returned secexp
      else Raised (Library_error
                     "Failed to create private key from hex: malformed private key")
  end.

End CryptoUtils.

(** ** transaction.py: class Transaction *)

Module Transaction.

Record t : Type := mk {
  sender_address : string;
  recipient_address : string;
  amount : float;
  fee : float;
  message : string;
  timestamp : float;
  transaction_id : option string;
  signature : option string;
  status : string
}.

(** [__init__]; [now] is the reading of [time.time()]. *)
Definition new (sender_address recipient_address : string)
    (amount fee : float) (message : string) (now : float) : t :=
  mk sender_address recipient_address amount fee message now None None "pending".

Definition set_signature (v : option string) (self : t) : t :=
  mk (sender_address self) (recipient_address self) (amount self) (fee self)
     (message self) (timestamp self) (transaction_id self) v (status self).

Definition set_transaction_id (v : option string) (self : t) : t :=
  mk (sender_address self) (recipient_address self) (amount self) (fee self)
     (message self) (timestamp self) v (signature self) (status self).

Definition set_status (v : string) (self : t) : t :=
  mk (sender_address self) (recipient_address self) (amount self) (fee self)
     (message self) (timestamp self) (transaction_id self) (signature self) v.

Definition json_opt (s : option string) : Json.value :=
  match s with
  | Some s => Json.Str s
  | None => Json.Null
  end.

Definition to_dict (self : t) : Json.value :=
  Json.Dict
    [("transaction_id", json_opt (transaction_id self));
     ("sender_address", Json.Str (sender_address self));
     ("recipient_address", Json.Str (recipient_address self));
     ("amount", Json.Float (amount self));
     ("fee", Json.Float (fee self));
     ("message", Json.Str (message self));
     ("timestamp", Json.Float (timestamp self));
     ("signature", json_opt (signature self));
     ("status", Json.Str (status self))].

Definition get_transaction_data (self : t) : string :=
  Json.dumps
    (Json.Dict
       [("sender_address", Json.Str (sender_address self));
        ("recipient_address", Json.Str (recipient_address self));
        ("amount", Json.Float (amount self));
        ("fee", Json.Float (fee self));
        ("message", Json.Str (message self));
        ("timestamp", Json.Float (timestamp self))])
    true.

Definition calculate_hash (self : t) : string :=
  CryptoUtils.hash_transaction (get_transaction_data self).

(** [k] is the nonce the signer draws during this call. *)
Definition sign_transaction (private_key k : Z) (self : t) : outcome bool * t :=
  let transaction_data := get_transaction_data self in
  match CryptoUtils.sign_message private_key k transaction_data with
  | Raised e => (Raised (Failed_to_sign_transaction e), self)
  | Returned sig =>
      let self := set_signature (Some sig) self in
      let self := set_transaction_id (Some (calculate_hash self)) self in
      (Returned true, self)
  end.

Definition verify_signature (public_key : Secp256k1.point) (self : t) : bool :=
  match signature self with
  | Some sig =>
      if PyStr.truthy sig
      then CryptoUtils.verify_signature public_key (get_transaction_data self) sig
      else false
  | None => false
  end.

Definition is_valid (self : t) : bool * string :=
  if negb (PyStr.truthy (sender_address self))
     || negb (PyStr.truthy (recipient_address self))
  then (false, "Invalid sender or recipient address")
  else if (amount self <=? 0)%float then (false, "Amount must be positive")
  else if (fee self <? 0)%float then (false, "Fee cannot be negative")
  else if negb (PyStr.opt_truthy (signature self))
  then (false, "Transaction not signed")
  else if negb (PyStr.opt_truthy (transaction_id self))
  then (false, "Invalid transaction ID")
  else if String.eqb (sender_address self) (recipient_address self)
  then (false, "Sender and recipient cannot be the same")
  else (true, "Transaction is valid").

End Transaction.

(** ** The heap of transaction objects

    The pool, the pending queue and the blocks hold references to the
    same Transaction objects; a reference is the object's position in
    the heap, in order of creation. *)

Abbreviation loc := nat (only parsing).
Abbreviation Heap := (list Transaction.t) (only parsing).

#[global] Instance Transaction_inhabited : Inhabited Transaction.t :=
  populate (Transaction.new EmptyString EmptyString 0 0 EmptyString 0).

(** ** transaction.py: class TransactionPool *)

Module TransactionPool.

Record t : Type := mk {
  transactions : list loc;
  confirmed_transactions : list loc
}.

Definition new : t := mk [] [].

Definition same_id (h : Heap) (transaction_id : option string) (l : loc) : bool :=
  PyStr.opt_eqb (Transaction.transaction_id (h !!! l)) transaction_id.

Definition add_transaction (h : Heap) (transaction : loc) (self : t)
  : outcome bool * t :=
  let '(is_valid, message) := Transaction.is_valid (h !!! transaction) in
  if negb is_valid
  then (Raised (Failed_to_add_to_pool (Invalid_transaction message)), self)
  else if existsb (same_id h (Transaction.transaction_id (h !!! transaction)))
                  (transactions self)
  then (Raised (Failed_to_add_to_pool Transaction_already_exists), self)
  else (Returned true,
        mk (transactions self ++ [transaction]) (confirmed_transactions self)).

Definition get_pending_transactions (h : Heap) (self : t) : list loc :=
  filter (fun l => Transaction.status (h !!! l) = "pending") (transactions self).

(** Position and reference of the first entry with the given id. *)
Fixpoint find_id (h : Heap) (transaction_id : option string) (i : nat)
    (l : list loc) : option (nat * loc) :=
  match l with
  | [] => None
  | tx :: l' =>
      if same_id h transaction_id tx then Some (i, tx)
      else find_id h transaction_id (S i) l'
  end.

Definition confirm_transaction (transaction_id : option string)
    (st : Heap * t) : bool * (Heap * t) :=
  let '(h, self) := st in
  match find_id h transaction_id 0 (transactions self) with
  | Some (i, tx) =>
      let h := <[tx := Transaction.set_status "confirmed" (h !!! tx)]> h in
      (true, (h, mk (delete i (transactions self))
                    (confirmed_transactions self ++ [tx])))
  | None => (false, (h, self))
  end.

(** First entry of [l] with the given id. *)
Definition first_with_id (h : Heap) (transaction_id : option string) (l : list loc)
  : option loc :=
  List.find (same_id h transaction_id) l.

Definition get_transaction_by_id (h : Heap) (transaction_id : option string)
    (self : t) : option loc :=
  match first_with_id h transaction_id (transactions self) with
  | Some tx => Some tx
  | None => first_with_id h transaction_id (confirmed_transactions self)
  end.

Definition involves (h : Heap) (address : string) (tx : loc) : bool :=
  String.eqb (Transaction.sender_address (h !!! tx)) address
  || String.eqb (Transaction.recipient_address (h !!! tx)) address.

Definition get_transactions_for_address (h : Heap) (address : string) (self : t)
  : list loc :=
  List.filter (involves h address) (transactions self)
  ++ List.filter (involves h address) (confirmed_transactions self).

(** One step of [calculate_balance]: a credit, or else a debit. *)
Definition credit_or_debit (address : string) (balance : float)
    (tx : Transaction.t) : float :=
  if String.eqb (Transaction.recipient_address tx) address
  then (balance + Transaction.amount tx)%float
  else if String.eqb (Transaction.sender_address tx) address
  then (balance - (Transaction.amount tx + Transaction.fee tx))%float
  else balance.

Definition calculate_balance (h : Heap) (address : string) (self : t) : float :=
  fold_left (fun balance tx => credit_or_debit address balance (h !!! tx))
            (confirmed_transactions self) 0%float.

End TransactionPool.

(** ** blockchain.py: class Block *)

Module Block.

Record t : Type := mk {
  index : Z;
  timestamp : float;
  transactions : list loc;
  previous_hash : string;
  nonce : Z;
  hash : string
}.

Definition set_nonce (v : Z) (self : t) : t :=
  mk (index self) (timestamp self) (transactions self) (previous_hash self)
     v (hash self).

Definition set_hash (v : string) (self : t) : t :=
  mk (index self) (timestamp self) (transactions self) (previous_hash self)
     (nonce self) v.

Definition calculate_hash (h : Heap) (self : t) : string :=
  let block_data :=
    Json.Dict
      [("index", Json.Int (index self));
       ("timestamp", Json.Float (timestamp self));
       ("transactions",
        Json.List (map (fun tx => Transaction.to_dict (h !!! tx)) (transactions self)));
       ("previous_hash", Json.Str (previous_hash self));
       ("nonce", Json.Int (nonce self))] in
  let block_string := Json.dumps block_data true in
  SHA256.hexdigest block_string.

(** [__init__]: [timestamp or time.time()], nonce 0, hash computed. *)
Definition new (h : Heap) (index : Z) (transactions : list loc)
    (previous_hash : string) (timestamp : option float) (now : float) : t :=
  let timestamp :=
    match timestamp with
    | Some ts => if PyFloat.truthy ts then ts else now
    | None => now
    end in
  let self := mk index timestamp transactions previous_hash 0 EmptyString in
  set_hash (calculate_hash h self) self.

Definition meets_target (difficulty : Z) (hash : string) : bool :=
  String.eqb (PyStr.slice_to hash difficulty) (PyStr.zeros difficulty).

(** The body of the mining loop. *)
Definition next_nonce (h : Heap) (self : t) : t :=
  let self := set_nonce (nonce self + 1) self in
  set_hash (calculate_hash h self) self.

(** The while loop of [mine_block]: it has no bound in the source;
    [None] means the search is still running after [fuel] iterations. *)
Fixpoint mine_block (fuel : nat) (h : Heap) (difficulty : Z) (self : t)
  : option t :=
  if meets_target difficulty (hash self) then Some self
  else
    match fuel with
    | O => None
    | S fuel' => mine_block fuel' h difficulty (next_nonce h self)
    end.

(** [target = "0" * difficulty] on a 64-bit CPython: the count must fit
    a Py_ssize_t, a count below 1 gives the empty string without any
    allocation, and a longer string than the allocator grants, [limit]
    characters at the time of the call, is a MemoryError, whose message
    is empty. *)
Definition target (limit difficulty : Z) : outcome string :=
  if (difficulty <? - 2 ^ 63) || (2 ^ 63 <=? difficulty)
  then Raised (Library_error "cannot fit 'int' into an index-sized integer")
  else if (0 <? difficulty) && (limit <? difficulty)
  then Raised (Library_error EmptyString)
  else Returned (PyStr.zeros difficulty).

(** A call of [mine_block] from its first line: the target is built,
    then the loop runs.  [Blockchain.mine_pending_transactions] below
    enters the loop with the chain's difficulty. *)
Definition mine_block_call (limit : Z) (fuel : nat) (h : Heap) (difficulty : Z)
    (self : t) : option (outcome t) :=
  match target limit difficulty with
  | Raised e => Some (Raised e)
  | Returned _ => option_map Returned (mine_block fuel h difficulty self)
  end.

End Block.

(** ** blockchain.py: class Blockchain *)

Module Blockchain.

Record t : Type := mk {
  chain : list Block.t;
  difficulty : Z;
  pending_transactions : list loc;
  mining_reward : float;
  transaction_pool : TransactionPool.t
}.

Definition create_genesis_block (now : float) : Block.t :=
  Block.new [] 0 [] "0" None now.

(** [__init__]; the default difficulty is 2. *)
Definition new (difficulty : Z) (now : float) : t :=
  mk [create_genesis_block now] difficulty [] 10.0 TransactionPool.new.

Definition get_latest_block (self : t) : option Block.t := last (chain self).

Definition credit_debit (address : string) (balance : float)
    (transaction : Transaction.t) : float :=
  let balance :=
    if String.eqb (Transaction.recipient_address transaction) address
    then (balance + Transaction.amount transaction)%float
    else balance in
  if String.eqb (Transaction.sender_address transaction) address
  then (balance - (Transaction.amount transaction + Transaction.fee transaction))%float
  else balance.

Definition get_balance (h : Heap) (address : string) (self : t) : float :=
  fold_left
    (fun balance block =>
       fold_left (fun balance tx => credit_debit address balance (h !!! tx))
                 (Block.transactions block) balance)
    (chain self) 0%float.

Definition add_transaction (h : Heap) (transaction : loc) (self : t)
  : outcome bool * t :=
  let tx := h !!! transaction in
  let '(is_valid, message) := Transaction.is_valid tx in
  if negb is_valid
  then (Raised (Failed_to_add_transaction (Invalid_transaction message)), self)
  else
    let sender_balance := get_balance h (Transaction.sender_address tx) self in
    let required_amount := (Transaction.amount tx + Transaction.fee tx)%float in
    if (sender_balance <? required_amount)%float
    then (Raised (Failed_to_add_transaction
                    (Insufficient_balance sender_balance required_amount)), self)
    else
      match TransactionPool.add_transaction h transaction (transaction_pool self) with
      | (Raised e, pool) =>
          (Raised (Failed_to_add_transaction e),
           mk (chain self) (difficulty self) (pending_transactions self)
              (mining_reward self) pool)
      | (Returned _, pool) =>
          (Returned true,
           mk (chain self) (difficulty self)
              (pending_transactions self ++ [transaction])
              (mining_reward self) pool)
      end.

(** The three readings of [time.time()] during a mining call: the
    reward transaction's timestamp, its id and the block's timestamp. *)
Record clock : Type := mk_clock {
  at_reward : float;
  at_reward_id : float;
  at_block : float
}.

Definition confirm_all (pending : list loc) (st : Heap * TransactionPool.t)
  : Heap * TransactionPool.t :=
  fold_left
    (fun st tx =>
       (TransactionPool.confirm_transaction
          (Transaction.transaction_id (st.1 !!! tx)) st).2)
    pending st.

(** The reward transaction after its id, signature and status are set. *)
Definition reward_transaction (self : t) (mining_reward_address : string)
    (now : float) (seconds : Z) : Transaction.t :=
  Transaction.set_status "confirmed"
    (Transaction.set_signature (Some "system_signature")
       (Transaction.set_transaction_id (Some ("reward_" +:+ pretty seconds))
          (Transaction.new "system" mining_reward_address (mining_reward self) 0
                           "Mining reward" now))).

(** The block built from the pending transactions and the reward. *)
Definition new_block (h : Heap) (self : t) (reward : loc) (latest : Block.t)
    (now : float) : Block.t :=
  Block.new h (Z.of_nat (length (chain self)))
            (pending_transactions self ++ [reward]) (Block.hash latest) None now.

Definition mine_pending_transactions (fuel : nat) (now : clock)
    (mining_reward_address : string) (h : Heap) (self : t)
  : option (outcome bool * Heap * t) :=
  match pending_transactions self with
  | [] => Some (Returned false, h, self)
  | _ :: _ =>
      let reward := length h in
      match PyFloat.to_int (at_reward_id now) with
      | None =>
          Some (Raised (Failed_to_mine_block
                          (Library_error "cannot convert float to integer")),
                h ++ [Transaction.new "system" mining_reward_address
                                      (mining_reward self) 0 "Mining reward"
                                      (at_reward now)],
                self)
      | Some seconds =>
          let h := h ++ [reward_transaction self mining_reward_address
                                            (at_reward now) seconds] in
          match get_latest_block self with
          | None =>
              Some (Raised (Failed_to_mine_block
                              (Library_error "list index out of range")), h, self)
          | Some latest =>
              match Block.mine_block fuel h (difficulty self)
                      (new_block h self reward latest (at_block now)) with
              | None => None
              | Some new_block =>
                  let '(h, pool) :=
                    confirm_all (pending_transactions self)
                                (h, transaction_pool self) in
                  Some (Returned true, h,
                        mk (chain self ++ [new_block]) (difficulty self) []
                           (mining_reward self) pool)
              end
          end
      end
  end.

(** The loop of [is_chain_valid] over [range(1, len(chain))]. *)
Fixpoint check_blocks (h : Heap) (self : t) (indices : list nat)
  : bool * string :=
  match indices with
  | [] => (true, "Blockchain is valid")
  | i :: indices' =>
      match chain self !! i, chain self !! (i - 1)%nat with
      | Some current_block, Some previous_block =>
          if negb (String.eqb (Block.hash current_block)
                              (Block.calculate_hash h current_block))
          then (false, "Invalid hash at block " +:+ pretty i)
          else if negb (String.eqb (Block.previous_hash current_block)
                                   (Block.hash previous_block))
          then (false, "Invalid previous hash at block " +:+ pretty i)
          else if negb (Block.meets_target (difficulty self) (Block.hash current_block))
          then (false, "Block " +:+ pretty i +:+ " not properly mined")
          else check_blocks h self indices'
      | _, _ => (false, "Validation error: list index out of range")
      end
  end.

Definition is_chain_valid (h : Heap) (self : t) : bool * string :=
  check_blocks h self (seq 1 (length (chain self) - 1)).

Definition get_block_by_index (index : Z) (self : t) : option Block.t :=
  if (0 <=? index) && (index <? Z.of_nat (length (chain self)))
  then chain self !! Z.to_nat index
  else None.

(** [search_transaction]: the blocks in chain order, then the queue. *)
Definition search_transaction (h : Heap) (transaction_id : option string) (self : t)
  : option loc * string :=
  match TransactionPool.first_with_id h transaction_id
          (concat (map Block.transactions (chain self))) with
  | Some transaction => (Some transaction, "confirmed")
  | None =>
      match TransactionPool.first_with_id h transaction_id
              (pending_transactions self) with
      | Some transaction => (Some transaction, "pending")
      | None => (None, "not_found")
      end
  end.

End Blockchain.


(** ** wallet.py: class Wallet, the part that talks to the chain

    The address is the string that [create_address] derived when the key
    was generated or imported; the wallet file is not modelled. *)

Module Wallet.

Record t : Type := mk {
  private_key : option Z;
  public_key : option Secp256k1.point;
  address : option string;
  blockchain : Blockchain.t;
  is_unlocked : bool
}.

Definition set_blockchain (v : Blockchain.t) (self : t) : t :=
  mk (private_key self) (public_key self) (address self) v (is_unlocked self).

Definition failed_to_send (e : exn) : exn :=
  Library_error ("Failed to send transaction: " +:+ str e).

Definition get_balance (h : Heap) (self : t) : outcome float :=
  match address self with
  | Some a =>
      if PyStr.truthy a then Returned (Blockchain.get_balance h a (blockchain self))
      else Raised (Library_error "No wallet address available")
  | None => Raised (Library_error "No wallet address available")
  end.

(** [send_transaction]; [now] is the clock reading of the Transaction
    constructor, [k] the nonce of the signer, and [prints] what the
    prints that follow [add_transaction] raise on the standard output of
    the call, if anything: the first one writes U+2713, a later one the
    recipient, and an output that cannot encode them raises a
    UnicodeEncodeError inside the try.  The result is the new transaction
    object. *)
Definition send_transaction (now : float) (k : Z) (prints : option exn)
    (recipient_address : string) (amount fee : float) (message : string)
    (h : Heap) (self : t)
  : outcome loc * Heap * t :=
  if negb (is_unlocked self)
  then (Raised (failed_to_send (Library_error "Wallet is locked")), h, self)
  else
    match get_balance h self with
    | Raised e => (Raised (failed_to_send e), h, self)
    | Returned current_balance =>
        let total_cost := (amount + fee)%float in
        if (current_balance <? total_cost)%float
        then (Raised (failed_to_send (Insufficient_balance current_balance total_cost)),
              h, self)
        else
          let sender := default EmptyString (address self) in
          let transaction := length h in
          let tx := Transaction.new sender recipient_address amount fee message now in
          match private_key self with
          | None =>
              (Raised (failed_to_send
                         (Failed_to_sign_transaction
                            (Failed_to_sign_message
                               (Library_error
                                  "'NoneType' object has no attribute 'sign'")))),
               h ++ [tx], self)
          | Some key =>
              let '(signed, tx) := Transaction.sign_transaction key k tx in
              let h := h ++ [tx] in
              match signed with
              | Raised e => (Raised (failed_to_send e), h, self)
              | Returned _ =>
                  match Blockchain.add_transaction h transaction (blockchain self) with
                  | (Raised e, bc) => (Raised (failed_to_send e), h, set_blockchain bc self)
                  | (Returned _, bc) =>
                      match prints with
                      | Some e => (Raised (failed_to_send e), h, set_blockchain bc self)
                      | None => (Returned transaction, h, set_blockchain bc self)
                      end
                  end
              end
          end
    end.

(** [mine_block]: the wallet's address collects the reward.  [prints] is
    what the print of the line with U+2713 raises after a successful
    mining call, if anything. *)
Definition mine_block (fuel : nat) (now : Blockchain.clock) (prints : option exn)
    (h : Heap) (self : t)
  : option (outcome bool * Heap * t) :=
  match address self with
  | Some a =>
      if PyStr.truthy a then
        match Blockchain.mine_pending_transactions fuel now a h (blockchain self) with
        | None => None
        | Some (Raised e, h, bc) =>
            Some (Raised (Library_error ("Failed to mine block: " +:+ str e)), h,
                  set_blockchain bc self)
        | Some (Returned success, h, bc) =>
            match success, prints with
            | true, Some e =>
                Some (Raised (Library_error ("Failed to mine block: " +:+ str e)), h,
                      set_blockchain bc self)
            | _, _ => Some (Returned success, h, set_blockchain bc self)
            end
        end
      else Some (Raised (Library_error
                           "Failed to mine block: No wallet address available"), h, self)
  | None => Some (Raised (Library_error
                            "Failed to mine block: No wallet address available"), h, self)
  end.

(** [lock_wallet]: the state after its three assignments, which is the
    state the call leaves whether or not the print that follows them
    raises. *)
Definition lock_wallet (self : t) : t :=
  mk None None (address self) (blockchain self) false.

End Wallet.

(** ** States the interface can reach

    A caller creates transaction objects, submits them and asks for
    mining; nothing else touches the chain, the queue or the pool. *)

Inductive reachable : Heap -> Blockchain.t -> Prop :=
| reach_new h difficulty now :
    reachable h (Blockchain.new difficulty now)
| reach_create h bc tx :
    reachable h bc -> reachable (h ++ [tx]) bc
| reach_add h bc transaction r bc' :
    reachable h bc ->
    (transaction < length h)%nat ->
    Blockchain.add_transaction h transaction bc = (r, bc') ->
    reachable h bc'
| reach_mine h bc fuel now address r h' bc' :
    reachable h bc ->
    Blockchain.mine_pending_transactions fuel now address h bc = Some (r, h', bc') ->
    reachable h' bc'.

(** The queue and the pool hold the same references, all of them live. *)
Definition in_sync (h : Heap) (bc : Blockchain.t) : Prop :=
  TransactionPool.transactions (Blockchain.transaction_pool bc)
  = Blockchain.pending_transactions bc
  /\ Forall (fun l => (l < length h)%nat) (Blockchain.pending_transactions bc)
  /\ Blockchain.chain bc <> []
  /\ Blockchain.mining_reward bc = 10%float.

(** ** A run of the interface

    A chain created with the default difficulty.  At genesis every balance
    is 0.0, so the first transfer that the balance check lets through has a
    fee that is not a number; the miner then spends from the reward. *)

Module Scenario.

Definition alice_key : Z := 7.
Definition miner_key : Z := 11.

(** A transaction as the wallet builds it: created, then signed. *)
Definition signed (private_key k : Z) (tx : Transaction.t) : Transaction.t :=
  (Transaction.sign_transaction private_key k tx).2.

Definition tx0 : Transaction.t :=
  Eval vm_compute in
    signed alice_key 3 (Transaction.new "alice" "bob" 1.0 nan EmptyString 1700000010.5).

Definition h0 : Heap := [tx0].
Definition bc0 : Blockchain.t := Eval vm_compute in Blockchain.new 2 1700000000.0.

Definition bc1 : Blockchain.t :=
  Eval vm_compute in (Blockchain.add_transaction h0 0%nat bc0).2.

Definition clock1 : Blockchain.clock :=
  Blockchain.mk_clock 1700000026.0 1700000026.0625 1700000026.125.

Definition mined1 : option (outcome bool * Heap * Blockchain.t) :=
  Eval vm_compute in Blockchain.mine_pending_transactions 100 clock1 "miner" h0 bc1.

Definition h2 : Heap := Eval vm_compute in from_option (fun r => r.1.2) [] mined1.
Definition bc2 : Blockchain.t := Eval vm_compute in from_option snd bc1 mined1.

(** The miner pays carol 1.0 with a fee of 0.001. *)
Definition tx2 : Transaction.t :=
  Eval vm_compute in
    signed miner_key 5 (Transaction.new "miner" "carol" 1.0 0.001 EmptyString 1700000030.5).

Definition h3 : Heap := h2 ++ [tx2].

Definition bc3 : Blockchain.t :=
  Eval vm_compute in (Blockchain.add_transaction h3 2%nat bc2).2.

Definition clock2 : Blockchain.clock :=
  Blockchain.mk_clock 1700000051.5 1700000051.5625 1700000051.625.

Definition mined2 : option (outcome bool * Heap * Blockchain.t) :=
  Eval vm_compute in Blockchain.mine_pending_transactions 100 clock2 "miner" h3 bc3.

Definition h4 : Heap := Eval vm_compute in from_option (fun r => r.1.2) [] mined2.
Definition bc4 : Blockchain.t := Eval vm_compute in from_option snd bc3 mined2.

(** Two payments of 6.001 each out of the miner's first reward of 10.0. *)
Definition tx_a : Transaction.t :=
  Eval vm_compute in
    signed miner_key 5 (Transaction.new "miner" "carol" 6.0 0.001 EmptyString 1700000031.5).
Definition tx_b : Transaction.t :=
  Eval vm_compute in
    signed miner_key 6 (Transaction.new "miner" "dave" 6.0 0.001 EmptyString 1700000032.5).

Definition h3' : Heap := h2 ++ [tx_a; tx_b].

(** The genesis block, and the heap and the block of the first mining
    call at the moment the block is appended. *)
Definition genesis : Block.t :=
  Eval vm_compute in Blockchain.create_genesis_block 1700000000.0.

Definition h1 : Heap :=
  Eval vm_compute in
    h0 ++ [Blockchain.reward_transaction bc1 "miner" 1700000026.0 1700000026].

Definition block1 : Block.t :=
  Eval vm_compute in default genesis (last (Blockchain.chain bc2)).

(** The miner's payment with a signature that is not one. *)
Definition h3_forged : Heap :=
  <[2%nat := Transaction.set_signature (Some "00") tx2]> h3.

(** A chain in which carol holds 5.0, and her attempt to send 4.0 with a
    fee of 2.0. *)
Definition payment : Transaction.t :=
  Eval vm_compute in
    signed miner_key 5 (Transaction.new "miner" "carol" 5.0 0.001 EmptyString 1700000030.5).
Definition spend : Transaction.t :=
  Eval vm_compute in
    signed 13 5 (Transaction.new "carol" "dave" 4.0 2.0 EmptyString 1700000060.5).
Definition h5 : Heap := [payment; spend].
Definition bc5 : Blockchain.t :=
  Eval vm_compute in
    Blockchain.mk [genesis; Block.new h5 1 [0%nat] (Block.hash genesis) None 1700000040.0]
                  2 [] 10 (TransactionPool.mk [] [0%nat]).

End Scenario.

(** ** Vocabulary of the statements *)

(** Same block up to the two fields the loop assigns. *)
Definition same_contents (b b' : Block.t) : Prop :=
  Block.index b' = Block.index b
  /\ Block.timestamp b' = Block.timestamp b
  /\ Block.transactions b' = Block.transactions b
  /\ Block.previous_hash b' = Block.previous_hash b.

Definition is_insufficient_balance (r : outcome bool) : bool :=
  match r with
  | Raised (Failed_to_add_transaction (Insufficient_balance _ _)) => true
  | _ => false
  end.

Definition is_duplicate (r : outcome bool) : bool :=
  match r with
  | Raised (Failed_to_add_to_pool Transaction_already_exists) => true
  | _ => false
  end.

(** Some pending entry of the pool carries the id of [transaction]. *)
Definition id_in_pool (h : Heap) (transaction : loc) (pool : TransactionPool.t) : Prop :=
  exists l, l ∈ TransactionPool.transactions pool
            /\ Transaction.transaction_id (h !!! l)
               = Transaction.transaction_id (h !!! transaction).

(** Two objects that differ at most in the signature, which is set and
    non-empty in both or in neither. *)
Definition same_but_signature (a b : Transaction.t) : Prop :=
  Transaction.set_signature None a = Transaction.set_signature None b
  /\ PyStr.opt_truthy (Transaction.signature a)
     = PyStr.opt_truthy (Transaction.signature b).

(** C5 as worded, at one call of the pool's add. *)
Definition C5_as_stated (h : Heap) (transaction : loc) (pool : TransactionPool.t) : Prop :=
  let r := TransactionPool.add_transaction h transaction pool in
  (is_duplicate r.1 = true <-> id_in_pool h transaction pool)
  /\ (~ id_in_pool h transaction pool ->
      r = (Returned true,
           TransactionPool.mk (TransactionPool.transactions pool ++ [transaction])
                              (TransactionPool.confirmed_transactions pool))).

(** Submitting the transactions of a list one after the other. *)
Fixpoint submit_all (h : Heap) (ls : list loc) (bc : Blockchain.t)
  : list (outcome bool) * Blockchain.t :=
  match ls with
  | [] => ([], bc)
  | l :: ls' =>
      let '(r, bc') := Blockchain.add_transaction h l bc in
      let '(rs, bc'') := submit_all h ls' bc' in
      (r :: rs, bc'')
  end.

(** Structurally valid, sent by [address], and within its confirmed
    balance on its own. *)
Definition affordable (h : Heap) (address : string) (bc : Blockchain.t) (l : loc) : Prop :=
  (Transaction.is_valid (h !!! l)).1 = true
  /\ Transaction.sender_address (h !!! l) = address
  /\ (Transaction.amount (h !!! l) + Transaction.fee (h !!! l)
      <=? Blockchain.get_balance h address bc)%float = true.

Definition all_accepted (h : Heap) (ls : list loc) (bc : Blockchain.t) : Prop :=
  (submit_all h ls bc).1 = map (fun _ => Returned true) ls
  /\ Blockchain.pending_transactions (submit_all h ls bc).2
     = Blockchain.pending_transactions bc ++ ls.

(** C10 as worded. *)
Definition C10_as_stated (h : Heap) (address : string) (ls : list loc)
    (bc : Blockchain.t) : Prop :=
  Forall (affordable h address bc) ls -> all_accepted h ls bc.

(** C8 as worded: [k1] and [k2] are the nonces of the two calls. *)
Definition C8_as_stated (private_key k1 k2 : Z) (tx : Transaction.t) : Prop :=
  let once := (Transaction.sign_transaction private_key k1 tx).2 in
  let twice := (Transaction.sign_transaction private_key k2 once).2 in
  Transaction.transaction_id twice = Transaction.transaction_id once
  /\ Transaction.signature twice = Transaction.signature once.

(** The transactions of the chain, block after block. *)
Definition chain_transactions (h : Heap) (bc : Blockchain.t) : list Transaction.t :=
  map (fun l => h !!! l) (concat (map Block.transactions (Blockchain.chain bc))).

(** Python's [sum] over floats. *)
Definition fsum (l : list float) : float := fold_left PrimFloat.add l 0%float.

Definition receipts (h : Heap) (address : string) (bc : Blockchain.t) : list float :=
  map Transaction.amount
      (List.filter (fun tx => String.eqb (Transaction.recipient_address tx) address)
                   (chain_transactions h bc)).

Definition debits (h : Heap) (address : string) (bc : Blockchain.t) : list float :=
  map (fun tx => (Transaction.amount tx + Transaction.fee tx)%float)
      (List.filter (fun tx => String.eqb (Transaction.sender_address tx) address)
                   (chain_transactions h bc)).

(** C3 as worded, the two sums and the difference taken on floats. *)
Definition C3_as_stated (h : Heap) (address : string) (bc : Blockchain.t) : Prop :=
  Blockchain.get_balance h address bc
  = (fsum (receipts h address bc) - fsum (debits h address bc))%float.

(** The rational a finite float stands for. *)
Definition exact (x : float) : Q :=
  match Prim2SF x with
  | S754_finite s m e =>
      let a := if 0 <=? e then inject_Z (Z.pos m * 2 ^ e)
               else Z.pos m # Z.to_pos (2 ^ (- e)) in
      if s then Qopp a else a
  | _ => 0%Q
  end.

Definition qsum (l : list Q) : Q := fold_left Qplus l 0%Q.

(** C3 as worded, read over the rationals: the sums of the amounts and
    fees without any rounding. *)
Definition C3_as_stated_exactly (h : Heap) (address : string) (bc : Blockchain.t) : Prop :=
  Qeq (exact (Blockchain.get_balance h address bc))
      (qsum (map exact (receipts h address bc))
       - qsum (map (fun tx => (exact (Transaction.amount tx)
                               + exact (Transaction.fee tx))%Q)
                   (List.filter
                      (fun tx => String.eqb (Transaction.sender_address tx) address)
                      (chain_transactions h bc)))).

(** The heap after the confirmation loop has gone through [ls]. *)
Definition confirm_in_heap (h : Heap) (ls : list loc) : Heap :=
  fold_left (fun h l => <[l := Transaction.set_status "confirmed" (h !!! l)]> h) ls h.

(** The running total in the words of the amended C3: from [balance],
    each transaction in turn adds its amount when the recipient is the
    address and then takes off amount + fee when the sender is the
    address. *)
Fixpoint running_total (address : string) (balance : float)
    (txs : list Transaction.t) : float :=
  match txs with
  | [] => balance
  | tx :: rest =>
      let received :=
        if String.eqb (Transaction.recipient_address tx) address
        then (balance + Transaction.amount tx)%float else balance in
      let sent :=
        if String.eqb (Transaction.sender_address tx) address
        then (received - (Transaction.amount tx + Transaction.fee tx))%float
        else received in
      running_total address sent rest
  end.

(** Zero or a finite number: neither an infinity nor NaN. *)
Definition is_finite (x : float) : bool :=
  match Prim2SF x with
  | S754_zero _ | S754_finite _ _ _ => true
  | _ => false
  end.

(** The float sum, and the float difference, is finite and is the sum,
    the difference, of the two numbers: nothing was rounded. *)
Definition sum_exact (a b : float) : Prop :=
  is_finite (a + b)%float = true
  /\ Qeq (exact (a + b)%float) (exact a + exact b)%Q.

Definition difference_exact (a b : float) : Prop :=
  is_finite (a - b)%float = true
  /\ Qeq (exact (a - b)%float) (exact a - exact b)%Q.

(** No operation of the running total for [address] over [txs] rounds. *)
Fixpoint unrounded (address : string) (balance : float)
    (txs : list Transaction.t) : Prop :=
  match txs with
  | [] => True
  | tx :: rest =>
      let received :=
        if String.eqb (Transaction.recipient_address tx) address
        then (balance + Transaction.amount tx)%float else balance in
      let cost := (Transaction.amount tx + Transaction.fee tx)%float in
      let sent :=
        if String.eqb (Transaction.sender_address tx) address
        then (received - cost)%float else received in
      (Transaction.recipient_address tx = address ->
       sum_exact balance (Transaction.amount tx))
      /\ (Transaction.sender_address tx = address ->
          sum_exact (Transaction.amount tx) (Transaction.fee tx)
          /\ difference_exact received cost)
      /\ unrounded address sent rest
  end.

(** C7 as worded, at one call of the loop. *)
Definition C7_as_stated (h : Heap) (difficulty : Z) (fuel : nat) (b : Block.t) : Prop :=
  forall block,
    Block.mine_block fuel h difficulty b = Some block ->
    PyStr.slice_to (Block.hash block) difficulty = PyStr.zeros difficulty
    /\ Block.hash block = Block.calculate_hash h block.

(** Block [b] at position [i]: its index, its references, its hash, its
    link to the block before and the target. *)
Definition block_ok (h : Heap) (bc : Blockchain.t) (i : nat) (b : Block.t) : Prop :=
  Block.index b = Z.of_nat i
  /\ Forall (fun l => (l < length h)%nat) (Block.transactions b)
  /\ String.length (Block.hash b) = 64%nat
  /\ (i <> 0%nat ->
      exists p, Blockchain.chain bc !! (i - 1)%nat = Some p
                /\ Block.previous_hash b = Block.hash p
                /\ Block.meets_target (Blockchain.difficulty bc) (Block.hash b) = true).

Definition chain_ok (h : Heap) (bc : Blockchain.t) : Prop :=
  forall i b, Blockchain.chain bc !! i = Some b -> block_ok h bc i b.

(** Two objects that differ at most in the status. *)
Definition same_but_status (a b : Transaction.t) : Prop :=
  Transaction.set_status EmptyString a = Transaction.set_status EmptyString b.

(** The chain with another block in the place of the genesis block. *)
Definition with_genesis (genesis : Block.t) (bc : Blockchain.t) : Blockchain.t :=
  Blockchain.mk (genesis :: tail (Blockchain.chain bc)) (Blockchain.difficulty bc)
                (Blockchain.pending_transactions bc) (Blockchain.mining_reward bc)
                (Blockchain.transaction_pool bc).

(** The references a chain and a queue hold, in search order. *)
Definition chain_refs (bc : Blockchain.t) : list loc :=
  concat (map Block.transactions (Blockchain.chain bc)).

(** The transactions of the blocks without the last one of each block,
    which in a mined block is the reward. *)
Definition transfers (bc : Blockchain.t) : list loc :=
  concat (map (fun b => removelast (Block.transactions b)) (Blockchain.chain bc)).

(** No block's last transaction pays [address], and [address] is not the
    sender of the rewards. *)
Definition never_rewarded (h : Heap) (address : string) (bc : Blockchain.t) : Prop :=
  address <> "system"%string
  /\ Forall (fun b => forall l, last (Block.transactions b) = Some l ->
                        Transaction.recipient_address (h !!! l) <> address)
            (Blockchain.chain bc).

(** Positive: a finite value above zero, or plus infinity. *)
Definition sf_positive (x : spec_float) : Prop :=
  x = S754_infinity false \/ exists m e, x = S754_finite false m e.

(** The chain after it has queued [transaction]: the reference is the new
    last entry of the pending queue and of the pool's pending list. *)
Definition queued (transaction : loc) (bc : Blockchain.t) : Blockchain.t :=
  Blockchain.mk (Blockchain.chain bc) (Blockchain.difficulty bc)
    (Blockchain.pending_transactions bc ++ [transaction])
    (Blockchain.mining_reward bc)
    (TransactionPool.mk
       (TransactionPool.transactions (Blockchain.transaction_pool bc) ++ [transaction])
       (TransactionPool.confirmed_transactions (Blockchain.transaction_pool bc))).

(** The amount and the fee are numbers. *)
Definition numeric (tx : Transaction.t) : Prop :=
  PrimFloat.is_nan (Transaction.amount tx) = false
  /\ PrimFloat.is_nan (Transaction.fee tx) = false.

(** ** The wallets of the run

    The miner's wallet before and after the first mining call, the same
    wallet locked, alice's wallet, and a block to stand in for the genesis
    block. *)

Module WalletRun.

Definition miner (bc : Blockchain.t) : Wallet.t :=
  Wallet.mk (Some Scenario.miner_key)
            (Some (CryptoUtils.get_public_key Scenario.miner_key))
            (Some "miner"%string) bc true.

Definition locked : Wallet.t := Wallet.lock_wallet (miner Scenario.bc2).

Definition alice (bc : Blockchain.t) : Wallet.t :=
  Wallet.mk (Some Scenario.alice_key)
            (Some (CryptoUtils.get_public_key Scenario.alice_key))
            (Some "alice"%string) bc true.

(** What the print of U+2713 raises on an ASCII standard output. *)
Definition encode_error : exn :=
  Library_error
    "'ascii' codec can't encode character '\u2713' in position 0: ordinal not in range(128)".

Definition forged_genesis : Block.t :=
  Block.mk 7 0 [1%nat] "ff" 99 (Block.hash Scenario.genesis).

End WalletRun.

(** * Properties *)

(** ** The library models on known values *)

Example sha256_abc :
  SHA256.hexdigest "abc"
  = "ba7816bf8f01cfea414140de5dae2223b00361a396177a9cb410ff61f20015ad"%string.
Proof. vm_compute. reflexivity. Qed.

Example sha256_two_blocks :
  SHA256.hexdigest "abcdbcdecdefdefgefghfghighijhijkijkljklmklmnlmnomnopnopq"
  = "248d6a61d20638b8e5c026930c3e6039a33ce45964ff2167f6ecedd419db06c1"%string.
Proof. vm_compute. reflexivity. Qed.

Example sha1_abc :
  SHA1.hexdigest "abc" = "a9993e364706816aba3e25717850c26c9cd0d89d"%string.
Proof. vm_compute. reflexivity. Qed.

Example repr_floats :
  map PyFloat.repr
      [1.0; 0.001; 10.0; 0.1; 0.30000000000000004; 1700000026.125; 1e16; 1e15;
       1e-5; 0.0001; 5e-324; 1.7976931348623157e308; (1 / 3); (-1.5); nan;
       infinity]%float
  = ["1.0"; "0.001"; "10.0"; "0.1"; "0.30000000000000004"; "1700000026.125";
     "1e+16"; "1000000000000000.0"; "1e-05"; "0.0001"; "5e-324";
     "1.7976931348623157e+308"; "0.3333333333333333"; "-1.5"; "nan"; "inf"]%string.
Proof. vm_compute. reflexivity. Qed.

Example json_sorted_keys :
  Json.dumps (Json.Dict [("b", Json.Float 1); ("a", Json.List [Json.Int 3; Json.Null]);
                         ("B", Json.Dict [])]) true
  = ("{" +:+ Json.dquote +:+ "B" +:+ Json.dquote +:+ ": {}, "
     +:+ Json.dquote +:+ "a" +:+ Json.dquote +:+ ": [3, null], "
     +:+ Json.dquote +:+ "b" +:+ Json.dquote +:+ ": 1.0}")%string.
Proof. vm_compute. reflexivity. Qed.

Example generator_on_curve :
  Secp256k1.on_curve Secp256k1.G = true
  /\ Secp256k1.mul 2 (Some Secp256k1.G)
     = Some (0xc6047f9441ed7d6d3045406e95c07cd85c778e4b8cef3ca7abac09b95c709ee5,
             0x1ae168fea63dc339a3c58419466ceaeef7f632653266d0e1236431a950cfe52a).
Proof. split; vm_compute; reflexivity. Qed.

(** ** Comparisons of binary64 values *)

Section FloatOrder.

Lemma SFcompare_antisym x y :
  SFcompare y x = option_map CompOpp (SFcompare x y).
Proof.
  destruct x as [[]|[]| |[] m1 e1], y as [[]|[]| |[] m2 e2]; simpl; try reflexivity.
  - rewrite (Z.compare_antisym e1 e2).
    destruct (e1 ?= e2)%Z; simpl; try reflexivity.
    fold (Pos.compare m1 m2) (Pos.compare m2 m1).
    rewrite (Pos.compare_antisym m1 m2). reflexivity.
  - rewrite (Z.compare_antisym e1 e2).
    destruct (e1 ?= e2)%Z; simpl; try reflexivity.
    fold (Pos.compare m1 m2) (Pos.compare m2 m1).
    rewrite (Pos.compare_antisym m1 m2).
    destruct (m1 ?= m2)%positive; reflexivity.
Qed.

Lemma float_lt_not_ge (x y : float) :
  (x <? y)%float = true -> (y <=? x)%float = false.
Proof.
  rewrite FloatAxioms.ltb_spec, FloatAxioms.leb_spec. unfold SFltb, SFleb.
  rewrite (SFcompare_antisym (Prim2SF x) (Prim2SF y)).
  destruct (SFcompare (Prim2SF x) (Prim2SF y)) as [[]|]; simpl; congruence.
Qed.

Lemma float_le_not_gt (x y : float) :
  (x <=? y)%float = true -> (y <? x)%float = false.
Proof.
  rewrite FloatAxioms.ltb_spec, FloatAxioms.leb_spec. unfold SFltb, SFleb.
  rewrite (SFcompare_antisym (Prim2SF x) (Prim2SF y)).
  destruct (SFcompare (Prim2SF x) (Prim2SF y)) as [[]|]; simpl; congruence.
Qed.

Lemma float_eq_not_lt (x y : float) :
  (x =? y)%float = true -> (x <? y)%float = false.
Proof.
  rewrite FloatAxioms.ltb_spec, FloatAxioms.eqb_spec. unfold SFltb, SFeqb.
  destruct (SFcompare (Prim2SF x) (Prim2SF y)) as [[]|]; simpl; congruence.
Qed.

End FloatOrder.


(** ** The proof-of-work loop *)

Section Mining.

Variables (h : Heap) (difficulty : Z).

Lemma mine_block_unfold fuel (b : Block.t) :
  Block.mine_block fuel h difficulty b
  = if Block.meets_target difficulty (Block.hash b) then Some b
    else match fuel with
         | O => None
         | S fuel' => Block.mine_block fuel' h difficulty (Block.next_nonce h b)
         end.
Proof. destruct fuel; reflexivity. Qed.

Lemma calculate_hash_set_hash v (b : Block.t) :
  Block.calculate_hash h (Block.set_hash v b) = Block.calculate_hash h b.
Proof. reflexivity. Qed.

Lemma next_nonce_current (b : Block.t) :
  Block.hash (Block.next_nonce h b)
  = Block.calculate_hash h (Block.next_nonce h b).
Proof. unfold Block.next_nonce. rewrite calculate_hash_set_hash. reflexivity. Qed.


Lemma mine_block_post fuel : forall b b',
  Block.mine_block fuel h difficulty b = Some b' ->
  Block.meets_target difficulty (Block.hash b') = true
  /\ (Block.hash b = Block.calculate_hash h b ->
      Block.hash b' = Block.calculate_hash h b')
  /\ same_contents b b'.
Proof.
  induction fuel as [|fuel IH]; intros b b'; rewrite mine_block_unfold;
    destruct (Block.meets_target difficulty (Block.hash b)) eqn:Hb; try discriminate.
  - intros [= <-]. repeat split; auto.
  - intros [= <-]. repeat split; auto.
  - intros Hm. destruct (IH _ _ Hm) as (Ht & Hh & Hi & Hts & Htx & Hp).
    split; [exact Ht|]. split.
    + intros _. apply Hh, next_nonce_current.
    + repeat split; [rewrite Hi | rewrite Hts | rewrite Htx | rewrite Hp]; reflexivity.
Qed.

(** The search ends as soon as some nonce gives a hash on target, and it
    stops at the first one. *)
Lemma mine_block_finds n : forall fuel b,
  Block.meets_target difficulty (Block.hash (Nat.iter n (Block.next_nonce h) b)) = true ->
  (n <= fuel)%nat ->
  exists m, (m <= n)%nat
    /\ Block.mine_block fuel h difficulty b = Some (Nat.iter m (Block.next_nonce h) b).
Proof.
  induction n as [|n IH]; intros fuel b Hn Hle; rewrite mine_block_unfold.
  - simpl in Hn. rewrite Hn. exists O. split; [lia | reflexivity].
  - destruct (Block.meets_target difficulty (Block.hash b)) eqn:Hb.
    + exists O. split; [lia | reflexivity].
    + destruct fuel as [|fuel]; [lia|].
      rewrite Nat.iter_succ_r in Hn.
      destruct (IH fuel _ Hn ltac:(lia)) as (m & Hm & ->).
      exists (S m). split; [lia|]. rewrite Nat.iter_succ_r. reflexivity.
Qed.

End Mining.

Lemma iter_next_nonce (h : Heap) n : forall b,
  Block.nonce (Nat.iter n (Block.next_nonce h) b) = Block.nonce b + Z.of_nat n.
Proof.
  induction n as [|n IH]; intros b; [simpl; lia|].
  rewrite Nat.iter_succ_r, IH. cbn [Block.next_nonce Block.nonce Block.set_nonce
                                     Block.set_hash]. lia.
Qed.

Lemma mine_block_first (h : Heap) difficulty fuel : forall b block,
  Block.mine_block fuel h difficulty b = Some block ->
  exists n, (n <= fuel)%nat
    /\ block = Nat.iter n (Block.next_nonce h) b
    /\ forall m, (m < n)%nat ->
         Block.meets_target difficulty
           (Block.hash (Nat.iter m (Block.next_nonce h) b)) = false.
Proof.
  induction fuel as [|fuel IH]; intros b block; rewrite mine_block_unfold;
    destruct (Block.meets_target difficulty (Block.hash b)) eqn:Hb; try discriminate.
  - intros [= <-]. exists O. split; [lia|]. split; [reflexivity|]. intros m Hm. lia.
  - intros [= <-]. exists O. split; [lia|]. split; [reflexivity|]. intros m Hm. lia.
  - intros Hm. destruct (IH _ _ Hm) as (n & Hn & -> & Hleast).
    exists (S n). split; [lia|]. split; [rewrite Nat.iter_succ_r; reflexivity|].
    intros [|m] Hlt; [exact Hb|].
    rewrite Nat.iter_succ_r. apply Hleast. lia.
Qed.

Lemma iter_next_nonce_current (h : Heap) n (b : Block.t) :
  n <> O ->
  Block.hash (Nat.iter n (Block.next_nonce h) b)
  = Block.calculate_hash h (Nat.iter n (Block.next_nonce h) b).
Proof. destruct n as [|n]; [contradiction|]. intros _. apply next_nonce_current. Qed.

Lemma meets_target_spec difficulty hash :
  Block.meets_target difficulty hash = true
  <-> PyStr.slice_to hash difficulty = PyStr.zeros difficulty.
Proof. unfold Block.meets_target. apply String.eqb_eq. Qed.

Lemma new_block_current h index transactions previous_hash timestamp now :
  let b := Block.new h index transactions previous_hash timestamp now in
  Block.hash b = Block.calculate_hash h b.
Proof. reflexivity. Qed.





(** ** Submitting a transaction *)

Lemma blockchain_eta (bc : Blockchain.t) :
  Blockchain.mk (Blockchain.chain bc) (Blockchain.difficulty bc)
                (Blockchain.pending_transactions bc) (Blockchain.mining_reward bc)
                (Blockchain.transaction_pool bc) = bc.
Proof. destruct bc; reflexivity. Qed.

Lemma opt_eqb_eq a b : PyStr.opt_eqb a b = true <-> a = b.
Proof.
  destruct a as [a|], b as [b|]; simpl; try (split; congruence).
  rewrite String.eqb_eq. split; congruence.
Qed.

Lemma same_id_exists h transaction pool :
  existsb (TransactionPool.same_id h (Transaction.transaction_id (h !!! transaction)))
          (TransactionPool.transactions pool) = true
  <-> id_in_pool h transaction pool.
Proof.
  rewrite existsb_exists. unfold id_in_pool, TransactionPool.same_id.
  split; intros (l & Hl & Hid); exists l.
  - split; [apply list_elem_of_In, Hl | apply opt_eqb_eq, Hid].
  - split; [apply list_elem_of_In, Hl | apply opt_eqb_eq, Hid].
Qed.

(** What the pool does with a transaction, by cases. *)
Lemma pool_add_cases h transaction pool :
  TransactionPool.add_transaction h transaction pool
  = if negb (Transaction.is_valid (h !!! transaction)).1
    then (Raised (Failed_to_add_to_pool
                    (Invalid_transaction (Transaction.is_valid (h !!! transaction)).2)),
          pool)
    else if existsb (TransactionPool.same_id h
                       (Transaction.transaction_id (h !!! transaction)))
                    (TransactionPool.transactions pool)
    then (Raised (Failed_to_add_to_pool Transaction_already_exists), pool)
    else (Returned true,
          TransactionPool.mk (TransactionPool.transactions pool ++ [transaction])
                             (TransactionPool.confirmed_transactions pool)).
Proof.
  unfold TransactionPool.add_transaction.
  destruct (Transaction.is_valid (h !!! transaction)) as [v m]. reflexivity.
Qed.

Lemma pool_add_raised h transaction pool e pool' :
  TransactionPool.add_transaction h transaction pool = (Raised e, pool') ->
  pool' = pool.
Proof.
  rewrite pool_add_cases.
  repeat match goal with |- context [if ?c then _ else _] => destruct c end;
    congruence.
Qed.

(** What the chain does with a transaction, by cases. *)
Lemma add_transaction_cases h transaction bc :
  let tx := h !!! transaction in
  let balance := Blockchain.get_balance h (Transaction.sender_address tx) bc in
  let required := (Transaction.amount tx + Transaction.fee tx)%float in
  Blockchain.add_transaction h transaction bc
  = if negb (Transaction.is_valid tx).1
    then (Raised (Failed_to_add_transaction
                    (Invalid_transaction (Transaction.is_valid tx).2)), bc)
    else if (balance <? required)%float
    then (Raised (Failed_to_add_transaction (Insufficient_balance balance required)), bc)
    else if existsb (TransactionPool.same_id h (Transaction.transaction_id tx))
                    (TransactionPool.transactions (Blockchain.transaction_pool bc))
    then (Raised (Failed_to_add_transaction
                    (Failed_to_add_to_pool Transaction_already_exists)), bc)
    else (Returned true,
          Blockchain.mk (Blockchain.chain bc) (Blockchain.difficulty bc)
            (Blockchain.pending_transactions bc ++ [transaction])
            (Blockchain.mining_reward bc)
            (TransactionPool.mk
               (TransactionPool.transactions (Blockchain.transaction_pool bc)
                ++ [transaction])
               (TransactionPool.confirmed_transactions (Blockchain.transaction_pool bc)))).
Proof.
  intros tx balance required. unfold Blockchain.add_transaction.
  fold tx. fold balance. fold required.
  rewrite pool_add_cases. fold tx.
  destruct (Transaction.is_valid tx) as [v m]; simpl.
  destruct v; simpl; [|reflexivity].
  destruct (balance <? required)%float; [reflexivity|].
  destruct (existsb _ _); [|reflexivity].
  rewrite blockchain_eta. reflexivity.
Qed.

(** C6: a call of addTransaction that raises leaves the chain, the
    pending queue and the pool (pending and confirmed lists) as they
    were; the transaction objects are not written to either.  The
    failures are the invalid transaction, the insufficient balance and
    the duplicate id. *)
Theorem C6_add_transaction_atomic (h : Heap) transaction bc e bc' :
  Blockchain.add_transaction h transaction bc = (Raised e, bc') ->
  bc' = bc
  /\ (let tx := h !!! transaction in
      e = Failed_to_add_transaction (Invalid_transaction (Transaction.is_valid tx).2)
      \/ e = Failed_to_add_transaction
               (Insufficient_balance
                  (Blockchain.get_balance h (Transaction.sender_address tx) bc)
                  (Transaction.amount tx + Transaction.fee tx)%float)
      \/ e = Failed_to_add_transaction
               (Failed_to_add_to_pool Transaction_already_exists)).
Proof.
  pose proof (add_transaction_cases h transaction bc) as Hc. cbv zeta in Hc.
  rewrite Hc.
  repeat match goal with |- context [if ?c then _ else _] => destruct c end;
    intros [= <- <-]; auto.
Qed.

(** C4: for a structurally valid transaction, addTransaction fails with
    InsufficientBalance exactly when getBalance(sender) < amount + fee:
    the error reports the two numbers; a balance equal to amount + fee
    passes the check, and the call then returns true unless the id is
    already pending in the pool; a balance of 5.0 against amount 4.0 and
    fee 2.0 is rejected. *)
Theorem C4_insufficient_balance h transaction bc :
  (Transaction.is_valid (h !!! transaction)).1 = true ->
  let tx := h !!! transaction in
  let balance := Blockchain.get_balance h (Transaction.sender_address tx) bc in
  let required := (Transaction.amount tx + Transaction.fee tx)%float in
  let result := (Blockchain.add_transaction h transaction bc).1 in
  is_insufficient_balance result = (balance <? required)%float
  /\ ((balance <? required)%float = true ->
      result = Raised (Failed_to_add_transaction
                         (Insufficient_balance balance required)))
  /\ ((balance =? required)%float = true ->
      is_insufficient_balance result = false
      /\ (~ id_in_pool h transaction (Blockchain.transaction_pool bc) ->
          result = Returned true))
  /\ (balance = 5.0%float -> Transaction.amount tx = 4.0%float ->
      Transaction.fee tx = 2.0%float ->
      result = Raised (Failed_to_add_transaction (Insufficient_balance 5.0 6.0))).
Proof.
  intros Hv tx balance required result.
  pose proof (add_transaction_cases h transaction bc) as Hc. cbv zeta in Hc.
  fold tx balance required in Hc.
  assert (Hlt : (balance <? required)%float = true ->
                result = Raised (Failed_to_add_transaction
                                   (Insufficient_balance balance required))).
  { intros Hb. unfold result. rewrite Hc. fold tx in Hv. rewrite Hv, Hb. reflexivity. }
  assert (Hge : (balance <? required)%float = false ->
                is_insufficient_balance result = false
                /\ (~ id_in_pool h transaction (Blockchain.transaction_pool bc) ->
                    result = Returned true)).
  { intros Hb. unfold result. rewrite Hc. fold tx in Hv. rewrite Hv, Hb. simpl.
    destruct (existsb _ _) eqn:He; simpl.
    - split; [reflexivity|]. intros Hn. exfalso. apply Hn.
      apply same_id_exists. exact He.
    - split; [reflexivity | intros _; reflexivity]. }
  split; [|split; [exact Hlt|split]].
  - destruct (balance <? required)%float eqn:Hb.
    + rewrite (Hlt eq_refl). reflexivity.
    + apply (Hge eq_refl).
  - intros Heq. apply Hge, float_eq_not_lt, Heq.
  - intros Hb Ha Hf. rewrite Hlt; unfold required; rewrite ?Hb, ?Ha, ?Hf; reflexivity.
Qed.

(** ** Structural validity and the signature *)


Lemma same_but_signature_fields a b :
  same_but_signature a b ->
  Transaction.sender_address a = Transaction.sender_address b
  /\ Transaction.recipient_address a = Transaction.recipient_address b
  /\ Transaction.amount a = Transaction.amount b
  /\ Transaction.fee a = Transaction.fee b
  /\ Transaction.transaction_id a = Transaction.transaction_id b
  /\ PyStr.opt_truthy (Transaction.signature a)
     = PyStr.opt_truthy (Transaction.signature b).
Proof.
  intros [He Ht]. destruct a, b. simpl in *.
  unfold Transaction.set_signature in He. simpl in He.
  injection He as -> -> -> -> -> -> -> ->. auto 10.
Qed.

Lemma is_valid_signature a b :
  same_but_signature a b -> Transaction.is_valid a = Transaction.is_valid b.
Proof.
  intros H. apply same_but_signature_fields in H.
  destruct H as (Hs & Hr & Ha & Hf & Hi & Ht).
  unfold Transaction.is_valid. rewrite Hs, Hr, Ha, Hf, Hi, Ht. reflexivity.
Qed.

Lemma credit_debit_signature address balance a b :
  same_but_signature a b ->
  Blockchain.credit_debit address balance a = Blockchain.credit_debit address balance b.
Proof.
  intros H. apply same_but_signature_fields in H.
  destruct H as (Hs & Hr & Ha & Hf & _).
  unfold Blockchain.credit_debit. rewrite Hs, Hr, Ha, Hf. reflexivity.
Qed.

Lemma fold_left_pointwise {A B} (f g : A -> B -> A) (l : list B) :
  (forall a b, f a b = g a b) -> forall a, fold_left f l a = fold_left g l a.
Proof.
  intros Hfg. induction l as [|b l IH]; intros a; simpl; [reflexivity|].
  rewrite Hfg. apply IH.
Qed.

Lemma existsb_pointwise {A} (f g : A -> bool) (l : list A) :
  (forall a, f a = g a) -> existsb f l = existsb g l.
Proof.
  intros Hfg. induction l as [|a l IH]; simpl; [reflexivity|].
  rewrite Hfg, IH. reflexivity.
Qed.

Lemma get_balance_signature (h h' : Heap) address bc :
  (forall l, same_but_signature (h !!! l) (h' !!! l)) ->
  Blockchain.get_balance h address bc = Blockchain.get_balance h' address bc.
Proof.
  intros Hh. unfold Blockchain.get_balance.
  apply fold_left_pointwise. intros balance block.
  apply fold_left_pointwise. intros b l. apply credit_debit_signature, Hh.
Qed.

Lemma add_transaction_signature (h h' : Heap) transaction bc :
  (forall l, same_but_signature (h !!! l) (h' !!! l)) ->
  Blockchain.add_transaction h transaction bc
  = Blockchain.add_transaction h' transaction bc.
Proof.
  intros Hh.
  pose proof (add_transaction_cases h transaction bc) as Hc.
  pose proof (add_transaction_cases h' transaction bc) as Hc'.
  cbv zeta in Hc, Hc'. rewrite Hc, Hc'.
  rewrite (is_valid_signature _ _ (Hh transaction)).
  destruct (same_but_signature_fields _ _ (Hh transaction)) as (-> & _ & -> & -> & -> & _).
  rewrite (get_balance_signature h h' _ bc Hh).
  replace (existsb (TransactionPool.same_id h _) _)
    with (existsb (TransactionPool.same_id h'
                     (Transaction.transaction_id (h' !!! transaction)))
            (TransactionPool.transactions (Blockchain.transaction_pool bc))).
  - reflexivity.
  - apply existsb_pointwise. intros l. unfold TransactionPool.same_id.
    destruct (same_but_signature_fields _ _ (Hh l)) as (_ & _ & _ & _ & -> & _).
    reflexivity.
Qed.

(** C9: a transaction with non-empty, different sender and recipient,
    amount > 0, fee >= 0 and any non-empty signature and id is valid, and
    the outcome and effect of addTransaction (and of the pool's add) do
    not depend on what the signature is, hence not on whether it
    verifies under any key: replacing the signature of any object by
    another non-empty string changes nothing. *)
Theorem C9_signature_never_checked :
  (forall tx : Transaction.t,
      PyStr.truthy (Transaction.sender_address tx) = true ->
      PyStr.truthy (Transaction.recipient_address tx) = true ->
      Transaction.sender_address tx <> Transaction.recipient_address tx ->
      (0 <? Transaction.amount tx)%float = true ->
      (0 <=? Transaction.fee tx)%float = true ->
      PyStr.opt_truthy (Transaction.signature tx) = true ->
      PyStr.opt_truthy (Transaction.transaction_id tx) = true ->
      Transaction.is_valid tx = (true, "Transaction is valid"%string))
  /\ (forall (h : Heap) (forged : loc) (sig : string) transaction bc,
        PyStr.opt_truthy (Transaction.signature (h !!! forged)) = true ->
        PyStr.truthy sig = true ->
        let h' := <[forged := Transaction.set_signature (Some sig) (h !!! forged)]> h in
        Blockchain.add_transaction h' transaction bc
        = Blockchain.add_transaction h transaction bc
        /\ TransactionPool.add_transaction h' transaction (Blockchain.transaction_pool bc)
           = TransactionPool.add_transaction h transaction (Blockchain.transaction_pool bc)).
Proof.
  split.
  - intros tx Hs Hr Hne Ha Hf Hsig Hid. unfold Transaction.is_valid.
    rewrite Hs, Hr, Hsig, Hid. simpl.
    rewrite (float_lt_not_ge _ _ Ha), (float_le_not_gt _ _ Hf).
    destruct (String.eqb_spec (Transaction.sender_address tx)
                (Transaction.recipient_address tx)); [contradiction | reflexivity].
  - intros h forged sig transaction bc Hsig Hs h'.
    assert (Hh : forall l, same_but_signature (h' !!! l) (h !!! l)).
    { intros l. unfold h'.
      destruct (decide (forged < length h)%nat) as [Hlt|Hge].
      - destruct (decide (l = forged)) as [->|Hne].
        + rewrite list_lookup_total_insert_eq by exact Hlt.
          split; [destruct (h !!! forged); reflexivity|].
          simpl. rewrite Hsig. exact Hs.
        + rewrite list_lookup_total_insert_ne by congruence. split; reflexivity.
      - rewrite list_insert_ge by lia. split; reflexivity. }
    split.
    + apply add_transaction_signature, Hh.
    + rewrite !pool_add_cases.
      rewrite (is_valid_signature _ _ (Hh transaction)).
      destruct (same_but_signature_fields _ _ (Hh transaction)) as (_ & _ & _ & _ & -> & _).
      replace (existsb (TransactionPool.same_id h' _) _)
        with (existsb (TransactionPool.same_id h
                         (Transaction.transaction_id (h !!! transaction)))
                (TransactionPool.transactions (Blockchain.transaction_pool bc))).
      * reflexivity.
      * apply existsb_pointwise. intros l. unfold TransactionPool.same_id.
        destruct (same_but_signature_fields _ _ (Hh l)) as (_ & _ & _ & _ & -> & _).
        reflexivity.
Qed.

(** ** Duplicates *)


(** An unsigned transaction offered to an empty pool: no entry has its
    id, yet it is not appended; the validity check comes first. *)
Lemma C5_counterexample :
  ~ C5_as_stated [Transaction.new "alice" "bob" 1.0 0.001 EmptyString 1700000010.5] 0
                 TransactionPool.new.
Proof.
  intros [_ H].
  assert (Hn : ~ id_in_pool [Transaction.new "alice" "bob" 1.0 0.001 EmptyString 1700000010.5]
                            0 TransactionPool.new).
  { intros (l & Hl & _). simpl in Hl. inversion Hl. }
  specialize (H Hn). revert H. vm_compute. discriminate.
Qed.

Lemma get_balance_chain h address bc bc' :
  Blockchain.chain bc' = Blockchain.chain bc ->
  Blockchain.get_balance h address bc' = Blockchain.get_balance h address bc.
Proof. unfold Blockchain.get_balance. intros ->. reflexivity. Qed.

Lemma existsb_same_id_snoc h transaction l :
  existsb (TransactionPool.same_id h (Transaction.transaction_id (h !!! transaction)))
          (l ++ [transaction]) = true.
Proof.
  rewrite existsb_app. simpl. unfold TransactionPool.same_id at 2.
  rewrite (proj2 (opt_eqb_eq _ _) eq_refl). rewrite !orb_true_r. reflexivity.
Qed.

(** C5 (amended): for a structurally valid transaction, the pool's add
    fails with DuplicateTransaction exactly when an entry of its pending
    list has the same transaction_id, and otherwise appends the
    transaction at the end of that list; a transaction that is not
    structurally valid fails with InvalidTransaction, whether or not its
    id is pending, and is not appended.  Through addTransaction, a valid
    transaction whose id is not pending and whose sender's balance is not
    below amount + fee is accepted and queued, and submitting it again,
    with no mining in between, fails with DuplicateTransaction and
    changes nothing; so does any second submission after a first call
    that succeeded. *)
Theorem C5_duplicate_rejection :
  (forall (h : Heap) transaction pool,
      (Transaction.is_valid (h !!! transaction)).1 = true ->
      let r := TransactionPool.add_transaction h transaction pool in
      (is_duplicate r.1 = true <-> id_in_pool h transaction pool)
      /\ (id_in_pool h transaction pool ->
          r = (Raised (Failed_to_add_to_pool Transaction_already_exists), pool))
      /\ (~ id_in_pool h transaction pool ->
          r = (Returned true,
               TransactionPool.mk (TransactionPool.transactions pool ++ [transaction])
                                  (TransactionPool.confirmed_transactions pool))))
  /\ (forall (h : Heap) transaction bc bc1,
        Blockchain.add_transaction h transaction bc = (Returned true, bc1) ->
        Blockchain.add_transaction h transaction bc1
        = (Raised (Failed_to_add_transaction
                     (Failed_to_add_to_pool Transaction_already_exists)), bc1))
  /\ (forall (h : Heap) transaction pool,
        (Transaction.is_valid (h !!! transaction)).1 = false ->
        TransactionPool.add_transaction h transaction pool
        = (Raised (Failed_to_add_to_pool
                     (Invalid_transaction (Transaction.is_valid (h !!! transaction)).2)),
           pool))
  /\ (forall (h : Heap) transaction bc,
        let tx := h !!! transaction in
        (Transaction.is_valid tx).1 = true ->
        (Blockchain.get_balance h (Transaction.sender_address tx) bc
         <? Transaction.amount tx + Transaction.fee tx)%float = false ->
        ~ id_in_pool h transaction (Blockchain.transaction_pool bc) ->
        exists bc1,
          Blockchain.add_transaction h transaction bc = (Returned true, bc1)
          /\ Blockchain.pending_transactions bc1
             = Blockchain.pending_transactions bc ++ [transaction]
          /\ TransactionPool.transactions (Blockchain.transaction_pool bc1)
             = TransactionPool.transactions (Blockchain.transaction_pool bc)
               ++ [transaction]
          /\ Blockchain.add_transaction h transaction bc1
             = (Raised (Failed_to_add_transaction
                          (Failed_to_add_to_pool Transaction_already_exists)), bc1)).
Proof.
  assert (Hagain : forall (h : Heap) transaction bc bc1,
             Blockchain.add_transaction h transaction bc = (Returned true, bc1) ->
             Blockchain.add_transaction h transaction bc1
             = (Raised (Failed_to_add_transaction
                          (Failed_to_add_to_pool Transaction_already_exists)), bc1)).
  { intros h transaction bc bc1.
    pose proof (add_transaction_cases h transaction bc) as Hc. cbv zeta in Hc.
    rewrite Hc.
    destruct (negb (Transaction.is_valid (h !!! transaction)).1) eqn:Hv;
      [discriminate|].
    destruct (_ <? _)%float eqn:Hb; [discriminate|].
    destruct (existsb _ _) eqn:He; [discriminate|].
    intros [= <-].
    pose proof (add_transaction_cases h transaction
                  (Blockchain.mk (Blockchain.chain bc) (Blockchain.difficulty bc)
                     (Blockchain.pending_transactions bc ++ [transaction])
                     (Blockchain.mining_reward bc)
                     (TransactionPool.mk
                        (TransactionPool.transactions (Blockchain.transaction_pool bc)
                         ++ [transaction])
                        (TransactionPool.confirmed_transactions
                           (Blockchain.transaction_pool bc))))) as Hc'.
    cbv zeta in Hc'. rewrite Hc'. rewrite Hv.
    rewrite (get_balance_chain h _ bc (Blockchain.mk _ _ _ _ _) eq_refl), Hb. simpl.
    rewrite existsb_same_id_snoc. reflexivity. }
  split; [|split; [exact Hagain|split]].
  - intros h transaction pool Hv r. unfold r. rewrite pool_add_cases, Hv. simpl.
    pose proof (same_id_exists h transaction pool) as Hex.
    destruct (existsb _ _); simpl.
    + split; [tauto|]. split; [reflexivity|].
      intros Hn. exfalso. apply Hn, Hex. reflexivity.
    + split; [|split; [|reflexivity]].
      * split; [discriminate|]. intros Hi. apply Hex in Hi. discriminate.
      * intros Hi. apply Hex in Hi. discriminate.
  - intros h transaction pool Hv. rewrite pool_add_cases, Hv. reflexivity.
  - intros h transaction bc tx Hv Hb Hn.
    pose proof (add_transaction_cases h transaction bc) as Hc. cbv zeta in Hc.
    fold tx in Hc. rewrite Hv, Hb in Hc. cbn [negb] in Hc.
    destruct (existsb _ _) eqn:He.
    { exfalso. apply Hn, same_id_exists, He. }
    eexists. split; [exact Hc|]. split; [reflexivity|]. split; [reflexivity|].
    apply (Hagain h transaction bc), Hc.
Qed.

(** ** Several transfers against one confirmed balance *)





Lemma affordable_chain h address bc bc' l :
  Blockchain.chain bc' = Blockchain.chain bc ->
  affordable h address bc l -> affordable h address bc' l.
Proof.
  intros Hc (Hv & Hs & Hb). repeat split; auto.
  rewrite (get_balance_chain h address bc bc' Hc). exact Hb.
Qed.

(** C10 (amended): for an address with confirmed balance b, any sequence
    of structurally valid transactions from that address that carry
    pairwise different transaction ids, none of them already pending in
    the pool, and that each satisfy amount + fee <= b, is accepted into
    the pending queue in order, whatever the sum of their amounts and
    fees. *)
Theorem C10_pending_debits_ignored (h : Heap) address ls : forall bc,
  Forall (affordable h address bc) ls ->
  NoDup (map (fun l => Transaction.transaction_id (h !!! l)) ls) ->
  Forall (fun l => ~ id_in_pool h l (Blockchain.transaction_pool bc)) ls ->
  all_accepted h ls bc
  /\ Blockchain.chain (submit_all h ls bc).2 = Blockchain.chain bc
  /\ TransactionPool.transactions (Blockchain.transaction_pool (submit_all h ls bc).2)
     = TransactionPool.transactions (Blockchain.transaction_pool bc) ++ ls.
Proof.
  unfold all_accepted.
  induction ls as [|l ls IH]; intros bc Ha Hd Hp; simpl.
  - rewrite !app_nil_r. auto.
  - inversion Ha as [|? ? (Hv & Hs & Hb) Ha']; subst.
    inversion Hd as [|? ? Hnin Hd']; subst.
    inversion Hp as [|? ? Hl Hp']; subst.
    pose proof (add_transaction_cases h l bc) as Hc. cbv zeta in Hc.
    rewrite Hv, (float_le_not_gt _ _ Hb) in Hc. simpl in Hc.
    destruct (existsb _ _) eqn:He.
    { exfalso. apply Hl, same_id_exists, He. }
    rewrite Hc. clear Hc.
    match goal with |- context [submit_all h ls ?b] => set (bc' := b) end.
    destruct (IH bc') as ((Hr & Hq) & Hch & Hpool).
    + eapply Forall_impl; [exact Ha'|]. intros x. apply affordable_chain. reflexivity.
    + exact Hd'.
    + apply Forall_forall. intros x Hx (y & Hy & Hid).
      simpl in Hy. apply elem_of_app in Hy as [Hy|Hy].
      * rewrite Forall_forall in Hp'. apply (Hp' x Hx). exists y. auto.
      * apply list_elem_of_singleton in Hy. subst y.
        apply Hnin. rewrite Hid.
        apply list_elem_of_In, (in_map (fun l => Transaction.transaction_id (h !!! l))).
        apply list_elem_of_In, Hx.
    + destruct (submit_all h ls bc') as [rs bc'']. simpl in *.
      rewrite Hr, Hq, Hch, Hpool. simpl. rewrite <- !app_assoc. auto.
Qed.

(** ** Signing twice *)


(** The signer draws a nonce per call; with nonces 3 and 5 the two
    signatures of the same payload under the same key differ. *)
Lemma C8_counterexample :
  ~ C8_as_stated 7 3 5 (Transaction.new "alice" "bob" 1.0 0.001 EmptyString 1700000010.5).
Proof. intros [_ H]. revert H. vm_compute. discriminate. Qed.

Lemma transaction_data_signed sig id (tx : Transaction.t) :
  Transaction.get_transaction_data
    (Transaction.set_transaction_id id (Transaction.set_signature sig tx))
  = Transaction.get_transaction_data tx.
Proof. reflexivity. Qed.

(** C8 (amended): after a successful first call, a second call with the
    same key leaves the transaction_id as it is (the content hash of the
    unchanged payload) and touches no field other than the signature;
    the signature after the second call is the one a single call with the
    second call's nonce produces, so the call is idempotent when the signer
    uses the same nonce again, and not in general. *)
Theorem C8_signing_twice private_key k1 k2 (tx : Transaction.t) :
  let first := Transaction.sign_transaction private_key k1 tx in
  let second := Transaction.sign_transaction private_key k2 first.2 in
  first.1 = Returned true ->
  Transaction.transaction_id second.2 = Transaction.transaction_id first.2
  /\ Transaction.transaction_id first.2 = Some (Transaction.calculate_hash tx)
  /\ Transaction.set_signature None second.2 = Transaction.set_signature None first.2
  /\ (second.1 = Returned true ->
      Transaction.signature second.2
      = Transaction.signature (Transaction.sign_transaction private_key k2 tx).2)
  /\ (k2 = k1 -> second = first).
Proof.
  intros first second. unfold second, first, Transaction.sign_transaction.
  destruct (CryptoUtils.sign_message private_key k1
              (Transaction.get_transaction_data tx)) as [sig1|e1] eqn:H1;
    simpl; [intros _ | discriminate].
  rewrite transaction_data_signed.
  destruct (CryptoUtils.sign_message private_key k2
              (Transaction.get_transaction_data tx)) as [sig2|e2] eqn:H2; simpl.
  - repeat split; try reflexivity.
    intros ->. rewrite H1 in H2. injection H2 as <-. reflexivity.
  - repeat split; try reflexivity; try discriminate.
    intros ->. rewrite H1 in H2. discriminate H2.
Qed.

(** ** Balances *)









(** The miner after two blocks: rewards of 10.0 in each, a payment of
    1.0 with fee 0.001 between them.  The replay gives
    18.999000000000002, the difference of the sums 18.999. *)
Lemma C3_counterexample :
  Blockchain.get_balance Scenario.h4 "miner" Scenario.bc4 = 18.999000000000002%float
  /\ (fsum (receipts Scenario.h4 "miner" Scenario.bc4)
      - fsum (debits Scenario.h4 "miner" Scenario.bc4))%float = 18.999%float
  /\ ~ C3_as_stated Scenario.h4 "miner" Scenario.bc4
  /\ ~ C3_as_stated_exactly Scenario.h4 "miner" Scenario.bc4.
Proof.
  split; [vm_compute; reflexivity|]. split; [vm_compute; reflexivity|]. split.
  - unfold C3_as_stated. intros H. apply (f_equal Prim2SF) in H.
    revert H. vm_compute. discriminate.
  - unfold C3_as_stated_exactly, Qeq. vm_compute. discriminate.
Qed.

Lemma fold_left_lookups {A} (f : A -> Transaction.t -> A) (h : Heap) (ls : list loc) :
  forall a, fold_left (fun a l => f a (h !!! l)) ls a
            = fold_left f (map (fun l => h !!! l) ls) a.
Proof. induction ls as [|l ls IH]; intros a; simpl; [reflexivity | apply IH]. Qed.

Lemma get_balance_replay (h : Heap) address bc :
  Blockchain.get_balance h address bc
  = fold_left (Blockchain.credit_debit address) (chain_transactions h bc) 0%float.
Proof.
  unfold Blockchain.get_balance, chain_transactions.
  generalize 0%float. induction (Blockchain.chain bc) as [|b bs IH]; intros a; simpl.
  - reflexivity.
  - rewrite map_app, fold_left_app, IH.
    rewrite (fold_left_lookups (Blockchain.credit_debit address) h (Block.transactions b) a).
    reflexivity.
Qed.

Lemma replay_running_total address (txs : list Transaction.t) : forall balance,
  fold_left (Blockchain.credit_debit address) txs balance
  = running_total address balance txs.
Proof. induction txs as [|tx txs IH]; intros balance; [reflexivity | apply IH]. Qed.

Lemma qsum_from (l : list Q) : forall a, Qeq (fold_left Qplus l a) (a + qsum l).
Proof.
  unfold qsum. induction l as [|x l IH]; intros a; simpl.
  - ring.
  - rewrite (IH (a + x)%Q), (IH (0 + x)%Q). ring.
Qed.

Lemma qsum_cons x (l : list Q) : Qeq (qsum (x :: l)) (x + qsum l).
Proof. unfold qsum at 1. simpl. rewrite qsum_from. ring. Qed.

(** Without rounding the running total is the starting balance plus the
    receipts minus the sends, as numbers. *)
Lemma unrounded_exact address (txs : list Transaction.t) : forall balance,
  unrounded address balance txs ->
  Qeq (exact (running_total address balance txs))
      (exact balance
       + qsum (map exact
                 (map Transaction.amount
                    (List.filter
                       (fun tx => String.eqb (Transaction.recipient_address tx) address)
                       txs)))
       - qsum (map (fun tx => (exact (Transaction.amount tx)
                               + exact (Transaction.fee tx))%Q)
                   (List.filter
                      (fun tx => String.eqb (Transaction.sender_address tx) address)
                      txs))).
Proof.
  induction txs as [|tx txs IH]; intros balance Hu.
  - simpl. unfold qsum. simpl. ring.
  - destruct Hu as (Hr & Hs & Hrest). cbn [running_total List.filter].
    rewrite (IH _ Hrest). clear IH Hrest.
    destruct (String.eqb_spec (Transaction.recipient_address tx) address) as [Er|Er],
             (String.eqb_spec (Transaction.sender_address tx) address) as [Es|Es];
      cbn [map]; rewrite ?qsum_cons.
    + destruct (Hr Er) as [_ Hr']. destruct (Hs Es) as [[_ Hc] [_ Hd]].
      rewrite Hd, Hc, Hr'. ring.
    + destruct (Hr Er) as [_ Hr']. rewrite Hr'. ring.
    + destruct (Hs Es) as [[_ Hc] [_ Hd]]. rewrite Hd, Hc. ring.
    + ring.
Qed.

(** C3 (amended): getBalance(address) is the running binary64 total,
    started at 0.0, over the transactions of the chain's blocks in chain
    order, each one adding its amount when the recipient is the address
    and then taking off (amount + fee) when the sender is the address.
    Whenever none of these additions and subtractions rounds, it is, as a
    number, the sum of the amounts received minus the sum of amount + fee
    sent; for an address that has sent nothing it is the float sum of the
    amounts received, in chain order.  The result depends on the chain
    and the transaction objects only, not on the pending queue or the
    pool; so no call of addTransaction, whatever it returns, changes a
    balance. *)
Theorem C3_balance_replay (h : Heap) address bc :
  Blockchain.get_balance h address bc
  = running_total address 0 (chain_transactions h bc)
  /\ (unrounded address 0 (chain_transactions h bc) ->
      C3_as_stated_exactly h address bc)
  /\ (debits h address bc = [] ->
      Blockchain.get_balance h address bc = fsum (receipts h address bc))
  /\ (forall pending pool,
        Blockchain.get_balance h address
          (Blockchain.mk (Blockchain.chain bc) (Blockchain.difficulty bc) pending
                         (Blockchain.mining_reward bc) pool)
        = Blockchain.get_balance h address bc)
  /\ (forall transaction r bc',
        Blockchain.add_transaction h transaction bc = (r, bc') ->
        Blockchain.get_balance h address bc' = Blockchain.get_balance h address bc).
Proof.
  assert (Hrun : Blockchain.get_balance h address bc
                 = running_total address 0 (chain_transactions h bc)).
  { rewrite get_balance_replay. apply replay_running_total. }
  split; [exact Hrun|]. split; [|split; [|split; [reflexivity|]]].
  3:{ intros transaction r bc' Hadd.
      pose proof (add_transaction_cases h transaction bc) as Hc. cbv zeta in Hc.
      rewrite Hc in Hadd.
      repeat match type of Hadd with
             | context [if ?c then _ else _] => destruct c
             end; injection Hadd as <- <-; reflexivity. }
  - intros Hu. unfold C3_as_stated_exactly, receipts. rewrite Hrun.
    rewrite (unrounded_exact _ _ _ Hu).
    change (exact 0) with 0%Q. ring.
  - clear Hrun. rewrite get_balance_replay. unfold debits, receipts, fsum.
    generalize 0%float. induction (chain_transactions h bc) as [|tx txs IH];
      intros a Hd; simpl in *; [reflexivity|].
    unfold Blockchain.credit_debit at 2.
    destruct (String.eqb (Transaction.sender_address tx) address); [discriminate|].
    destruct (String.eqb (Transaction.recipient_address tx) address); simpl;
      apply IH, Hd.
Qed.

(** ** Confirmation after mining *)


Lemma confirm_all_in_sync (ls : list loc) : forall (h : Heap) confirmed,
  Blockchain.confirm_all ls (h, TransactionPool.mk ls confirmed)
  = (confirm_in_heap h ls, TransactionPool.mk [] (confirmed ++ ls)).
Proof.
  unfold Blockchain.confirm_all, confirm_in_heap.
  induction ls as [|l ls IH]; intros h confirmed; simpl.
  - rewrite app_nil_r. reflexivity.
  - unfold TransactionPool.same_id.
    rewrite (proj2 (opt_eqb_eq _ _) eq_refl). simpl.
    rewrite IH, <- app_assoc. reflexivity.
Qed.

Lemma confirm_in_heap_length (ls : list loc) : forall h : Heap,
  length (confirm_in_heap h ls) = length h.
Proof.
  unfold confirm_in_heap. induction ls as [|l ls IH]; intros h; simpl; [reflexivity|].
  rewrite IH. apply length_insert.
Qed.

Lemma set_status_twice v (tx : Transaction.t) :
  Transaction.set_status v (Transaction.set_status v tx) = Transaction.set_status v tx.
Proof. reflexivity. Qed.

Lemma confirm_in_heap_lookup (ls : list loc) : forall (h : Heap) l,
  Forall (fun l => (l < length h)%nat) ls ->
  confirm_in_heap h ls !!! l
  = if decide (l ∈ ls) then Transaction.set_status "confirmed" (h !!! l) else h !!! l.
Proof.
  unfold confirm_in_heap. induction ls as [|a ls IH]; intros h l Hlt; simpl.
  - reflexivity.
  - inversion Hlt as [|? ? Ha Hls]; subst.
    rewrite IH by (rewrite length_insert; exact Hls).
    destruct (decide (l = a)) as [->|Hne].
    + rewrite list_lookup_total_insert_eq by exact Ha.
      rewrite set_status_twice.
      destruct (decide (a ∈ a :: ls)) as [_|Hn]; [|exfalso; apply Hn; left].
      destruct (decide (a ∈ ls)); reflexivity.
    + rewrite list_lookup_total_insert_ne by congruence.
      destruct (decide (l ∈ ls)) as [Hin|Hnin], (decide (l ∈ a :: ls)) as [Hin'|Hnin'];
        try reflexivity.
      * exfalso. apply Hnin'. right. exact Hin.
      * exfalso. apply elem_of_cons in Hin' as [?|?]; contradiction.
Qed.

(** ** The invariant of reachable states *)

Lemma in_sync_grow h bc tx : in_sync h bc -> in_sync (h ++ [tx]) bc.
Proof.
  intros (Hs & Hf & Hc & Hr). repeat split; auto.
  eapply Forall_impl; [exact Hf|].
  intros x Hx. simpl in *. rewrite length_app. simpl. lia.
Qed.

Lemma reachable_in_sync h bc : reachable h bc -> in_sync h bc.
Proof.
  induction 1 as [h d now | h bc tx _ IH | h bc l r bc' _ IH Hl Hadd
                 | h bc fuel now address r h' bc' _ IH Hmine].
  - repeat split; simpl; auto; discriminate.
  - apply in_sync_grow, IH.
  - pose proof IH as (Hs & Hf & Hc & Hr).
    pose proof (add_transaction_cases h l bc) as Hcases. cbv zeta in Hcases.
    rewrite Hcases in Hadd.
    repeat match type of Hadd with
           | context [if ?c then _ else _] => destruct c
           end; injection Hadd as <- <-; try exact IH.
    repeat split; simpl; auto.
    + rewrite Hs. reflexivity.
    + apply Forall_app. split; [exact Hf|]. constructor; [exact Hl | constructor].
  - pose proof IH as (Hs & Hf & Hc & Hr).
    unfold Blockchain.mine_pending_transactions in Hmine.
    destruct (Blockchain.pending_transactions bc) as [|p ps].
    { injection Hmine as <- <- <-. exact IH. }
    destruct (PyFloat.to_int (Blockchain.at_reward_id now)) as [seconds|].
    2:{ injection Hmine as <- <- <-. apply in_sync_grow, IH. }
    destruct (Blockchain.get_latest_block bc) as [latest|].
    2:{ injection Hmine as <- <- <-. apply in_sync_grow, IH. }
    destruct (Block.mine_block _ _ _ _) as [block|]; [|discriminate].
    destruct (Blockchain.transaction_pool bc) as [pt pc]. simpl in Hs. subst pt.
    rewrite confirm_all_in_sync in Hmine.
    injection Hmine as <- <- <-. repeat split; simpl; auto.
    intros Hnil. apply app_eq_nil in Hnil as [_ Hnil]. discriminate Hnil.
Qed.

(** ** Mining *)

(** A block of the reachable chain after the first mining call: its hash
    was computed before its transaction was confirmed.  It is on target
    already, so the loop returns it as it is, with a stored hash that is
    not the hash of its fields. *)
Lemma C7_counterexample :
  Blockchain.chain Scenario.bc2 !! 1%nat = Some Scenario.block1
  /\ ~ C7_as_stated Scenario.h2 2 0 Scenario.block1.
Proof.
  split; [reflexivity|]. intros H.
  destruct (H Scenario.block1 ltac:(vm_compute; reflexivity)) as [_ Hh].
  revert Hh. vm_compute. discriminate.
Qed.

(** C7 (amended): when [mine_block] returns, on any block and for any
    difficulty, the stored hash starts with [difficulty] zeros (in
    Python's slicing and repetition) and the loop has changed nothing but
    the nonce and the hash.  The stored hash is the hash of the block's
    fields provided it was so when the call began, as for every block
    fresh from the constructor, or the loop body ran at least once; a
    block whose stored hash is stale and on target already is returned as
    it is.  Hence the block that a successful mining call appends meets
    the target and carries the hash of its fields, as the transaction
    objects are at that moment (the reward last in the heap, nothing
    confirmed yet).  The loop does return whenever some nonce within the
    iterations allowed gives a hash on target. *)
Theorem C7_proof_of_work :
  (forall (h : Heap) difficulty fuel b block,
      Block.mine_block fuel h difficulty b = Some block ->
      PyStr.slice_to (Block.hash block) difficulty = PyStr.zeros difficulty
      /\ same_contents b block
      /\ (Block.hash b = Block.calculate_hash h b \/ block <> b ->
          Block.hash block = Block.calculate_hash h block)
      /\ (block = b \/ Block.hash block = Block.calculate_hash h block))
  /\ (forall (h : Heap) index transactions previous_hash timestamp now difficulty fuel block,
      Block.mine_block fuel h difficulty
        (Block.new h index transactions previous_hash timestamp now) = Some block ->
      PyStr.slice_to (Block.hash block) difficulty = PyStr.zeros difficulty
      /\ Block.hash block = Block.calculate_hash h block
      /\ same_contents (Block.new h index transactions previous_hash timestamp now) block)
  /\ (forall fuel now address (h : Heap) bc h' bc',
        Blockchain.mine_pending_transactions fuel now address h bc
        = Some (Returned true, h', bc') ->
        exists block seconds,
          Blockchain.chain bc' = Blockchain.chain bc ++ [block]
          /\ PyStr.slice_to (Block.hash block) (Blockchain.difficulty bc)
             = PyStr.zeros (Blockchain.difficulty bc)
          /\ Block.hash block
             = Block.calculate_hash
                 (h ++ [Blockchain.reward_transaction bc address
                          (Blockchain.at_reward now) seconds]) block)
  /\ (forall (h : Heap) difficulty fuel (b : Block.t) n,
        Block.meets_target difficulty
          (Block.hash (Nat.iter n (Block.next_nonce h) b)) = true ->
        (n <= fuel)%nat ->
        exists block, Block.mine_block fuel h difficulty b = Some block).
Proof.
  split.
  { intros h difficulty fuel b block Hm.
    destruct (mine_block_post h difficulty fuel _ _ Hm) as (Ht & Hh & Hc).
    destruct (mine_block_first _ _ _ _ _ Hm) as (n & _ & Hn & _).
    assert (Hcases : block = b
                     \/ Block.hash block = Block.calculate_hash h block).
    { destruct n as [|n]; [left; exact Hn|]. right. rewrite Hn.
      apply iter_next_nonce_current. discriminate. }
    split; [apply meets_target_spec, Ht|]. split; [exact Hc|]. split; [|exact Hcases].
    intros [Hcur | Hne]; [apply Hh, Hcur|].
    destruct Hcases as [Heq | Hok]; [contradiction | exact Hok]. }
  split; [|split].
  3:{ intros h difficulty fuel b n Hn Hle.
      destruct (mine_block_finds h difficulty n fuel b Hn Hle) as (m & _ & Hm).
      eexists. exact Hm. }
  - intros h index transactions previous_hash timestamp now difficulty fuel block Hm.
    destruct (mine_block_post h difficulty fuel _ _ Hm) as (Ht & Hh & Hc).
    split; [apply meets_target_spec, Ht|]. split; [|exact Hc].
    apply Hh, new_block_current.
  - intros fuel now address h bc h' bc'. unfold Blockchain.mine_pending_transactions.
    destruct (Blockchain.pending_transactions bc) as [|p ps]; [discriminate|].
    destruct (PyFloat.to_int (Blockchain.at_reward_id now)) as [seconds|];
      [|discriminate].
    destruct (Blockchain.get_latest_block bc) as [latest|]; [|discriminate].
    destruct (Block.mine_block _ _ _ _) as [block|] eqn:Hm; [|discriminate].
    destruct (Blockchain.confirm_all _ _) as [h1 pool].
    intros [= <- <-]. exists block, seconds. simpl.
    destruct (mine_block_post _ _ _ _ _ Hm) as (Ht & Hh & _).
    split; [reflexivity|]. split; [apply meets_target_spec, Ht|].
    apply Hh. reflexivity.
Qed.

Lemma mine_pending_nonempty fuel now address (h : Heap) bc :
  Blockchain.pending_transactions bc <> [] ->
  Blockchain.mine_pending_transactions fuel now address h bc
  = match PyFloat.to_int (Blockchain.at_reward_id now) with
    | None =>
        Some (Raised (Failed_to_mine_block
                        (Library_error "cannot convert float to integer")),
              h ++ [Transaction.new "system" address (Blockchain.mining_reward bc) 0
                                    "Mining reward" (Blockchain.at_reward now)],
              bc)
    | Some seconds =>
        let h1 := h ++ [Blockchain.reward_transaction bc address
                          (Blockchain.at_reward now) seconds] in
        match Blockchain.get_latest_block bc with
        | None =>
            Some (Raised (Failed_to_mine_block
                            (Library_error "list index out of range")), h1, bc)
        | Some latest =>
            match Block.mine_block fuel h1 (Blockchain.difficulty bc)
                    (Blockchain.new_block h1 bc (length h) latest
                                          (Blockchain.at_block now)) with
            | None => None
            | Some new_block =>
                let '(h2, pool) :=
                  Blockchain.confirm_all (Blockchain.pending_transactions bc)
                                         (h1, Blockchain.transaction_pool bc) in
                Some (Returned true, h2,
                      Blockchain.mk (Blockchain.chain bc ++ [new_block])
                                    (Blockchain.difficulty bc) []
                                    (Blockchain.mining_reward bc) pool)
            end
        end
    end.
Proof.
  unfold Blockchain.mine_pending_transactions.
  destruct (Blockchain.pending_transactions bc); [contradiction | reflexivity].
Qed.


(** ** The run, step by step *)

Lemma scenario_reach1 : reachable Scenario.h0 Scenario.bc1.
Proof.
  apply (reach_add Scenario.h0 Scenario.bc0 0%nat (Returned true)).
  - replace Scenario.bc0 with (Blockchain.new 2 1700000000.0)
      by (vm_compute; reflexivity).
    apply reach_new.
  - simpl. lia.
  - vm_compute. reflexivity.
Qed.

Lemma scenario_reach2 : reachable Scenario.h2 Scenario.bc2.
Proof.
  apply (reach_mine Scenario.h0 Scenario.bc1 100 Scenario.clock1 "miner" (Returned true)).
  - exact scenario_reach1.
  - vm_compute. reflexivity.
Qed.

(** C1 (the code departs from it): this state is reached from a new
    chain of the default difficulty by one accepted transaction and one
    mining call, and [is_chain_valid] rejects it, while it accepted the
    chain before the call: the block was hashed while its transaction had
    status "pending", the confirmation that follows rewrites the status
    of that same object, and the recomputed hash no longer matches the
    stored one. *)
Theorem C1_chain_invalid_after_mining :
  reachable Scenario.h2 Scenario.bc2
  /\ Blockchain.is_chain_valid Scenario.h2 Scenario.bc2
     = (false, "Invalid hash at block 1"%string)
  /\ Blockchain.is_chain_valid Scenario.h0 Scenario.bc1
     = (true, "Blockchain is valid"%string)
  /\ Block.hash Scenario.block1 = Block.calculate_hash Scenario.h1 Scenario.block1
  /\ Block.hash Scenario.block1 <> Block.calculate_hash Scenario.h2 Scenario.block1.
Proof.
  split; [exact scenario_reach2|].
  repeat split; try (vm_compute; reflexivity).
  vm_compute. discriminate.
Qed.

(** ** The statements at concrete inputs *)


(** Carol receives 5.0 and sends 4.0 with a fee of 2.0, all in one
    block: nothing rounds, and her balance is 5 - 6. *)
Lemma C3_witness :
  unrounded "carol" 0
    (chain_transactions Scenario.h5
       (Blockchain.mk [Scenario.genesis; Block.mk 1 0 [0%nat; 1%nat] "0" 0 "00"]
                      2 [] 10 TransactionPool.new))
  /\ C3_as_stated_exactly Scenario.h5 "carol"
       (Blockchain.mk [Scenario.genesis; Block.mk 1 0 [0%nat; 1%nat] "0" 0 "00"]
                      2 [] 10 TransactionPool.new)
  /\ Blockchain.get_balance Scenario.h5 "carol"
       (Blockchain.mk [Scenario.genesis; Block.mk 1 0 [0%nat; 1%nat] "0" 0 "00"]
                      2 [] 10 TransactionPool.new)
     = (-1)%float.
Proof.
  assert (Hu : unrounded "carol" 0
                 (chain_transactions Scenario.h5
                    (Blockchain.mk
                       [Scenario.genesis; Block.mk 1 0 [0%nat; 1%nat] "0" 0 "00"]
                       2 [] 10 TransactionPool.new))).
  { vm_compute. repeat split; intros; reflexivity || discriminate. }
  split; [exact Hu|]. split; [|vm_compute; reflexivity].
  exact (proj1 (proj2 (C3_balance_replay _ _ _)) Hu).
Defined.

Lemma C4_witness :
  (Transaction.is_valid (Scenario.h5 !!! 1%nat)).1 = true
  /\ Blockchain.get_balance Scenario.h5 "carol" Scenario.bc5 = 5.0%float
  /\ (Blockchain.add_transaction Scenario.h5 1%nat Scenario.bc5).1
     = Raised (Failed_to_add_transaction (Insufficient_balance 5.0 6.0)).
Proof.
  assert (Hv : (Transaction.is_valid (Scenario.h5 !!! 1%nat)).1 = true)
    by (vm_compute; reflexivity).
  split; [exact Hv|]. split; [vm_compute; reflexivity|].
  apply (C4_insufficient_balance Scenario.h5 1%nat Scenario.bc5 Hv);
    vm_compute; reflexivity.
Defined.

Lemma C5_witness :
  Blockchain.add_transaction Scenario.h0 0%nat Scenario.bc0
  = (Returned true, Scenario.bc1)
  /\ Blockchain.add_transaction Scenario.h0 0%nat Scenario.bc1
     = (Raised (Failed_to_add_transaction
                  (Failed_to_add_to_pool Transaction_already_exists)), Scenario.bc1)
  /\ TransactionPool.add_transaction Scenario.h0 0%nat
       (Blockchain.transaction_pool Scenario.bc1)
     = (Raised (Failed_to_add_to_pool Transaction_already_exists),
        Blockchain.transaction_pool Scenario.bc1).
Proof.
  assert (H1 : Blockchain.add_transaction Scenario.h0 0%nat Scenario.bc0
               = (Returned true, Scenario.bc1)) by (vm_compute; reflexivity).
  split; [exact H1|]. split.
  - exact (proj1 (proj2 C5_duplicate_rejection)
             Scenario.h0 0%nat Scenario.bc0 Scenario.bc1 H1).
  - apply (proj1 C5_duplicate_rejection Scenario.h0 0%nat
             (Blockchain.transaction_pool Scenario.bc1)).
    + vm_compute. reflexivity.
    + exists 0%nat. split; [left | reflexivity].
Defined.

Lemma C6_witness :
  Blockchain.add_transaction
    [Transaction.new "alice" "bob" 1.0 0.001 EmptyString 1700000010.5] 0%nat Scenario.bc0
  = (Raised (Failed_to_add_transaction (Invalid_transaction "Transaction not signed")),
     Scenario.bc0).
Proof.
  assert (H : exists bc',
             Blockchain.add_transaction
               [Transaction.new "alice" "bob" 1.0 0.001 EmptyString 1700000010.5] 0%nat Scenario.bc0
             = (Raised (Failed_to_add_transaction
                          (Invalid_transaction "Transaction not signed")), bc')).
  { eexists. reflexivity. }
  destruct H as [bc' H]. rewrite H. f_equal.
  exact (proj1 (C6_add_transaction_atomic _ _ _ _ _ H)).
Defined.

Lemma C7_witness :
  Block.mine_block 100 Scenario.h1 2
    (Block.new Scenario.h1 1 [0%nat; 1%nat] (Block.hash Scenario.genesis) None
               1700000026.125)
  = Some Scenario.block1
  /\ PyStr.slice_to (Block.hash Scenario.block1) 2 = "00"%string
  /\ Block.hash Scenario.block1 = Block.calculate_hash Scenario.h1 Scenario.block1
  /\ Block.nonce Scenario.block1 = 2.
Proof.
  assert (Hm : Block.mine_block 100 Scenario.h1 2
                 (Block.new Scenario.h1 1 [0%nat; 1%nat] (Block.hash Scenario.genesis)
                            None 1700000026.125)
               = Some Scenario.block1) by (vm_compute; reflexivity).
  split; [exact Hm|].
  destruct (proj1 (proj2 C7_proof_of_work) _ _ _ _ _ _ _ _ _ Hm) as (Hz & Hh & _).
  split; [exact Hz|]. split; [exact Hh | reflexivity].
Defined.

Lemma C8_witness :
  let tx := Transaction.new "alice" "bob" 1.0 0.001 EmptyString 1700000010.5 in
  let first := Transaction.sign_transaction 7 3 tx in
  let second := Transaction.sign_transaction 7 5 first.2 in
  first.1 = Returned true
  /\ Transaction.transaction_id second.2 = Transaction.transaction_id first.2
  /\ Transaction.transaction_id first.2 = Some (Transaction.calculate_hash tx).
Proof.
  intros tx first second.
  assert (H1 : first.1 = Returned true) by (vm_compute; reflexivity).
  split; [exact H1|].
  destruct (C8_signing_twice 7 3 5 tx H1) as (Hid & Hh & _).
  split; [exact Hid | exact Hh].
Defined.

Lemma C9_witness :
  Transaction.is_valid Scenario.tx2 = (true, "Transaction is valid"%string)
  /\ (forall public_key,
        Transaction.verify_signature public_key (Scenario.h3_forged !!! 2%nat) = false)
  /\ Blockchain.add_transaction Scenario.h3_forged 2%nat Scenario.bc2
     = Blockchain.add_transaction Scenario.h3 2%nat Scenario.bc2
  /\ Blockchain.add_transaction Scenario.h3 2%nat Scenario.bc2
     = (Returned true, Scenario.bc3).
Proof.
  split; [|split; [|split]].
  - apply (proj1 C9_signature_never_checked Scenario.tx2);
      try (vm_compute; reflexivity).
    vm_compute. discriminate.
  - intros public_key. vm_compute. reflexivity.
  - apply (proj2 C9_signature_never_checked Scenario.h3 2%nat "00"%string 2%nat
             Scenario.bc2); vm_compute; reflexivity.
  - vm_compute. reflexivity.
Defined.

Lemma C10_witness :
  Blockchain.get_balance Scenario.h3' "miner" Scenario.bc2 = 10%float
  /\ (10 <? (6 + 0.001) + (6 + 0.001))%float = true
  /\ all_accepted Scenario.h3' [2%nat; 3%nat] Scenario.bc2.
Proof.
  split; [vm_compute; reflexivity|]. split; [vm_compute; reflexivity|].
  apply (C10_pending_debits_ignored Scenario.h3' "miner" [2%nat; 3%nat] Scenario.bc2).
  - repeat constructor; vm_compute; reflexivity.
  - vm_compute. repeat constructor; intros H; inversion H; subst;
      try discriminate;
      repeat match goal with
             | H : _ ∈ _ |- _ => inversion H; clear H; subst; try discriminate
             end.
  - repeat constructor; intros (l & Hl & _); vm_compute in Hl; inversion Hl.
Defined.

(** The same payment submitted twice: each time amount + fee is within
    the miner's confirmed balance, the second call fails. *)
Lemma C10_counterexample :
  ~ C10_as_stated Scenario.h3' "miner" [2%nat; 2%nat] Scenario.bc2.
Proof.
  intros H. destruct H as [Hr _].
  - repeat constructor; vm_compute; reflexivity.
  - revert Hr. vm_compute. discriminate.
Qed.

(** * Further properties of the code *)

(** ** The shape of digests *)

Lemma of_Z_length n x : String.length (Hex.of_Z n x) = n.
Proof. induction n as [|n IH]; simpl; [reflexivity | rewrite IH; reflexivity]. Qed.

Lemma append_length (s1 s2 : string) :
  String.length (s1 +:+ s2) = (String.length s1 + String.length s2)%nat.
Proof. induction s1 as [|c s1 IH]; simpl; [reflexivity | rewrite IH; reflexivity]. Qed.

Lemma concat_words_length n ws :
  String.length (Hex.concat_words n ws) = (n * length ws)%nat.
Proof.
  unfold Hex.concat_words. induction ws as [|w ws IH]; simpl; [lia|].
  rewrite append_length, of_Z_length, IH. lia.
Qed.

Lemma sha256_round_length st kw :
  length st = 8%nat -> length (SHA256.round st kw) = 8%nat.
Proof.
  do 9 (destruct st as [|? st]; try discriminate). reflexivity.
Qed.

Lemma sha256_rounds_length kws : forall st,
  length st = 8%nat -> length (fold_left SHA256.round kws st) = 8%nat.
Proof.
  induction kws as [|kw kws IH]; intros st Hst; simpl; [exact Hst|].
  apply IH, sha256_round_length, Hst.
Qed.

Lemma sha256_compress_length st block :
  length st = 8%nat -> length (SHA256.compress st block) = 8%nat.
Proof.
  intros Hst. unfold SHA256.compress.
  rewrite length_zip_with, sha256_rounds_length by exact Hst. lia.
Qed.

Lemma sha256_hexdigest_length msg : String.length (SHA256.hexdigest msg) = 64%nat.
Proof.
  unfold SHA256.hexdigest, SHA256.digest.
  rewrite concat_words_length, length_map.
  assert (H : forall bs st, length st = 8%nat ->
                            length (fold_left SHA256.compress bs st) = 8%nat).
  { induction bs as [|b bs IH]; intros st Hst; simpl; [exact Hst|].
    apply IH, sha256_compress_length, Hst. }
  rewrite H; reflexivity.
Qed.

(** ** Targets that cannot be met, and targets that always are *)

Lemma substring_length n : forall s,
  String.length (substring 0 n s) = Nat.min n (String.length s).
Proof.
  induction n as [|n IH]; intros [|c s]; simpl; try reflexivity.
  rewrite IH. reflexivity.
Qed.

Lemma zeros_length d : String.length (PyStr.zeros d) = Z.to_nat d.
Proof.
  unfold PyStr.zeros, PyFloat.zeros.
  induction (Z.to_nat d) as [|n IH]; simpl; [reflexivity | rewrite IH; reflexivity].
Qed.

Lemma meets_target_64 difficulty hash :
  String.length hash = 64%nat ->
  Block.meets_target difficulty hash
  = (difficulty =? 0) || (difficulty <=? -64)
    || ((0 <? difficulty) && (difficulty <=? 64)
        && String.eqb (substring 0 (Z.to_nat difficulty) hash) (PyStr.zeros difficulty)).
Proof.
  intros Hlen. unfold Block.meets_target, PyStr.slice_to. rewrite Hlen.
  destruct (Z.eqb_spec difficulty 0) as [->|Hz]; [destruct hash; reflexivity|].
  destruct (Z.leb_spec difficulty (-64)) as [Hle|Hgt]; simpl.
  - destruct (Z.ltb_spec difficulty 0); [|lia].
    replace (Z.to_nat (Z.of_nat 64 + difficulty)) with 0%nat by lia.
    unfold PyStr.zeros, PyFloat.zeros.
    replace (Z.to_nat difficulty) with 0%nat by lia.
    destruct hash; reflexivity.
  - destruct (Z.ltb_spec 0 difficulty) as [Hpos|Hneg]; simpl.
    + destruct (Z.ltb_spec difficulty 0); [lia|].
      destruct (Z.leb_spec difficulty 64) as [H64|H64]; simpl; [reflexivity|].
      apply String.eqb_neq. intros Heq. apply (f_equal String.length) in Heq.
      rewrite substring_length, zeros_length, Hlen in Heq. lia.
    + destruct (Z.ltb_spec difficulty 0); [|lia].
      apply String.eqb_neq. intros Heq. apply (f_equal String.length) in Heq.
      rewrite substring_length, zeros_length, Hlen in Heq. lia.
Qed.

Lemma calculate_hash_length (h : Heap) b :
  String.length (Block.calculate_hash h b) = 64%nat.
Proof. apply sha256_hexdigest_length. Qed.

Lemma mine_block_never (h : Heap) difficulty fuel : forall b,
  String.length (Block.hash b) = 64%nat ->
  64 < difficulty \/ -64 < difficulty < 0 ->
  Block.mine_block fuel h difficulty b = None.
Proof.
  induction fuel as [|fuel IH]; intros b Hlen Hd; rewrite mine_block_unfold;
    rewrite (meets_target_64 _ _ Hlen);
    (destruct (Z.eqb_spec difficulty 0); [lia|]);
    (destruct (Z.leb_spec difficulty (-64)); [lia|]);
    (replace ((0 <? difficulty) && (difficulty <=? 64)) with false
      by (symmetry; apply andb_false_iff; destruct Hd;
          [right; apply Z.leb_gt; lia | left; apply Z.ltb_ge; lia]));
    simpl; [reflexivity|].
  apply IH; [|exact Hd]. rewrite next_nonce_current. apply calculate_hash_length.
Qed.

(** X1: a call of [mine_block] on a block as the constructor leaves it,
    by difficulty.  The call raises before the loop when the target
    cannot be built: an OverflowError for a difficulty of 2^63 or more or
    below -2^63, a MemoryError for a positive difficulty above what the
    allocator grants.  Otherwise it never returns when the difficulty is
    above 64 (the hash has 64 characters) or between -63 and -1 (the
    slice is then a non-empty prefix compared with the empty string),
    however many iterations it is given; and with difficulty 0, or from
    -2^63 to -64, it returns at once and leaves the block as it is. *)
Theorem mine_block_difficulty_bounds (h : Heap) index transactions previous_hash
    timestamp now limit difficulty fuel :
  let b := Block.new h index transactions previous_hash timestamp now in
  let call := Block.mine_block_call limit fuel h difficulty b in
  (difficulty < - 2 ^ 63 \/ 2 ^ 63 <= difficulty ->
   call = Some (Raised (Library_error "cannot fit 'int' into an index-sized integer")))
  /\ (0 < difficulty /\ limit < difficulty < 2 ^ 63 ->
      call = Some (Raised (Library_error EmptyString)))
  /\ (64 < difficulty <= limit /\ difficulty < 2 ^ 63 \/ -64 < difficulty < 0 ->
      call = None)
  /\ (difficulty = 0 \/ - 2 ^ 63 <= difficulty <= -64 ->
      call = Some (Returned b)).
Proof.
  intros b call. unfold call, Block.mine_block_call, Block.target.
  assert (Hlen : String.length (Block.hash b) = 64%nat)
    by apply calculate_hash_length.
  change (2 ^ 63) with 9223372036854775808.
  split; [|split; [|split]].
  - intros Hd.
    destruct (Z.ltb_spec difficulty (Z.opp 9223372036854775808)); [reflexivity|].
    destruct (Z.leb_spec 9223372036854775808 difficulty); [reflexivity | lia].
  - intros [Hpos Hd].
    destruct (Z.ltb_spec difficulty (Z.opp 9223372036854775808)); [lia|].
    destruct (Z.leb_spec 9223372036854775808 difficulty); [lia|].
    destruct (Z.ltb_spec 0 difficulty); [|lia].
    destruct (Z.ltb_spec limit difficulty); [reflexivity | lia].
  - intros Hd.
    destruct (Z.ltb_spec difficulty (Z.opp 9223372036854775808)); [lia|].
    destruct (Z.leb_spec 9223372036854775808 difficulty); [lia|].
    destruct (Z.ltb_spec 0 difficulty), (Z.ltb_spec limit difficulty);
      cbn [orb andb]; try lia;
      rewrite mine_block_never by (exact Hlen || lia); reflexivity.
  - intros Hd.
    destruct (Z.ltb_spec difficulty (Z.opp 9223372036854775808)); [lia|].
    destruct (Z.leb_spec 9223372036854775808 difficulty); [lia|].
    destruct (Z.ltb_spec 0 difficulty); [lia|]. cbn [orb andb].
    rewrite mine_block_unfold, (meets_target_64 _ _ Hlen).
    destruct (Z.eqb_spec difficulty 0); [reflexivity|].
    destruct (Z.leb_spec difficulty (-64)); [reflexivity | lia].
Qed.

(** ** What a mining call can do *)

Lemma mine_pending_cases fuel now address (h : Heap) bc r h' bc' :
  Blockchain.mine_pending_transactions fuel now address h bc = Some (r, h', bc') ->
  (r = Returned false /\ h' = h /\ bc' = bc /\ Blockchain.pending_transactions bc = [])
  \/ (exists e tx, r = Raised e /\ h' = h ++ [tx] /\ bc' = bc
                   /\ Blockchain.pending_transactions bc <> [])
  \/ (r = Returned true
      /\ Blockchain.pending_transactions bc <> []
      /\ exists seconds latest block,
          PyFloat.to_int (Blockchain.at_reward_id now) = Some seconds
          /\ Blockchain.get_latest_block bc = Some latest
          /\ let h1 := h ++ [Blockchain.reward_transaction bc address
                               (Blockchain.at_reward now) seconds] in
             Block.mine_block fuel h1 (Blockchain.difficulty bc)
               (Blockchain.new_block h1 bc (length h) latest (Blockchain.at_block now))
             = Some block
             /\ h' = (Blockchain.confirm_all (Blockchain.pending_transactions bc)
                        (h1, Blockchain.transaction_pool bc)).1
             /\ bc' = Blockchain.mk (Blockchain.chain bc ++ [block])
                        (Blockchain.difficulty bc) [] (Blockchain.mining_reward bc)
                        (Blockchain.confirm_all (Blockchain.pending_transactions bc)
                           (h1, Blockchain.transaction_pool bc)).2).
Proof.
  destruct (Blockchain.pending_transactions bc) as [|p ps] eqn:Hp.
  { unfold Blockchain.mine_pending_transactions. rewrite Hp.
    intros [= <- <- <-]. left. auto. }
  assert (Hne : Blockchain.pending_transactions bc <> []) by (rewrite Hp; discriminate).
  rewrite <- Hp. rewrite (mine_pending_nonempty _ _ _ _ _ Hne).
  destruct (PyFloat.to_int (Blockchain.at_reward_id now)) as [seconds|].
  2:{ intros [= <- <- <-]. right. left. do 2 eexists.
      repeat split; try reflexivity; exact Hne. }
  cbv zeta.
  destruct (Blockchain.get_latest_block bc) as [latest|].
  2:{ intros [= <- <- <-]. right. left. do 2 eexists.
      repeat split; try reflexivity; exact Hne. }
  destruct (Block.mine_block _ _ _ _) as [block|] eqn:Hm; [|discriminate].
  destruct (Blockchain.confirm_all _ _) as [h2 pool] eqn:Hc.
  intros [= <- <- <-]. right. right. split; [reflexivity|]. split; [exact Hne|].
  exists seconds, latest, block. cbv zeta. rewrite Hc. repeat split; auto.
Qed.

(** ** The blocks of a reachable chain *)

Lemma block_ok_grow (h h' : Heap) bc bc' i b :
  (length h <= length h')%nat ->
  Blockchain.difficulty bc' = Blockchain.difficulty bc ->
  (forall j, (j < i)%nat -> Blockchain.chain bc' !! j = Blockchain.chain bc !! j) ->
  block_ok h bc i b -> block_ok h' bc' i b.
Proof.
  intros Hlen Hd Hc (Hi & Hf & Hh & Hl). repeat split; auto.
  - eapply Forall_impl; [exact Hf|]. intros x Hx. simpl in *. lia.
  - intros Hne. destruct (Hl Hne) as (p & Hp & Hprev & Ht).
    exists p. rewrite Hc by lia. rewrite Hd. auto.
Qed.

Lemma mined_hash_length (h : Heap) difficulty fuel b b' :
  Block.mine_block fuel h difficulty b = Some b' ->
  Block.hash b = Block.calculate_hash h b ->
  String.length (Block.hash b') = 64%nat.
Proof.
  intros Hm Hb. destruct (mine_block_post _ _ _ _ _ Hm) as (_ & Hh & _).
  rewrite (Hh Hb). apply calculate_hash_length.
Qed.

Lemma reachable_chain_ok (h : Heap) bc : reachable h bc -> chain_ok h bc.
Proof.
  intros Hreach. induction Hreach
    as [h d now | h bc tx Hr IH | h bc l r bc' Hr IH Hl Hadd
       | h bc fuel now address r h' bc' Hr IH Hmine].
  - intros [|i] b Hb; simpl in Hb; [|destruct i; discriminate].
    injection Hb as <-. repeat split; simpl; auto.
    + apply calculate_hash_length.
    + contradiction.
  - intros i b Hb. apply (block_ok_grow h _ bc bc i b); auto.
    rewrite length_app. lia.
  - assert (Hc : Blockchain.chain bc' = Blockchain.chain bc
                 /\ Blockchain.difficulty bc' = Blockchain.difficulty bc).
    { pose proof (add_transaction_cases h l bc) as Hcases. cbv zeta in Hcases.
      rewrite Hcases in Hadd.
      repeat match type of Hadd with
             | context [if ?c then _ else _] => destruct c
             end; injection Hadd as <- <-; auto. }
    destruct Hc as [Hc Hd]. intros i b Hb. rewrite Hc in Hb.
    apply (block_ok_grow h h bc bc' i b); auto. intros j _. rewrite Hc. reflexivity.
  - pose proof (reachable_in_sync _ _ Hr) as (Hs & Hf & Hne & _).
    destruct (mine_pending_cases _ _ _ _ _ _ _ _ Hmine)
      as [(_ & -> & -> & _) | [(e & tx & _ & -> & -> & Hp) | (_ & Hp & seconds & latest & block
                                                    & Hint & Hlatest & Hm & -> & ->)]].
    + exact IH.
    + intros i b Hb. apply (block_ok_grow h _ bc bc i b); auto.
      rewrite length_app. lia.
    + cbv zeta in Hm.
      destruct (Blockchain.transaction_pool bc) as [pt pc] eqn:Hpool.
      simpl in Hs. subst pt. rewrite confirm_all_in_sync. simpl.
      set (h1 := h ++ [Blockchain.reward_transaction bc address
                         (Blockchain.at_reward now) seconds]) in *.
      assert (Hlen : length (confirm_in_heap h1 (Blockchain.pending_transactions bc))
                     = S (length h)).
      { rewrite confirm_in_heap_length. unfold h1. rewrite length_app. simpl. lia. }
      intros i b Hb. simpl in Hb.
      destruct (decide (i < length (Blockchain.chain bc))%nat) as [Hlt|Hge].
      * rewrite lookup_app_l in Hb by exact Hlt.
        apply (block_ok_grow h _ bc _ i b); auto; [lia|].
        intros j Hj. simpl. apply lookup_app_l. lia.
      * assert (Hi : i = length (Blockchain.chain bc)).
        { apply lookup_lt_Some in Hb. rewrite length_app in Hb. simpl in Hb. lia. }
        subst i. rewrite list_lookup_middle in Hb by reflexivity. injection Hb as <-.
        destruct (mine_block_post _ _ _ _ _ Hm) as (Ht & _ & Hidx & _ & Htx & Hprev).
        repeat split.
        -- rewrite Hidx. reflexivity.
        -- rewrite Htx, Hlen. simpl. apply Forall_app. split.
           ++ eapply Forall_impl; [exact Hf|]. intros x Hx. simpl in *. lia.
           ++ constructor; [lia | constructor].
        -- eapply mined_hash_length; [exact Hm | reflexivity].
        -- intros _. exists latest. simpl. split; [|split].
           ++ unfold Blockchain.get_latest_block in Hlatest.
              rewrite last_lookup in Hlatest.
              rewrite lookup_app_l.
              ** replace (length (Blockchain.chain bc) - 1)%nat
                   with (Nat.pred (length (Blockchain.chain bc))) by lia.
                 exact Hlatest.
              ** destruct (Blockchain.chain bc); [contradiction | simpl; lia].
           ++ rewrite Hprev. reflexivity.
           ++ exact Ht.
Qed.

Lemma reachable_genesis (h : Heap) bc :
  reachable h bc ->
  exists now rest, Blockchain.chain bc = Blockchain.create_genesis_block now :: rest.
Proof.
  intros Hreach. induction Hreach
    as [h d now | h bc tx Hr IH | h bc l r bc' Hr IH Hl Hadd
       | h bc fuel now address r h' bc' Hr IH Hmine].
  - exists now, []. reflexivity.
  - exact IH.
  - pose proof (add_transaction_cases h l bc) as Hcases. cbv zeta in Hcases.
    rewrite Hcases in Hadd.
    repeat match type of Hadd with
           | context [if ?c then _ else _] => destruct c
           end; injection Hadd as <- <-; exact IH.
  - destruct IH as (t & rest & Hc).
    destruct (mine_pending_cases _ _ _ _ _ _ _ _ Hmine)
      as [(_ & _ & -> & _) | [(e & tx & _ & _ & -> & _) | (_ & _ & seconds & latest & block
                                                    & _ & _ & _ & _ & ->)]];
      eauto.
    exists t, (rest ++ [block]). simpl. rewrite Hc. reflexivity.
Qed.

(** X2: in every reachable state the chain starts with the genesis block
    (index 0, previous hash "0", no transactions); the block at position
    i carries index i, refers to live transaction objects only and has a
    64-character hash; and every block after the first stores the hash of
    the block before it as previous_hash and a hash that starts with
    [difficulty] zeros. *)
Theorem reachable_chain_structure (h : Heap) bc :
  reachable h bc ->
  (exists genesis rest,
      Blockchain.chain bc = genesis :: rest
      /\ Block.index genesis = 0 /\ Block.previous_hash genesis = "0"%string
      /\ Block.transactions genesis = [] /\ Block.nonce genesis = 0)
  /\ (forall i b,
        Blockchain.chain bc !! i = Some b ->
        Block.index b = Z.of_nat i
        /\ Forall (fun l => (l < length h)%nat) (Block.transactions b)
        /\ String.length (Block.hash b) = 64%nat
        /\ (i <> 0%nat ->
            exists p, Blockchain.chain bc !! (i - 1)%nat = Some p
                      /\ Block.previous_hash b = Block.hash p
                      /\ PyStr.slice_to (Block.hash b) (Blockchain.difficulty bc)
                         = PyStr.zeros (Blockchain.difficulty bc))).
Proof.
  intros Hreach. split.
  - destruct (reachable_genesis _ _ Hreach) as (now & rest & Hc).
    exists (Blockchain.create_genesis_block now), rest. rewrite Hc. auto.
  - intros i b Hb.
    destruct (reachable_chain_ok _ _ Hreach i b Hb) as (Hi & Hf & Hh & Hl).
    repeat split; auto. intros Hne. destruct (Hl Hne) as (p & Hp & Hprev & Ht).
    exists p. repeat split; auto. apply meets_target_spec, Ht.
Qed.

Lemma check_blocks_reachable (h : Heap) bc :
  chain_ok h bc ->
  forall indices,
    Forall (fun i => (1 <= i < length (Blockchain.chain bc))%nat) indices ->
    Blockchain.check_blocks h bc indices = (true, "Blockchain is valid"%string)
    \/ exists i b, i ∈ indices
         /\ Blockchain.chain bc !! i = Some b
         /\ Block.hash b <> Block.calculate_hash h b
         /\ Blockchain.check_blocks h bc indices
            = (false, "Invalid hash at block " +:+ pretty i).
Proof.
  intros Hok. induction indices as [|i indices IH]; intros Hall; simpl.
  - left. reflexivity.
  - inversion Hall as [|? ? Hi Hrest]; subst.
    destruct (lookup_lt_is_Some_2 (Blockchain.chain bc) i ltac:(lia)) as [b Hb].
    destruct (Hok i b Hb) as (_ & _ & _ & Hl).
    destruct (Hl ltac:(lia)) as (p & Hp & Hprev & Ht).
    rewrite Hb, Hp.
    destruct (String.eqb_spec (Block.hash b) (Block.calculate_hash h b)) as [He|Hne];
      simpl.
    + rewrite Hprev, String.eqb_refl, Ht. simpl.
      destruct (IH Hrest) as [Hv | (j & bj & Hj & Hbj & Hne & Hr)]; [left; exact Hv|].
      right. exists j, bj. repeat split; auto. right. exact Hj.
    + right. exists i, b. repeat split; auto. left.
Qed.

(** X3: in a reachable state [is_chain_valid] either accepts the chain or
    reports "Invalid hash at block i" for a block i >= 1 whose stored hash
    differs from the recomputed one; it never reports a broken link, an
    unmet target or a validation error: links and targets are kept by
    construction. *)
Theorem is_chain_valid_failure_mode (h : Heap) bc :
  reachable h bc ->
  Blockchain.is_chain_valid h bc = (true, "Blockchain is valid"%string)
  \/ exists i b, (1 <= i < length (Blockchain.chain bc))%nat
       /\ Blockchain.chain bc !! i = Some b
       /\ Block.hash b <> Block.calculate_hash h b
       /\ Blockchain.is_chain_valid h bc
          = (false, "Invalid hash at block " +:+ pretty i).
Proof.
  intros Hreach. unfold Blockchain.is_chain_valid.
  assert (Hall : Forall (fun i => (1 <= i < length (Blockchain.chain bc))%nat)
                        (seq 1 (length (Blockchain.chain bc) - 1))).
  { apply Forall_forall. intros i Hi. apply list_elem_of_In, in_seq in Hi. lia. }
  destruct (check_blocks_reachable h bc (reachable_chain_ok _ _ Hreach) _ Hall)
    as [Hv | (i & b & Hi & Hb & Hne & Hr)]; [left; exact Hv|].
  right. exists i, b. repeat split; auto;
    rewrite Forall_forall in Hall; apply (Hall i Hi).
Qed.

(** X4: in a reachable state [get_block_by_index] returns, for every
    index from 0 to len(chain) - 1, the block that carries that index, and
    None for any other integer, negative ones included. *)
Theorem get_block_by_index_reachable (h : Heap) bc index :
  reachable h bc ->
  (0 <= index < Z.of_nat (length (Blockchain.chain bc)) ->
   exists b, Blockchain.get_block_by_index index bc = Some b
             /\ Block.index b = index
             /\ Blockchain.chain bc !! Z.to_nat index = Some b)
  /\ (index < 0 \/ Z.of_nat (length (Blockchain.chain bc)) <= index ->
      Blockchain.get_block_by_index index bc = None).
Proof.
  intros Hreach. unfold Blockchain.get_block_by_index. split.
  - intros Hi.
    destruct (Z.leb_spec 0 index); [|lia].
    destruct (Z.ltb_spec index (Z.of_nat (length (Blockchain.chain bc)))); [|lia].
    simpl.
    destruct (lookup_lt_is_Some_2 (Blockchain.chain bc) (Z.to_nat index) ltac:(lia))
      as [b Hb].
    exists b. rewrite Hb. repeat split; auto.
    destruct (reachable_chain_ok _ _ Hreach _ _ Hb) as (-> & _). lia.
  - intros [Hn | Hn].
    + destruct (Z.leb_spec 0 index); [lia | reflexivity].
    + destruct (Z.ltb_spec index (Z.of_nat (length (Blockchain.chain bc)))); [lia|].
      rewrite andb_false_r. reflexivity.
Qed.


(** ** The pending queue of a reachable state *)

Lemma reachable_pending_ok (h : Heap) bc :
  reachable h bc ->
  Forall (fun l => (Transaction.is_valid (h !!! l)).1 = true)
         (Blockchain.pending_transactions bc)
  /\ NoDup (map (fun l => Transaction.transaction_id (h !!! l))
                (Blockchain.pending_transactions bc)).
Proof.
  intros Hreach. induction Hreach
    as [h d now | h bc tx Hr IH | h bc l r bc' Hr IH Hl Hadd
       | h bc fuel now address r h' bc' Hr IH Hmine].
  - split; constructor.
  - destruct IH as [Hv Hd]. pose proof (reachable_in_sync _ _ Hr) as (_ & Hf & _).
    assert (Heq : forall l, l ∈ Blockchain.pending_transactions bc ->
                            (h ++ [tx]) !!! l = h !!! l).
    { intros l Hl. apply lookup_total_app_l.
      rewrite Forall_forall in Hf. apply Hf, Hl. }
    split.
    + apply Forall_forall. intros l Hl. rewrite (Heq l Hl).
      rewrite Forall_forall in Hv. apply Hv, Hl.
    + erewrite map_ext_in; [exact Hd|]. intros l Hl. simpl.
      rewrite Heq; [reflexivity | apply list_elem_of_In, Hl].
  - destruct IH as [Hv Hd]. pose proof (reachable_in_sync _ _ Hr) as (Hs & _).
    pose proof (add_transaction_cases h l bc) as Hcases. cbv zeta in Hcases.
    rewrite Hcases in Hadd.
    destruct (negb (Transaction.is_valid (h !!! l)).1) eqn:Hval;
      [injection Hadd as <- <-; auto|].
    destruct (_ <? _)%float; [injection Hadd as <- <-; auto|].
    destruct (existsb _ _) eqn:He; injection Hadd as <- <-; [auto|]. simpl. split.
    + apply Forall_app. split; [exact Hv|]. constructor; [|constructor].
      apply negb_false_iff, Hval.
    + rewrite map_app. simpl. apply NoDup_app. split; [exact Hd|]. split.
      * intros x Hx Hx'. apply list_elem_of_singleton in Hx'. subst x.
        apply list_elem_of_In, in_map_iff in Hx as (l' & Hid & Hl').
        rewrite Hs in He.
        assert (Ht : existsb (TransactionPool.same_id h
                                (Transaction.transaction_id (h !!! l)))
                             (Blockchain.pending_transactions bc) = true).
        { apply existsb_exists. exists l'. split; [exact Hl'|].
          apply opt_eqb_eq, Hid. }
        rewrite Ht in He. discriminate.
      * apply NoDup_singleton.
  - destruct (mine_pending_cases _ _ _ _ _ _ _ _ Hmine)
      as [(_ & -> & -> & _) | [(e & tx & _ & -> & -> & Hp) | (_ & _ & seconds & latest & block
                                                    & _ & _ & _ & _ & ->)]].
    + exact IH.
    + destruct IH as [Hv Hd]. pose proof (reachable_in_sync _ _ Hr) as (_ & Hf & _).
      assert (Heq : forall l, l ∈ Blockchain.pending_transactions bc ->
                              (h ++ [tx]) !!! l = h !!! l).
      { intros l Hl. apply lookup_total_app_l.
        rewrite Forall_forall in Hf. apply Hf, Hl. }
      split.
      * apply Forall_forall. intros l Hl. rewrite (Heq l Hl).
        rewrite Forall_forall in Hv. apply Hv, Hl.
      * erewrite map_ext_in; [exact Hd|]. intros l Hl. simpl.
        rewrite Heq; [reflexivity | apply list_elem_of_In, Hl].
    + simpl. split; constructor.
Qed.

(** X6: in every reachable state the pool's pending list is the pending
    queue (same transaction objects, same order), every pending
    transaction is a live object that passes [is_valid], and no two of
    them carry the same transaction_id. *)
Theorem pending_queue_invariant (h : Heap) bc :
  reachable h bc ->
  TransactionPool.transactions (Blockchain.transaction_pool bc)
  = Blockchain.pending_transactions bc
  /\ Forall (fun l => (l < length h)%nat
                      /\ (Transaction.is_valid (h !!! l)).1 = true)
            (Blockchain.pending_transactions bc)
  /\ NoDup (map (fun l => Transaction.transaction_id (h !!! l))
                (Blockchain.pending_transactions bc)).
Proof.
  intros Hreach.
  destruct (reachable_in_sync _ _ Hreach) as (Hs & Hf & _).
  destruct (reachable_pending_ok _ _ Hreach) as (Hv & Hd).
  split; [exact Hs|]. split; [|exact Hd].
  apply Forall_forall. intros l Hl. rewrite Forall_forall in Hf, Hv. auto.
Qed.

(** ** Looking a transaction up *)

Lemma find_app_none {A} (f : A -> bool) (l1 l2 : list A) :
  List.find f l1 = None -> List.find f (l1 ++ l2) = List.find f l2.
Proof.
  induction l1 as [|a l1 IH]; simpl; [reflexivity|].
  destruct (f a); [discriminate | exact IH].
Qed.

Lemma find_app_some {A} (f : A -> bool) (l1 l2 : list A) x :
  List.find f l1 = Some x -> List.find f (l1 ++ l2) = Some x.
Proof.
  induction l1 as [|a l1 IH]; simpl; [discriminate|].
  destruct (f a); [auto | exact IH].
Qed.

Lemma find_existsb {A} (f : A -> bool) (l : list A) :
  List.find f l = None <-> existsb f l = false.
Proof.
  induction l as [|a l IH]; simpl; [tauto|].
  destruct (f a); simpl; [split; discriminate | exact IH].
Qed.

Lemma find_elem {A} (f : A -> bool) (l : list A) x :
  x ∈ l -> f x = true -> exists y, List.find f l = Some y /\ f y = true.
Proof.
  intros Hx Hf. destruct (List.find f l) as [y|] eqn:Hy.
  - exists y. split; [reflexivity|]. apply (find_some _ _ Hy).
  - exfalso. apply list_elem_of_In in Hx.
    pose proof (find_none _ _ Hy x Hx) as Hn. congruence.
Qed.

Lemma add_transaction_returned (h : Heap) transaction bc r bc' :
  Blockchain.add_transaction h transaction bc = (Returned r, bc') ->
  r = true
  /\ (Transaction.is_valid (h !!! transaction)).1 = true
  /\ existsb (TransactionPool.same_id h (Transaction.transaction_id (h !!! transaction)))
             (TransactionPool.transactions (Blockchain.transaction_pool bc)) = false
  /\ bc' = Blockchain.mk (Blockchain.chain bc) (Blockchain.difficulty bc)
             (Blockchain.pending_transactions bc ++ [transaction])
             (Blockchain.mining_reward bc)
             (TransactionPool.mk
                (TransactionPool.transactions (Blockchain.transaction_pool bc)
                 ++ [transaction])
                (TransactionPool.confirmed_transactions (Blockchain.transaction_pool bc))).
Proof.
  pose proof (add_transaction_cases h transaction bc) as Hc. cbv zeta in Hc.
  rewrite Hc.
  destruct (negb (Transaction.is_valid (h !!! transaction)).1) eqn:Hv; [discriminate|].
  destruct (_ <? _)%float; [discriminate|].
  destruct (existsb _ _) eqn:He; [discriminate|].
  intros [= <- <-]. repeat split; auto. apply negb_false_iff, Hv.
Qed.

(** X7: after a successful [add_transaction] on a reachable state,
    [search_transaction] with the id of the transaction finds a
    transaction with that id; when no transaction of a block carries the
    id, it returns the submitted object itself with location "pending". *)
Theorem search_after_add (h : Heap) transaction bc bc' :
  reachable h bc ->
  Blockchain.add_transaction h transaction bc = (Returned true, bc') ->
  let id := Transaction.transaction_id (h !!! transaction) in
  (exists found location,
      Blockchain.search_transaction h id bc' = (Some found, location)
      /\ Transaction.transaction_id (h !!! found) = id)
  /\ (TransactionPool.first_with_id h id
        (concat (map Block.transactions (Blockchain.chain bc))) = None ->
      Blockchain.search_transaction h id bc' = (Some transaction, "pending"%string)).
Proof.
  intros Hreach Hadd id.
  destruct (add_transaction_returned _ _ _ _ _ Hadd) as (_ & _ & He & ->).
  destruct (reachable_in_sync _ _ Hreach) as (Hs & _). rewrite Hs in He.
  assert (Hpend : TransactionPool.first_with_id h id
                    (Blockchain.pending_transactions bc ++ [transaction])
                  = Some transaction).
  { unfold TransactionPool.first_with_id.
    rewrite find_app_none by (apply find_existsb, He). simpl.
    unfold TransactionPool.same_id, id.
    rewrite (proj2 (opt_eqb_eq _ _) eq_refl). reflexivity. }
  unfold Blockchain.search_transaction. simpl. rewrite Hpend. split.
  - destruct (TransactionPool.first_with_id h id
                (concat (map Block.transactions (Blockchain.chain bc))))
      as [found|] eqn:Hf.
    + exists found, "confirmed"%string. split; [reflexivity|].
      apply find_some in Hf as [_ Hf]. apply opt_eqb_eq, Hf.
    + exists transaction, "pending"%string. split; reflexivity.
  - intros ->. reflexivity.
Qed.

Lemma confirmed_heap_fields (h : Heap) pending l :
  Forall (fun l => (l < length h)%nat) pending ->
  same_but_status (confirm_in_heap h pending !!! l) (h !!! l).
Proof.
  intros Hf. rewrite (confirm_in_heap_lookup _ _ _ Hf).
  destruct (decide (l ∈ pending)); reflexivity.
Qed.

Lemma same_but_status_fields a b :
  same_but_status a b ->
  Transaction.sender_address a = Transaction.sender_address b
  /\ Transaction.recipient_address a = Transaction.recipient_address b
  /\ Transaction.amount a = Transaction.amount b
  /\ Transaction.fee a = Transaction.fee b
  /\ Transaction.transaction_id a = Transaction.transaction_id b.
Proof.
  unfold same_but_status, Transaction.set_status. destruct a, b. simpl.
  intros [= -> -> -> -> -> -> -> ->]. auto.
Qed.

(** The state after a mining call that returned true on a state in sync. *)
Lemma mine_pending_returned fuel now address (h : Heap) bc h' bc' :
  in_sync h bc ->
  Blockchain.mine_pending_transactions fuel now address h bc
  = Some (Returned true, h', bc') ->
  exists seconds block,
    let reward := Blockchain.reward_transaction bc address
                    (Blockchain.at_reward now) seconds in
    Block.transactions block = Blockchain.pending_transactions bc ++ [length h]
    /\ h' = confirm_in_heap (h ++ [reward]) (Blockchain.pending_transactions bc)
    /\ bc' = Blockchain.mk (Blockchain.chain bc ++ [block]) (Blockchain.difficulty bc)
               [] (Blockchain.mining_reward bc)
               (TransactionPool.mk []
                  (TransactionPool.confirmed_transactions
                     (Blockchain.transaction_pool bc)
                   ++ Blockchain.pending_transactions bc))
    /\ Forall (fun l => (l < length (h ++ [reward]))%nat)
              (Blockchain.pending_transactions bc).
Proof.
  intros (Hs & Hf & _) Hmine.
  destruct (mine_pending_cases _ _ _ _ _ _ _ _ Hmine)
    as [(Hr & _) | [(e & tx & Hr & _) | (_ & _ & seconds & latest & block
                                         & _ & _ & Hm & -> & ->)]];
    try discriminate.
  cbv zeta in Hm. exists seconds, block. cbv zeta.
  destruct (mine_block_post _ _ _ _ _ Hm) as (_ & _ & _ & _ & Htx & _).
  destruct (Blockchain.transaction_pool bc) as [pt pc]. simpl in Hs. subst pt.
  rewrite confirm_all_in_sync. simpl. repeat split; auto.
  eapply Forall_impl; [exact Hf|]. intros x Hx. simpl in *.
  rewrite length_app. simpl. lia.
Qed.

(** X8: after a mining call that returned true on a reachable state,
    [search_transaction] finds a transaction with the id of each
    transaction that was pending, with location "confirmed", and reports
    no id as "pending" any more. *)
Theorem search_after_mining fuel now address (h : Heap) bc h' bc' :
  reachable h bc ->
  Blockchain.mine_pending_transactions fuel now address h bc
  = Some (Returned true, h', bc') ->
  (forall l, l ∈ Blockchain.pending_transactions bc ->
     exists found,
       Blockchain.search_transaction h' (Transaction.transaction_id (h !!! l)) bc'
       = (Some found, "confirmed"%string)
       /\ Transaction.transaction_id (h' !!! found)
          = Transaction.transaction_id (h !!! l))
  /\ (forall id, (Blockchain.search_transaction h' id bc').2 <> "pending"%string).
Proof.
  intros Hreach Hmine.
  pose proof (reachable_in_sync _ _ Hreach) as Hsync.
  destruct (mine_pending_returned _ _ _ _ _ _ _ Hsync Hmine)
    as (seconds & block & Htx & -> & -> & Hf).
  cbv zeta in *. split.
  - intros l Hl.
    set (h1 := h ++ [Blockchain.reward_transaction bc address
                       (Blockchain.at_reward now) seconds]) in *.
    set (h2 := confirm_in_heap h1 (Blockchain.pending_transactions bc)).
    set (id := Transaction.transaction_id (h !!! l)).
    assert (Hid : Transaction.transaction_id (h2 !!! l) = id).
    { destruct (same_but_status_fields _ _ (confirmed_heap_fields h1 _ l Hf))
        as (_ & _ & _ & _ & Hid).
      unfold h2. rewrite Hid.
      unfold h1, id. rewrite lookup_total_app_l; [reflexivity|].
      destruct Hsync as (_ & Hlt & _). rewrite Forall_forall in Hlt. apply Hlt, Hl. }
    destruct (find_elem (TransactionPool.same_id h2 id)
                (concat (map Block.transactions (Blockchain.chain bc ++ [block]))) l)
      as (found & Hfound & Hsame).
    + rewrite map_app, concat_app. simpl. rewrite app_nil_r, Htx.
      apply elem_of_app. right. apply elem_of_app. left. exact Hl.
    + unfold TransactionPool.same_id. apply opt_eqb_eq, Hid.
    + exists found. unfold Blockchain.search_transaction, TransactionPool.first_with_id.
      simpl. rewrite Hfound. split; [reflexivity|]. apply opt_eqb_eq, Hsame.
  - intros id. unfold Blockchain.search_transaction. simpl.
    destruct (TransactionPool.first_with_id _ _ _); simpl; discriminate.
Qed.

(** ** Balances across a mining call *)

Lemma credit_debit_status address balance a b :
  same_but_status a b ->
  Blockchain.credit_debit address balance a = Blockchain.credit_debit address balance b.
Proof.
  intros H. destruct (same_but_status_fields _ _ H) as (Hs & Hr & Ha & Hf & _).
  unfold Blockchain.credit_debit. rewrite Hs, Hr, Ha, Hf. reflexivity.
Qed.

Lemma replay_pointwise address (f g : loc -> Transaction.t) (ls : list loc) :
  (forall l, l ∈ ls -> same_but_status (f l) (g l)) ->
  forall balance,
    fold_left (Blockchain.credit_debit address) (map f ls) balance
    = fold_left (Blockchain.credit_debit address) (map g ls) balance.
Proof.
  induction ls as [|l ls IH]; intros Hfg balance; simpl; [reflexivity|].
  rewrite (credit_debit_status _ _ _ _ (Hfg l ltac:(left))).
  apply IH. intros x Hx. apply Hfg. right. exact Hx.
Qed.

Lemma chain_refs_live (h : Heap) bc :
  chain_ok h bc ->
  Forall (fun l => (l < length h)%nat)
         (concat (map Block.transactions (Blockchain.chain bc))).
Proof.
  intros Hok. apply Forall_concat, Forall_forall. intros ls Hls.
  apply list_elem_of_In, in_map_iff in Hls as (b & <- & Hb).
  apply list_elem_of_In, list_elem_of_lookup in Hb as [i Hi].
  apply (Hok i b Hi).
Qed.

Lemma replay_uninvolved who (txs : list Transaction.t) :
  Forall (fun tx => Transaction.sender_address tx <> who
                    /\ Transaction.recipient_address tx <> who) txs ->
  forall balance, fold_left (Blockchain.credit_debit who) txs balance = balance.
Proof.
  induction 1 as [|tx txs [Hs Hr] _ IH]; intros b; simpl; [reflexivity|].
  unfold Blockchain.credit_debit at 2.
  apply String.eqb_neq in Hs, Hr. rewrite Hs, Hr. apply IH.
Qed.

Lemma credit_debit_reward who balance bc address now seconds :
  Blockchain.credit_debit who balance
    (Blockchain.reward_transaction bc address now seconds)
  = let balance := if String.eqb address who
                   then (balance + Blockchain.mining_reward bc)%float
                   else balance in
    if String.eqb "system" who
    then (balance - (Blockchain.mining_reward bc + 0))%float
    else balance.
Proof. reflexivity. Qed.

(** The balances after a mining call that returned true: the new block
    replayed on top of the old balance. *)
Lemma mining_replay fuel now address (h : Heap) bc h' bc' :
  reachable h bc ->
  Blockchain.mine_pending_transactions fuel now address h bc
  = Some (Returned true, h', bc') ->
  exists seconds,
    forall who,
      Blockchain.get_balance h' who bc'
      = fold_left (Blockchain.credit_debit who)
          (map (fun l => h !!! l) (Blockchain.pending_transactions bc)
           ++ [Blockchain.reward_transaction bc address (Blockchain.at_reward now)
                 seconds])
          (Blockchain.get_balance h who bc).
Proof.
  intros Hreach Hmine.
  pose proof (reachable_in_sync _ _ Hreach) as Hsync.
  pose proof (reachable_chain_ok _ _ Hreach) as Hok.
  destruct (mine_pending_returned _ _ _ _ _ _ _ Hsync Hmine)
    as (seconds & block & Htx & Hh' & Hbc' & Hf).
  cbv zeta in *. exists seconds. intros who.
  set (reward := Blockchain.reward_transaction bc address
                   (Blockchain.at_reward now) seconds) in *.
  assert (Hfields : forall l, same_but_status (h' !!! l) ((h ++ [reward]) !!! l)).
  { intros l. rewrite Hh'. apply confirmed_heap_fields, Hf. }
  rewrite !get_balance_replay. unfold chain_transactions. rewrite Hbc'. simpl.
  rewrite map_app, concat_app. simpl. rewrite app_nil_r, Htx.
  rewrite !map_app, !fold_left_app. simpl.
  destruct Hsync as (_ & Hlive & _).
  rewrite (replay_pointwise who (fun l => h' !!! l) (fun l => h !!! l)
             (concat (map Block.transactions (Blockchain.chain bc)))).
  2:{ intros l Hl. pose proof (chain_refs_live _ _ Hok) as Hc.
      rewrite Forall_forall in Hc. specialize (Hc l Hl).
      specialize (Hfields l). rewrite lookup_total_app_l in Hfields by exact Hc.
      exact Hfields. }
  rewrite (replay_pointwise who (fun l => h' !!! l) (fun l => h !!! l)
             (Blockchain.pending_transactions bc)).
  2:{ intros l Hl. rewrite Forall_forall in Hlive. specialize (Hlive l Hl).
      specialize (Hfields l). rewrite lookup_total_app_l in Hfields by exact Hlive.
      exact Hfields. }
  apply credit_debit_status.
  specialize (Hfields (length h)).
  rewrite list_lookup_total_middle in Hfields by reflexivity. exact Hfields.
Qed.

(** The reward on top of a replay that does not involve [who]. *)
Lemma replay_then_reward who (txs : list Transaction.t) bc address now seconds balance :
  Forall (fun tx => Transaction.sender_address tx <> who
                    /\ Transaction.recipient_address tx <> who) txs ->
  who <> "system"%string ->
  fold_left (Blockchain.credit_debit who)
    (txs ++ [Blockchain.reward_transaction bc address now seconds]) balance
  = if String.eqb address who then (balance + Blockchain.mining_reward bc)%float
    else balance.
Proof.
  intros Hun Hsys. rewrite fold_left_app, (replay_uninvolved _ _ Hun).
  cbn [fold_left]. rewrite credit_debit_reward. cbv zeta.
  apply not_eq_sym, String.eqb_neq in Hsys. rewrite Hsys. reflexivity.
Qed.

(** X9: a mining call that returns true on a reachable state moves every
    balance by replaying the new block on top of the old balance: the
    transactions that were pending, in queue order, then the reward.  So
    the balance of an address that is party to none of them, is not
    "system" and is not the reward address is unchanged, and the balance
    of the reward address, under the same conditions, grows by 10.0. *)
Theorem balance_after_mining fuel now address (h : Heap) bc h' bc' who :
  reachable h bc ->
  Blockchain.mine_pending_transactions fuel now address h bc
  = Some (Returned true, h', bc') ->
  let pending := map (fun l => h !!! l) (Blockchain.pending_transactions bc) in
  let uninvolved :=
    Forall (fun tx => Transaction.sender_address tx <> who
                      /\ Transaction.recipient_address tx <> who) pending
    /\ who <> "system"%string in
  (exists reward,
      Transaction.sender_address reward = "system"%string
      /\ Transaction.recipient_address reward = address
      /\ Transaction.amount reward = 10%float
      /\ Transaction.fee reward = 0%float
      /\ Blockchain.get_balance h' who bc'
         = fold_left (Blockchain.credit_debit who) (pending ++ [reward])
                     (Blockchain.get_balance h who bc))
  /\ (uninvolved -> who <> address ->
      Blockchain.get_balance h' who bc' = Blockchain.get_balance h who bc)
  /\ (uninvolved -> who = address ->
      Blockchain.get_balance h' who bc'
      = (Blockchain.get_balance h who bc + 10)%float).
Proof.
  intros Hreach Hmine pending uninvolved.
  destruct (mining_replay _ _ _ _ _ _ _ Hreach Hmine) as [seconds Hbal].
  assert (Hrew : Blockchain.mining_reward bc = 10%float)
    by apply (reachable_in_sync _ _ Hreach).
  split; [|split].
  - eexists. split; [|split; [|split; [|split; [|apply Hbal]]]];
      [reflexivity | reflexivity | exact Hrew | reflexivity].
  - intros [Hun Hsys] Hne. rewrite Hbal, (replay_then_reward _ _ _ _ _ _ _ Hun Hsys).
    apply not_eq_sym, String.eqb_neq in Hne. rewrite Hne. reflexivity.
  - intros [Hun Hsys] ->. rewrite Hbal, (replay_then_reward _ _ _ _ _ _ _ Hun Hsys).
    rewrite String.eqb_refl, Hrew. reflexivity.
Qed.

(** ** Hexadecimal encodings and their decoding *)

Lemma digit_decodes d :
  0 <= d < 16 ->
  CryptoUtils.hex_value (Hex.digit d) = Some d
  /\ (let n := Z.of_N (N_of_ascii (Hex.digit d)) in
      (n =? 32) || ((9 <=? n) && (n <=? 13))) = false.
Proof.
  intros Hd.
  assert (Hc : d = 0 \/ d = 1 \/ d = 2 \/ d = 3 \/ d = 4 \/ d = 5 \/ d = 6 \/ d = 7
               \/ d = 8 \/ d = 9 \/ d = 10 \/ d = 11 \/ d = 12 \/ d = 13 \/ d = 14
               \/ d = 15) by lia.
  repeat (destruct Hc as [-> | Hc]; [split; reflexivity|]).
  subst d. split; reflexivity.
Qed.

Lemma nibble_range y : 0 <= Z.land y 15 < 16.
Proof. change 15 with (Z.ones 4). rewrite Z.land_ones by lia. apply Z.mod_pos_bound. lia. Qed.

Lemma two_nibbles x k :
  0 <= k ->
  16 * Z.land (Z.shiftr x (4 * (2 * k + 1))) 15 + Z.land (Z.shiftr x (4 * (2 * k))) 15
  = Z.land (Z.shiftr x (8 * k)) 255.
Proof.
  intros Hk.
  replace (4 * (2 * k + 1)) with (8 * k + 4) by lia.
  replace (4 * (2 * k)) with (8 * k) by lia.
  rewrite <- Z.shiftr_shiftr by lia.
  set (y := Z.shiftr x (8 * k)).
  change 15 with (Z.ones 4). change 255 with (Z.ones 8).
  rewrite !Z.land_ones, Z.shiftr_div_pow2 by lia.
  change (2 ^ 4) with 16. change (2 ^ 8) with 256.
  pose proof (Z.div_mod y 16 ltac:(lia)).
  pose proof (Z.div_mod (y / 16) 16 ltac:(lia)).
  pose proof (Z.mod_pos_bound y 16 ltac:(lia)).
  pose proof (Z.mod_pos_bound (y / 16) 16 ltac:(lia)).
  apply Z.mod_unique_pos with (q := y / 16 / 16); lia.
Qed.

Lemma of_Z_two n x :
  Hex.of_Z (S (S n)) x
  = String (Hex.digit (Z.land (Z.shiftr x (4 * Z.of_nat (S n))) 15))
      (String (Hex.digit (Z.land (Z.shiftr x (4 * Z.of_nat n)) 15)) (Hex.of_Z n x)).
Proof. reflexivity. Qed.

Lemma fromhex_two a b s :
  0 <= a < 16 -> 0 <= b < 16 ->
  CryptoUtils.fromhex (String (Hex.digit a) (String (Hex.digit b) s))
  = match CryptoUtils.fromhex s with
    | Some l => Some (16 * a + b :: l)
    | None => None
    end.
Proof.
  intros Ha Hb.
  destruct (digit_decodes a Ha) as [Hva Hwa], (digit_decodes b Hb) as [Hvb _].
  cbv zeta in Hwa.
  change (CryptoUtils.fromhex (String (Hex.digit a) (String (Hex.digit b) s)))
    with (let n := Z.of_N (N_of_ascii (Hex.digit a)) in
          if (n =? 32) || ((9 <=? n) && (n <=? 13))
          then CryptoUtils.fromhex (String (Hex.digit b) s)
          else match CryptoUtils.hex_value (Hex.digit a),
                     CryptoUtils.hex_value (Hex.digit b), CryptoUtils.fromhex s with
               | Some a, Some b, Some l => Some (16 * a + b :: l)
               | _, _, _ => None
               end).
  cbv zeta. rewrite Hwa, Hva, Hvb. reflexivity.
Qed.

Lemma fromhex_of_Z m x : forall rest,
  CryptoUtils.fromhex (Hex.of_Z (2 * m) x +:+ rest)
  = match CryptoUtils.fromhex rest with
    | Some l => Some (Hex.be_bytes m x ++ l)
    | None => None
    end.
Proof.
  induction m as [|m IH]; intros rest.
  - change (Hex.of_Z (2 * 0) x +:+ rest) with rest.
    destruct (CryptoUtils.fromhex rest); reflexivity.
  - replace (2 * S m)%nat with (S (S (2 * m))) by lia.
    rewrite of_Z_two.
    change (String ?a (String ?b ?s) +:+ rest) with (String a (String b (s +:+ rest))).
    rewrite fromhex_two by apply nibble_range.
    rewrite IH. destruct (CryptoUtils.fromhex rest) as [l|]; [|reflexivity].
    replace (Z.of_nat (S (2 * m))) with (2 * Z.of_nat m + 1) by lia.
    replace (Z.of_nat (2 * m)) with (2 * Z.of_nat m) by lia.
    rewrite two_nibbles by lia. reflexivity.
Qed.

Lemma be_bytes_length m x : length (Hex.be_bytes m x) = m.
Proof. induction m; simpl; congruence. Qed.

Lemma lor_byte acc b :
  0 <= b < 256 -> Z.lor (Z.shiftl acc 8) b = acc * 256 + b.
Proof.
  intros Hb. rewrite Z.shiftl_mul_pow2 by lia. change (2 ^ 8) with 256.
  rewrite <- Z.add_nocarry_lor.
  - reflexivity.
  - apply Z.bits_inj'. intros i Hi. rewrite Z.land_spec, Z.bits_0.
    destruct (Z.ltb_spec i 8).
    + replace (acc * 256) with (acc * 2 ^ 8) by reflexivity.
      rewrite Z.mul_pow2_bits_low by lia. reflexivity.
    + rewrite (Z.bits_above_log2 b i); [apply andb_false_r | lia |].
      destruct (Z.eqb_spec b 0) as [->|]; [simpl; lia|].
      apply Z.log2_lt_pow2; [lia|].
      apply Z.lt_le_trans with (2 ^ 8); [simpl; lia|].
      apply Z.pow_le_mono_r; lia.
Qed.

Lemma be_word_bytes m x : forall acc,
  fold_left (fun acc b => Z.lor (Z.shiftl acc 8) b) (Hex.be_bytes m x) acc
  = acc * 2 ^ (8 * Z.of_nat m) + x mod 2 ^ (8 * Z.of_nat m).
Proof.
  induction m as [|m IH]; intros acc.
  - simpl. rewrite Z.mod_1_r. lia.
  - cbn [Hex.be_bytes fold_left].
    change 255 with (Z.ones 8). rewrite Z.land_ones by lia.
    rewrite lor_byte by (apply Z.mod_pos_bound; lia).
    rewrite IH.
    replace (8 * Z.of_nat (S m)) with (8 * Z.of_nat m + 8) by lia.
    rewrite Z.pow_add_r by lia. change (2 ^ 8) with 256.
    set (k := 8 * Z.of_nat m). set (P := 2 ^ k).
    assert (HP : 0 < P) by (apply Z.pow_pos_nonneg; lia).
    rewrite Z.shiftr_div_pow2 by lia. fold P.
    rewrite (Z.rem_mul_r x P 256) by lia.
    change (2 ^ 8) with 256. lia.
Qed.

Lemma be_word_be_bytes m x :
  0 <= x < 2 ^ (8 * Z.of_nat m) -> Hex.be_word (Hex.be_bytes m x) = x.
Proof.
  intros Hx. unfold Hex.be_word. rewrite be_word_bytes.
  rewrite Z.mod_small by exact Hx. lia.
Qed.

Lemma append_nil_r (s : string) : s +:+ EmptyString = s.
Proof.
  induction s as [|c s IH]; [reflexivity|].
  change (String c s +:+ EmptyString) with (String c (s +:+ EmptyString)).
  rewrite IH. reflexivity.
Qed.

Lemma order_below_2_256 : Secp256k1.n < 2 ^ (8 * Z.of_nat 32).
Proof. reflexivity. Qed.

(** X10: a private key written by [private_key_to_hex] is read back by
    [private_key_from_hex] as the same key: the 64 digits decode to 32
    bytes whose big-endian value is the secret number, which lies in the
    range the curve accepts. *)
Theorem private_key_hex_round_trip private_key :
  1 <= private_key < Secp256k1.n ->
  String.length (CryptoUtils.private_key_to_hex private_key) = 64%nat
  /\ CryptoUtils.private_key_from_hex (CryptoUtils.private_key_to_hex private_key)
     = Returned private_key.
Proof.
  intros Hk. split; [apply of_Z_length|].
  unfold CryptoUtils.private_key_from_hex, CryptoUtils.private_key_to_hex.
  pose proof (fromhex_of_Z 32 private_key EmptyString) as H.
  change (2 * 32)%nat with 64%nat in H.
  rewrite append_nil_r in H.
  change (CryptoUtils.fromhex EmptyString) with (Some (@nil Z)) in H.
  cbv beta iota in H. rewrite app_nil_r in H. rewrite H. cbv zeta.
  rewrite be_bytes_length.
  pose proof order_below_2_256.
  rewrite be_word_be_bytes by lia.
  destruct (Z.leb_spec 1 private_key); [|lia].
  destruct (Z.ltb_spec private_key Secp256k1.n); [|lia].
  reflexivity.
Qed.

(** ** Signing, then checking *)

Lemma sign_range secret k message r s :
  Secp256k1.sign secret k message = Some (r, s) ->
  1 <= r < Secp256k1.n /\ 1 <= s < Secp256k1.n.
Proof.
  unfold Secp256k1.sign.
  assert (Hn : 0 < Secp256k1.n) by reflexivity.
  destruct (Secp256k1.mul k (Some Secp256k1.G)) as [[x y]|]; [|discriminate].
  cbv zeta.
  destruct (Z.eqb_spec (x mod Secp256k1.n) 0) as [|Hr]; [discriminate|].
  match goal with |- context [if ?a =? 0 then _ else _] =>
    destruct (Z.eqb_spec a 0) as [|Hs]; [discriminate|];
    pose proof (Z.mod_pos_bound x Secp256k1.n Hn);
    intros [= <- <-]
  end.
  split; [lia|].
  match goal with |- 1 <= ?a mod _ < _ =>
    pose proof (Z.mod_pos_bound a Secp256k1.n Hn) end.
  lia.
Qed.

Lemma signature_decodes r s :
  0 <= r < 2 ^ 256 -> 0 <= s < 2 ^ 256 ->
  exists bs, CryptoUtils.fromhex (Hex.of_Z 64 r +:+ Hex.of_Z 64 s) = Some bs
             /\ length bs = 64%nat
             /\ Hex.be_word (take 32 bs) = r /\ Hex.be_word (drop 32 bs) = s.
Proof.
  intros Hr Hs. exists (Hex.be_bytes 32 r ++ Hex.be_bytes 32 s).
  pose proof (fromhex_of_Z 32 r (Hex.of_Z 64 s)) as H1.
  pose proof (fromhex_of_Z 32 s EmptyString) as H2.
  change (2 * 32)%nat with 64%nat in H1, H2.
  rewrite append_nil_r in H2.
  change (CryptoUtils.fromhex EmptyString) with (Some (@nil Z)) in H2.
  cbv beta iota in H2. rewrite app_nil_r in H2. rewrite H2 in H1.
  split; [exact H1|].
  split; [rewrite length_app, !be_bytes_length; reflexivity|].
  rewrite take_app_length' by (symmetry; apply be_bytes_length).
  rewrite drop_app_length' by (symmetry; apply be_bytes_length).
  split; apply be_word_be_bytes; assumption.
Qed.

Lemma signature_truthy r s : PyStr.truthy (Hex.of_Z 64 r +:+ Hex.of_Z 64 s) = true.
Proof. reflexivity. Qed.

Lemma sign_transaction_returned private_key k (tx tx' : Transaction.t) :
  Transaction.sign_transaction private_key k tx = (Returned true, tx') ->
  exists r s,
    Secp256k1.sign private_key k (Transaction.get_transaction_data tx) = Some (r, s)
    /\ tx' = Transaction.set_transaction_id (Some (Transaction.calculate_hash tx))
               (Transaction.set_signature (Some (Hex.of_Z 64 r +:+ Hex.of_Z 64 s)) tx).
Proof.
  unfold Transaction.sign_transaction, CryptoUtils.sign_message.
  destruct (Secp256k1.sign private_key k (Transaction.get_transaction_data tx))
    as [[r s]|]; [|discriminate].
  cbv zeta. intros [= <-]. exists r, s. split; reflexivity.
Qed.

(** X11: what [sign_transaction] stores, [verify_signature] reads back.
    After a successful signing the signature is the 128 hexadecimal
    digits of the pair (r, s) that the signer produced for the payload,
    and [verify_signature] under any public key is the curve's check of
    that same pair against that same payload: nothing is lost between
    the two encodings, and setting the signature and the id has not
    changed the payload. *)
Theorem sign_then_verify private_key k (tx tx' : Transaction.t) :
  Transaction.sign_transaction private_key k tx = (Returned true, tx') ->
  exists r s,
    Secp256k1.sign private_key k (Transaction.get_transaction_data tx) = Some (r, s)
    /\ Transaction.signature tx' = Some (Hex.of_Z 64 r +:+ Hex.of_Z 64 s)
    /\ Transaction.get_transaction_data tx' = Transaction.get_transaction_data tx
    /\ forall public_key,
         Transaction.verify_signature public_key tx'
         = Secp256k1.verify public_key (Transaction.get_transaction_data tx) r s.
Proof.
  intros Hsign.
  destruct (sign_transaction_returned _ _ _ _ Hsign) as (r & s & Hrs & ->).
  exists r, s. split; [exact Hrs|]. split; [reflexivity|]. split; [reflexivity|].
  intros public_key.
  destruct (sign_range _ _ _ _ _ Hrs) as [Hr Hs].
  assert (Hn : Secp256k1.n < 2 ^ 256) by reflexivity.
  destruct (signature_decodes r s ltac:(lia) ltac:(lia)) as (bs & Hbs & Hlen & Hw1 & Hw2).
  unfold Transaction.verify_signature.
  change (Transaction.signature _) with (Some (Hex.of_Z 64 r +:+ Hex.of_Z 64 s)).
  cbv beta iota. rewrite signature_truthy, transaction_data_signed.
  unfold CryptoUtils.verify_signature. rewrite Hbs, Hlen, Hw1, Hw2. reflexivity.
Qed.

(** X12: a transaction that [sign_transaction] has signed carries a
    128-character signature and a 64-character id, the SHA-256 of its
    payload; so [is_valid] never answers "Transaction not signed" or
    "Invalid transaction ID" for it, and accepts it exactly when both
    addresses are non-empty and differ, the amount is not <= 0 and the
    fee is not < 0. *)
Theorem sign_then_is_valid private_key k (tx tx' : Transaction.t) :
  Transaction.sign_transaction private_key k tx = (Returned true, tx') ->
  (exists sig id,
      Transaction.signature tx' = Some sig /\ String.length sig = 128%nat
      /\ Transaction.transaction_id tx' = Some id /\ String.length id = 64%nat
      /\ id = Transaction.calculate_hash tx')
  /\ (Transaction.is_valid tx').2 <> "Transaction not signed"%string
  /\ (Transaction.is_valid tx').2 <> "Invalid transaction ID"%string
  /\ (Transaction.is_valid tx').1
     = PyStr.truthy (Transaction.sender_address tx)
       && PyStr.truthy (Transaction.recipient_address tx)
       && negb (Transaction.amount tx <=? 0)%float
       && negb (Transaction.fee tx <? 0)%float
       && negb (String.eqb (Transaction.sender_address tx)
                           (Transaction.recipient_address tx)).
Proof.
  intros Hsign.
  destruct (sign_transaction_returned _ _ _ _ Hsign) as (r & s & Hrs & ->).
  assert (Hid : PyStr.truthy (Transaction.calculate_hash tx) = true).
  { pose proof (sha256_hexdigest_length (Transaction.get_transaction_data tx)) as H.
    unfold Transaction.calculate_hash, CryptoUtils.hash_transaction.
    destruct (SHA256.hexdigest _); [discriminate H | reflexivity]. }
  split.
  - exists (Hex.of_Z 64 r +:+ Hex.of_Z 64 s), (Transaction.calculate_hash tx).
    split; [reflexivity|]. split.
    { rewrite append_length, !of_Z_length. reflexivity. }
    split; [reflexivity|]. split; [apply sha256_hexdigest_length | reflexivity].
  - unfold Transaction.is_valid.
    change (Transaction.signature _) with (Some (Hex.of_Z 64 r +:+ Hex.of_Z 64 s)).
    change (Transaction.transaction_id _) with (Some (Transaction.calculate_hash tx)).
    cbn [Transaction.sender_address Transaction.recipient_address Transaction.amount
         Transaction.fee Transaction.set_transaction_id Transaction.set_signature].
    unfold PyStr.opt_truthy. cbv beta iota. rewrite signature_truthy, Hid.
    destruct (PyStr.truthy (Transaction.sender_address tx)),
             (PyStr.truthy (Transaction.recipient_address tx)),
             (Transaction.amount tx <=? 0)%float,
             (Transaction.fee tx <? 0)%float,
             (String.eqb (Transaction.sender_address tx)
                         (Transaction.recipient_address tx));
      simpl; repeat split; discriminate || reflexivity.
Qed.

(** ** What [is_chain_valid] does not look at *)

Lemma check_blocks_genesis (h : Heap) bc genesis first rest :
  Blockchain.chain bc = first :: rest ->
  Block.hash genesis = Block.hash first ->
  forall indices,
    Forall (fun i => (1 <= i)%nat) indices ->
    Blockchain.check_blocks h (with_genesis genesis bc) indices
    = Blockchain.check_blocks h bc indices.
Proof.
  intros Hc Hh. induction 1 as [|i indices Hi _ IH]; [reflexivity|].
  cbn [Blockchain.check_blocks]. rewrite IH.
  unfold with_genesis. cbn [Blockchain.chain Blockchain.difficulty]. rewrite Hc.
  destruct i as [|i]; [lia|]. cbn [tail].
  change ((genesis :: rest) !! S i) with (rest !! i).
  change ((first :: rest) !! S i) with (rest !! i).
  replace (S i - 1)%nat with i by lia.
  destruct (rest !! i) as [current_block|]; [|reflexivity].
  destruct i as [|i].
  - change ((genesis :: rest) !! 0%nat) with (Some genesis).
    change ((first :: rest) !! 0%nat) with (Some first).
    cbv beta iota. rewrite Hh. reflexivity.
  - reflexivity.
Qed.

(** X13: [is_chain_valid] never looks at the genesis block beyond its
    stored hash: with any block whatsoever in its place that stores the
    same hash (other index, timestamp, transactions, previous hash or
    nonce, whether or not the hash is the hash of those fields) the
    verdict and the message are the same. *)
Theorem genesis_never_checked (h : Heap) bc genesis first rest :
  Blockchain.chain bc = first :: rest ->
  Block.hash genesis = Block.hash first ->
  Blockchain.is_chain_valid h (with_genesis genesis bc)
  = Blockchain.is_chain_valid h bc.
Proof.
  intros Hc Hh. unfold Blockchain.is_chain_valid.
  replace (length (Blockchain.chain (with_genesis genesis bc)))
    with (length (Blockchain.chain bc))
    by (unfold with_genesis; simpl; rewrite Hc; reflexivity).
  apply (check_blocks_genesis h bc genesis first rest Hc Hh).
  apply Forall_forall. intros i Hi. apply list_elem_of_In, in_seq in Hi. lia.
Qed.

(** ** Searching by id *)

Lemma find_first {A} (f : A -> bool) (l : list A) x :
  List.find f l = Some x ->
  exists l1 l2, l = l1 ++ x :: l2 /\ f x = true /\ Forall (fun y => f y = false) l1.
Proof.
  induction l as [|a l IH]; simpl; [discriminate|].
  destruct (f a) eqn:Ha.
  - intros [= ->]. exists [], l. auto.
  - intros Hx. destruct (IH Hx) as (l1 & l2 & -> & Hf & Hall).
    exists (a :: l1), l2. auto.
Qed.

Lemma find_none_all {A} (f : A -> bool) (l : list A) :
  List.find f l = None -> Forall (fun y => f y = false) l.
Proof.
  intros H. apply Forall_forall. intros y Hy.
  apply (find_none _ _ H), list_elem_of_In, Hy.
Qed.

(** X14: [search_transaction] is sound and complete, and the blocks come
    first.  A result with location "confirmed" is the first transaction
    with the id in chain order; one with "pending" is the first in the
    queue and then no transaction of any block has the id; "not_found"
    comes with None and then neither a block nor the queue holds the
    id.  No other location is ever returned. *)
Theorem search_transaction_spec (h : Heap) transaction_id bc :
  let has_id l := Transaction.transaction_id (h !!! l) = transaction_id in
  let r := Blockchain.search_transaction h transaction_id bc in
  (exists l before after,
      r = (Some l, "confirmed"%string) /\ has_id l
      /\ chain_refs bc = before ++ l :: after
      /\ Forall (fun x => ~ has_id x) before)
  \/ (exists l before after,
      r = (Some l, "pending"%string) /\ has_id l
      /\ Blockchain.pending_transactions bc = before ++ l :: after
      /\ Forall (fun x => ~ has_id x) before
      /\ Forall (fun x => ~ has_id x) (chain_refs bc))
  \/ (r = (None, "not_found"%string)
      /\ Forall (fun x => ~ has_id x)
                (chain_refs bc ++ Blockchain.pending_transactions bc)).
Proof.
  intros has_id r. unfold r, Blockchain.search_transaction, TransactionPool.first_with_id.
  fold (chain_refs bc).
  assert (Hno : forall ls,
             Forall (fun y => TransactionPool.same_id h transaction_id y = false) ls ->
             Forall (fun x => ~ has_id x) ls).
  { intros ls Hls. eapply Forall_impl; [exact Hls|]. intros x Hx Hid.
    apply opt_eqb_eq in Hid. unfold TransactionPool.same_id in Hx. congruence. }
  destruct (List.find _ (chain_refs bc)) as [l|] eqn:Hc.
  - left. destruct (find_first _ _ _ Hc) as (l1 & l2 & Heq & Hl & Hb).
    exists l, l1, l2. repeat split; auto. apply opt_eqb_eq, Hl.
  - right. apply find_none_all, Hno in Hc.
    destruct (List.find _ (Blockchain.pending_transactions bc)) as [l|] eqn:Hp.
    + left. destruct (find_first _ _ _ Hp) as (l1 & l2 & Heq & Hl & Hb).
      exists l, l1, l2. repeat split; auto. apply opt_eqb_eq, Hl.
    + right. split; [reflexivity|]. apply Forall_app. split; [exact Hc|].
      apply Hno, find_none_all, Hp.
Qed.

(** ** The pool's own lookups *)

(** X15: after a successful [add_transaction] the pool's
    [get_transaction_by_id] with the id of the transaction returns the
    submitted object itself (no other pending entry has that id, and the
    pending entries are searched before the confirmed ones), and
    [get_transactions_for_address] lists it for its sender and for its
    recipient. *)
Theorem pool_lookup_after_add (h : Heap) transaction bc bc' :
  Blockchain.add_transaction h transaction bc = (Returned true, bc') ->
  let tx := h !!! transaction in
  let pool := Blockchain.transaction_pool bc' in
  TransactionPool.get_transaction_by_id h (Transaction.transaction_id tx) pool
  = Some transaction
  /\ transaction ∈ TransactionPool.get_transactions_for_address h
                     (Transaction.sender_address tx) pool
  /\ transaction ∈ TransactionPool.get_transactions_for_address h
                     (Transaction.recipient_address tx) pool.
Proof.
  intros Hadd tx pool.
  destruct (add_transaction_returned _ _ _ _ _ Hadd) as (_ & _ & He & ->).
  unfold pool. cbn [Blockchain.transaction_pool].
  unfold TransactionPool.get_transaction_by_id, TransactionPool.first_with_id,
    TransactionPool.get_transactions_for_address.
  cbn [TransactionPool.transactions TransactionPool.confirmed_transactions].
  rewrite find_app_none by (apply find_existsb, He).
  assert (Hin : forall address,
             TransactionPool.involves h address transaction = true ->
             transaction ∈ List.filter (TransactionPool.involves h address)
                             (TransactionPool.transactions (Blockchain.transaction_pool bc)
                              ++ [transaction])
                           ++ List.filter (TransactionPool.involves h address)
                                (TransactionPool.confirmed_transactions
                                   (Blockchain.transaction_pool bc))).
  { intros address Ha. apply elem_of_app. left.
    apply list_elem_of_In, filter_In. split; [|exact Ha].
    apply in_or_app. right. left. reflexivity. }
  split; [|split].
  - cbn [List.find]. unfold TransactionPool.same_id.
    rewrite (proj2 (opt_eqb_eq _ _) eq_refl). reflexivity.
  - apply Hin. unfold TransactionPool.involves. fold tx.
    rewrite String.eqb_refl. reflexivity.
  - apply Hin. unfold TransactionPool.involves. fold tx.
    rewrite String.eqb_refl. apply orb_true_r.
Qed.

(** ** Confirming one transaction *)

Lemma find_id_spec (h : Heap) transaction_id (l : list loc) : forall i,
  match TransactionPool.find_id h transaction_id i l with
  | Some (j, tx) =>
      (i <= j)%nat /\ l !! (j - i)%nat = Some tx
      /\ Transaction.transaction_id (h !!! tx) = transaction_id
      /\ Forall (fun x => Transaction.transaction_id (h !!! x) <> transaction_id)
                (take (j - i) l)
  | None => Forall (fun x => Transaction.transaction_id (h !!! x) <> transaction_id) l
  end.
Proof.
  induction l as [|a l IH]; intros i; cbn [TransactionPool.find_id]; [constructor|].
  unfold TransactionPool.same_id at 1.
  destruct (PyStr.opt_eqb _ _) eqn:Ha.
  - replace (i - i)%nat with 0%nat by lia. apply opt_eqb_eq in Ha. simpl. auto.
  - assert (Hne : Transaction.transaction_id (h !!! a) <> transaction_id).
    { intros Heq. apply opt_eqb_eq in Heq. congruence. }
    specialize (IH (S i)).
    destruct (TransactionPool.find_id h transaction_id (S i) l) as [[j tx]|].
    + destruct IH as (Hle & Hl & Hid & Hall).
      replace (j - i)%nat with (S (j - S i)) by lia.
      repeat split; auto; [lia|]. simpl. constructor; assumption.
    + constructor; assumption.
Qed.

(** X16: [confirm_transaction] moves one transaction or none.  When no
    pending entry of the pool has the id it returns False and neither the
    pool nor any transaction object changes.  Otherwise it returns True,
    the first pending entry with the id leaves the pending list and is
    appended to the confirmed list, the other entries keep their order,
    and the only object written to is that transaction, whose status
    becomes "confirmed". *)
Theorem confirm_transaction_moves_one (h : Heap) transaction_id pool :
  Forall (fun l => (l < length h)%nat) (TransactionPool.transactions pool) ->
  let has_id l := Transaction.transaction_id (h !!! l) = transaction_id in
  let r := TransactionPool.confirm_transaction transaction_id (h, pool) in
  (r = (false, (h, pool))
   /\ Forall (fun x => ~ has_id x) (TransactionPool.transactions pool))
  \/ (exists before tx after,
        TransactionPool.transactions pool = before ++ tx :: after
        /\ has_id tx /\ Forall (fun x => ~ has_id x) before
        /\ r = (true,
                (<[tx := Transaction.set_status "confirmed" (h !!! tx)]> h,
                 TransactionPool.mk (before ++ after)
                   (TransactionPool.confirmed_transactions pool ++ [tx])))
        /\ Transaction.status (r.2.1 !!! tx) = "confirmed"%string
        /\ forall l, l <> tx -> r.2.1 !!! l = h !!! l).
Proof.
  intros Hlive has_id r. unfold r, TransactionPool.confirm_transaction.
  pose proof (find_id_spec h transaction_id (TransactionPool.transactions pool) 0)
    as Hspec.
  destruct (TransactionPool.find_id h transaction_id 0
              (TransactionPool.transactions pool)) as [[j tx]|].
  - right. destruct Hspec as (_ & Hj & Hid & Hall).
    replace (j - 0)%nat with j in * by lia.
    exists (take j (TransactionPool.transactions pool)), tx,
           (drop (S j) (TransactionPool.transactions pool)).
    assert (Hsplit : TransactionPool.transactions pool
                     = take j (TransactionPool.transactions pool)
                       ++ tx :: drop (S j) (TransactionPool.transactions pool)).
    { symmetry. apply take_drop_middle, Hj. }
    assert (Hlt : (tx < length h)%nat).
    { rewrite Forall_forall in Hlive. apply Hlive.
      apply list_elem_of_lookup. exists j. exact Hj. }
    split; [exact Hsplit|]. split; [exact Hid|]. split; [exact Hall|].
    split; [|split].
    + rewrite delete_take_drop. reflexivity.
    + cbn [fst snd]. rewrite list_lookup_total_insert_eq by exact Hlt. reflexivity.
    + intros l Hl. cbn [fst snd]. apply list_lookup_total_insert_ne. congruence.
  - left. split; [reflexivity | exact Hspec].
Qed.

(** ** The pool's balance and the chain's *)

Lemma is_valid_status a b :
  same_but_status a b -> Transaction.is_valid a = Transaction.is_valid b.
Proof.
  unfold same_but_status, Transaction.set_status. destruct a, b. simpl.
  intros [= -> -> -> -> -> -> -> ->]. reflexivity.
Qed.

Lemma is_valid_distinct (tx : Transaction.t) :
  (Transaction.is_valid tx).1 = true ->
  String.eqb (Transaction.sender_address tx) (Transaction.recipient_address tx) = false.
Proof.
  unfold Transaction.is_valid.
  repeat match goal with
         | |- context [if ?c then _ else _] => destruct c eqn:?
         end; simpl; congruence.
Qed.

Lemma credit_or_debit_valid address balance (tx : Transaction.t) :
  (Transaction.is_valid tx).1 = true ->
  TransactionPool.credit_or_debit address balance tx
  = Blockchain.credit_debit address balance tx.
Proof.
  intros Hv. apply is_valid_distinct in Hv.
  unfold TransactionPool.credit_or_debit, Blockchain.credit_debit.
  destruct (String.eqb_spec (Transaction.recipient_address tx) address) as [Hr|Hr];
    [|reflexivity].
  destruct (String.eqb_spec (Transaction.sender_address tx) address) as [Hs|Hs];
    [|reflexivity].
  rewrite Hs, Hr, String.eqb_refl in Hv. discriminate.
Qed.

Lemma removelast_elem {A} (l : list A) x : x ∈ removelast l -> x ∈ l.
Proof.
  induction l as [|a l IH]; simpl; [auto|].
  destruct l as [|b l]; [intros H; inversion H|].
  intros H. apply elem_of_cons in H as [->|H]; [left | right; apply IH, H].
Qed.

Lemma transfers_live (h : Heap) bc :
  chain_ok h bc -> Forall (fun l => (l < length h)%nat) (transfers bc).
Proof.
  intros Hok. apply Forall_concat, Forall_forall. intros ls Hls.
  apply list_elem_of_In, in_map_iff in Hls as (b & <- & Hb).
  apply list_elem_of_In, list_elem_of_lookup in Hb as [i Hi].
  destruct (Hok i b Hi) as (_ & Hf & _).
  apply Forall_forall. intros l Hl. rewrite Forall_forall in Hf.
  apply Hf, removelast_elem, Hl.
Qed.

Lemma transfers_snoc bc block pending reward d p r pool :
  Block.transactions block = pending ++ [reward] ->
  transfers (Blockchain.mk (Blockchain.chain bc ++ [block]) d p r pool)
  = transfers bc ++ pending.
Proof.
  intros Htx. unfold transfers. cbn [Blockchain.chain].
  rewrite map_app, concat_app. cbn [map concat].
  rewrite Htx, removelast_last, app_nil_r. reflexivity.
Qed.

(** In a reachable state the pool's confirmed list is the chain without
    the rewards, and all of it passed [is_valid]. *)
Lemma reachable_confirmed (h : Heap) bc :
  reachable h bc ->
  TransactionPool.confirmed_transactions (Blockchain.transaction_pool bc)
  = transfers bc
  /\ Forall (fun l => (Transaction.is_valid (h !!! l)).1 = true) (transfers bc).
Proof.
  intros Hreach. induction Hreach
    as [h d now | h bc tx Hr IH | h bc l r bc' Hr IH Hl Hadd
       | h bc fuel now address r h' bc' Hr IH Hmine].
  - split; [reflexivity | constructor].
  - destruct IH as [Hc Hv]. split; [exact Hc|].
    pose proof (transfers_live _ _ (reachable_chain_ok _ _ Hr)) as Hlive.
    apply Forall_forall. intros l Hl. rewrite Forall_forall in Hv, Hlive.
    rewrite lookup_total_app_l by (apply Hlive, Hl). apply Hv, Hl.
  - pose proof (add_transaction_cases h l bc) as Hcases. cbv zeta in Hcases.
    rewrite Hcases in Hadd.
    repeat match type of Hadd with
           | context [if ?c then _ else _] => destruct c
           end; injection Hadd as <- <-; exact IH.
  - pose proof (reachable_in_sync _ _ Hr) as Hsync.
    pose proof (transfers_live _ _ (reachable_chain_ok _ _ Hr)) as Hlive.
    destruct IH as [Hc Hv].
    destruct r as [[|]|e].
    + destruct (mine_pending_returned _ _ _ _ _ _ _ Hsync Hmine)
        as (seconds & block & Htx & -> & -> & Hf).
      cbv zeta in *. rewrite (transfers_snoc _ _ _ _ _ _ _ _ Htx).
      cbn [Blockchain.transaction_pool TransactionPool.confirmed_transactions].
      split; [rewrite Hc; reflexivity|].
      destruct (reachable_pending_ok _ _ Hr) as [Hpv _].
      destruct Hsync as (_ & Hplive & _).
      apply Forall_forall. intros l Hl.
      rewrite (is_valid_status _ _ (confirmed_heap_fields _ _ l Hf)).
      rewrite Forall_forall in Hv, Hlive, Hpv, Hplive.
      apply elem_of_app in Hl as [Hl|Hl].
      * rewrite lookup_total_app_l by (apply Hlive, Hl). apply Hv, Hl.
      * rewrite lookup_total_app_l by (apply Hplive, Hl). apply Hpv, Hl.
    + destruct (mine_pending_cases _ _ _ _ _ _ _ _ Hmine)
        as [(_ & -> & -> & _) | [(e & tx & Hr' & _) | (Hr' & _)]];
        try discriminate.
      split; assumption.
    + destruct (mine_pending_cases _ _ _ _ _ _ _ _ Hmine)
        as [(Hr' & _) | [(e' & tx & _ & -> & -> & _) | (Hr' & _)]];
        try discriminate.
      split; [exact Hc|].
      apply Forall_forall. intros l Hl. rewrite Forall_forall in Hv, Hlive.
      rewrite lookup_total_app_l by (apply Hlive, Hl). apply Hv, Hl.
Qed.

Lemma replay_without_rewards (h : Heap) who : forall (blocks : list Block.t) balance,
  who <> "system"%string ->
  Forall (fun b => forall l, last (Block.transactions b) = Some l ->
                     Transaction.sender_address (h !!! l) = "system"%string
                     /\ Transaction.recipient_address (h !!! l) <> who) blocks ->
  fold_left (fun balance tx => Blockchain.credit_debit who balance (h !!! tx))
            (concat (map Block.transactions blocks)) balance
  = fold_left (fun balance tx => Blockchain.credit_debit who balance (h !!! tx))
              (concat (map (fun b => removelast (Block.transactions b)) blocks)) balance.
Proof.
  intros blocks balance Hsys Hall. revert balance.
  induction Hall as [|b blocks Hb _ IH]; intros balance; [reflexivity|].
  cbn [map concat]. rewrite !fold_left_app, <- IH. f_equal.
  destruct (Block.transactions b) as [|x xs] using rev_ind; [reflexivity|].
  rewrite removelast_last, fold_left_app. cbn [fold_left].
  destruct (Hb x) as [Hs Hr]; [apply last_snoc|].
  unfold Blockchain.credit_debit at 1.
  apply String.eqb_neq in Hr. rewrite Hr, Hs.
  apply not_eq_sym, String.eqb_neq in Hsys. rewrite Hsys. reflexivity.
Qed.

(** The last transaction of every block of a reachable chain is sent by
    "system". *)
Lemma reachable_rewards_last (h : Heap) bc :
  reachable h bc ->
  Forall (fun b => forall l, last (Block.transactions b) = Some l ->
                     Transaction.sender_address (h !!! l) = "system"%string)
         (Blockchain.chain bc).
Proof.
  intros Hreach. induction Hreach
    as [h d now | h bc tx Hr IH | h bc l r bc' Hr IH Hl Hadd
       | h bc fuel now address r h' bc' Hr IH Hmine].
  - constructor; [|constructor]. intros l Hl. discriminate Hl.
  - pose proof (chain_refs_live _ _ (reachable_chain_ok _ _ Hr)) as Hlive.
    apply Forall_forall. intros b Hb l Hl.
    rewrite Forall_forall in IH. rewrite Forall_forall in Hlive.
    rewrite lookup_total_app_l; [apply (IH b Hb l Hl)|].
    apply Hlive, list_elem_of_In, in_concat.
    exists (Block.transactions b). split.
    + apply in_map, list_elem_of_In, Hb.
    + apply list_elem_of_In. rewrite last_lookup in Hl.
      apply list_elem_of_lookup. eexists. exact Hl.
  - pose proof (add_transaction_cases h l bc) as Hcases. cbv zeta in Hcases.
    rewrite Hcases in Hadd.
    repeat match type of Hadd with
           | context [if ?c then _ else _] => destruct c
           end; injection Hadd as <- <-; exact IH.
  - pose proof (reachable_in_sync _ _ Hr) as Hsync.
    pose proof (chain_refs_live _ _ (reachable_chain_ok _ _ Hr)) as Hlive.
    assert (Hold : forall (h1 : Heap),
               (forall l, (l < length h)%nat ->
                          Transaction.sender_address (h1 !!! l)
                          = Transaction.sender_address (h !!! l)) ->
               Forall (fun b => forall l, last (Block.transactions b) = Some l ->
                                  Transaction.sender_address (h1 !!! l) = "system"%string)
                      (Blockchain.chain bc)).
    { intros h1 Hsame. apply Forall_forall. intros b Hb l Hl.
      rewrite Forall_forall in IH. rewrite Forall_forall in Hlive.
      rewrite Hsame; [apply (IH b Hb l Hl)|].
      apply Hlive, list_elem_of_In, in_concat.
      exists (Block.transactions b). split.
      + apply in_map, list_elem_of_In, Hb.
      + apply list_elem_of_In. rewrite last_lookup in Hl.
        apply list_elem_of_lookup. eexists. exact Hl. }
    destruct r as [[|]|e].
    + destruct (mine_pending_returned _ _ _ _ _ _ _ Hsync Hmine)
        as (seconds & block & Htx & -> & -> & Hf).
      cbv zeta in *. cbn [Blockchain.chain].
      assert (Hsender : forall l,
                 Transaction.sender_address
                   (confirm_in_heap
                      (h ++ [Blockchain.reward_transaction bc address
                               (Blockchain.at_reward now) seconds])
                      (Blockchain.pending_transactions bc) !!! l)
                 = Transaction.sender_address
                     ((h ++ [Blockchain.reward_transaction bc address
                               (Blockchain.at_reward now) seconds]) !!! l)).
      { intros l. apply (same_but_status_fields _ _ (confirmed_heap_fields _ _ l Hf)). }
      apply Forall_app. split.
      * apply Hold. intros l Hl. rewrite Hsender, lookup_total_app_l by exact Hl.
        reflexivity.
      * constructor; [|constructor]. intros l. rewrite Htx, last_snoc.
        intros [= <-]. rewrite Hsender.
        rewrite list_lookup_total_middle by reflexivity. reflexivity.
    + destruct (mine_pending_cases _ _ _ _ _ _ _ _ Hmine)
        as [(_ & -> & -> & _) | [(e & tx & Hr' & _) | (Hr' & _)]];
        try discriminate.
      exact IH.
    + destruct (mine_pending_cases _ _ _ _ _ _ _ _ Hmine)
        as [(Hr' & _) | [(e' & tx & _ & -> & -> & _) | (Hr' & _)]];
        try discriminate.
      apply Hold. intros l Hl. rewrite lookup_total_app_l by exact Hl. reflexivity.
Qed.

(** X17: in a reachable state the pool's [calculate_balance] is the
    replay of the chain's transactions with the last transaction of every
    block, the mining reward, left out: the pool never sees the rewards.
    (Its elif makes no difference, since every confirmed transaction has
    passed [is_valid] and so has a sender other than its recipient.)
    Hence it agrees with the chain's [get_balance] for an address that is
    not "system" and was never paid a reward. *)
Theorem pool_balance_without_rewards (h : Heap) bc who :
  reachable h bc ->
  TransactionPool.calculate_balance h who (Blockchain.transaction_pool bc)
  = fold_left (Blockchain.credit_debit who) (map (fun l => h !!! l) (transfers bc))
              0%float
  /\ (never_rewarded h who bc ->
      TransactionPool.calculate_balance h who (Blockchain.transaction_pool bc)
      = Blockchain.get_balance h who bc).
Proof.
  intros Hreach. destruct (reachable_confirmed _ _ Hreach) as [Hc Hv].
  assert (Heq : TransactionPool.calculate_balance h who (Blockchain.transaction_pool bc)
                = fold_left (fun balance tx => Blockchain.credit_debit who balance (h !!! tx))
                            (transfers bc) 0%float).
  { unfold TransactionPool.calculate_balance. rewrite Hc.
    revert Hv. generalize (transfers bc) as ls. intros ls Hv.
    generalize 0%float. induction Hv as [|l ls Hl _ IH]; intros b; [reflexivity|].
    cbn [fold_left]. rewrite (credit_or_debit_valid _ _ _ Hl). apply IH. }
  split.
  - rewrite Heq. apply (fold_left_lookups (Blockchain.credit_debit who)).
  - intros [Hsys Hnever]. rewrite Heq, get_balance_replay.
    unfold chain_transactions.
    rewrite <- (fold_left_lookups (Blockchain.credit_debit who)). symmetry.
    apply replay_without_rewards; [exact Hsys|].
    pose proof (reachable_rewards_last _ _ Hreach) as Hlast.
    apply Forall_forall. intros b Hb l Hl.
    rewrite Forall_forall in Hlast. rewrite Forall_forall in Hnever. split; [apply (Hlast b Hb l Hl)|].
    apply (Hnever b Hb l Hl).
Qed.

(** ** The wallet in front of the chain *)

Lemma wallet_eta (self : Wallet.t) :
  Wallet.set_blockchain (Wallet.blockchain self) self = self.
Proof. destruct self; reflexivity. Qed.

Lemma add_transaction_raised (h : Heap) transaction bc e bc' :
  Blockchain.add_transaction h transaction bc = (Raised e, bc') ->
  bc' = bc
  /\ ((exists message, e = Failed_to_add_transaction (Invalid_transaction message))
      \/ (exists available required,
            e = Failed_to_add_transaction (Insufficient_balance available required)
            /\ available
               = Blockchain.get_balance h (Transaction.sender_address (h !!! transaction)) bc
            /\ required = (Transaction.amount (h !!! transaction)
                           + Transaction.fee (h !!! transaction))%float
            /\ (available <? required)%float = true)
      \/ e = Failed_to_add_transaction (Failed_to_add_to_pool Transaction_already_exists)).
Proof.
  pose proof (add_transaction_cases h transaction bc) as Hc. cbv zeta in Hc.
  rewrite Hc.
  destruct (negb (Transaction.is_valid (h !!! transaction)).1).
  { intros [= <- <-]. split; [reflexivity|]. left. eauto. }
  destruct (_ <? _)%float eqn:Hlt.
  { intros [= <- <-]. split; [reflexivity|]. right. left. eauto 10. }
  destruct (existsb _ _); [|discriminate].
  intros [= <- <-]. split; [reflexivity|]. right. right. reflexivity.
Qed.

Lemma sign_transaction_true private_key k (tx tx' : Transaction.t) ok :
  Transaction.sign_transaction private_key k tx = (Returned ok, tx') -> ok = true.
Proof.
  unfold Transaction.sign_transaction.
  destruct (CryptoUtils.sign_message _ _ _); [|discriminate].
  cbv zeta. congruence.
Qed.

Lemma get_balance_heap_grow (h : Heap) tx address bc :
  Forall (fun l => (l < length h)%nat)
         (concat (map Block.transactions (Blockchain.chain bc))) ->
  Blockchain.get_balance (h ++ [tx]) address bc = Blockchain.get_balance h address bc.
Proof.
  intros Hlive. rewrite !get_balance_replay. unfold chain_transactions. f_equal.
  apply map_ext_in. intros l Hl. apply lookup_total_app_l.
  rewrite Forall_forall in Hlive. apply Hlive, list_elem_of_In, Hl.
Qed.

(** X18: a call of the wallet's [send_transaction] that raises has
    either changed nothing or done everything.  Either the wallet and its
    chain (blocks, queue and pool) are as they were, at most one new,
    unreferenced Transaction object has been created, and the failure is
    one of six, under the prefix "Failed to send transaction: " (the
    chain's own "Insufficient balance" is not among them, because the
    wallet has compared the same balance with the same sum before it
    built the transaction); or it was one of the prints after
    [add_transaction] that raised, and then the transaction is signed and
    queued exactly as after the call that returns it: the caller sees
    "Failed to send transaction: ..." for a transaction that will be
    mined.  With prints that pass, a failed call changes nothing. *)
Theorem send_transaction_failure now k prints recipient_address amount fee message
    (h : Heap) self e h' self' :
  reachable h (Wallet.blockchain self) ->
  Wallet.send_transaction now k prints recipient_address amount fee message h self
  = (Raised e, h', self') ->
  (self' = self
   /\ (h' = h \/ exists tx, h' = h ++ [tx])
   /\ exists cause,
        e = Wallet.failed_to_send cause
        /\ (cause = Library_error "Wallet is locked"
            \/ cause = Library_error "No wallet address available"
            \/ (exists available required,
                  cause = Insufficient_balance available required
                  /\ Wallet.get_balance h self = Returned available
                  /\ required = (amount + fee)%float
                  /\ (available <? required)%float = true)
            \/ (exists cause', cause = Failed_to_sign_transaction cause')
            \/ (exists reason,
                  cause = Failed_to_add_transaction (Invalid_transaction reason))
            \/ cause = Failed_to_add_transaction
                         (Failed_to_add_to_pool Transaction_already_exists)))
  \/ (exists raised tx,
        prints = Some raised
        /\ e = Wallet.failed_to_send raised
        /\ h' = h ++ [tx]
        /\ self' = Wallet.set_blockchain (queued (length h) (Wallet.blockchain self)) self
        /\ Wallet.send_transaction now k None recipient_address amount fee message h self
           = (Returned (length h), h', self')).
Proof.
  intros Hreach. unfold Wallet.send_transaction.
  destruct (Wallet.is_unlocked self); cbn [negb].
  2:{ intros [= <- <- <-]. left. split; [reflexivity|]. split; [left; reflexivity|].
      eexists. split; [reflexivity|]. auto. }
  destruct (Wallet.get_balance h self) as [current_balance|e0] eqn:Hbal.
  2:{ intros [= <- <- <-]. left. split; [reflexivity|]. split; [left; reflexivity|].
      exists e0. split; [reflexivity|]. right. left.
      unfold Wallet.get_balance in Hbal.
      destruct (Wallet.address self) as [a|]; [destruct (PyStr.truthy a)|];
        congruence. }
  cbv zeta.
  destruct (current_balance <? amount + fee)%float eqn:Hlt.
  { intros [= <- <- <-]. left. split; [reflexivity|]. split; [left; reflexivity|].
    eexists. split; [reflexivity|]. right. right. left. eauto 10. }
  destruct (Wallet.private_key self) as [key|].
  2:{ intros [= <- <- <-]. left. split; [reflexivity|]. split; [right; eauto|].
      eexists. split; [reflexivity|]. right. right. right. left. eauto. }
  destruct (Transaction.sign_transaction key k _) as [signed tx] eqn:Hsign.
  destruct signed as [ok|e1].
  2:{ intros [= <- <- <-]. left. split; [reflexivity|]. split; [right; eauto|].
      exists e1. split; [reflexivity|]. right. right. right. left.
      unfold Transaction.sign_transaction in Hsign.
      destruct (CryptoUtils.sign_message _ _ _); [discriminate|].
      injection Hsign as <- _. eauto. }
  destruct (Blockchain.add_transaction _ _ _) as [[r|e2] bc] eqn:Hadd.
  { destruct prints as [raised|]; [|discriminate].
    intros [= <- <- <-]. right.
    destruct (add_transaction_returned _ _ _ _ _ Hadd) as (_ & _ & _ & ->).
    exists raised, tx. repeat split. }
  intros [= <- <- <-]. left.
  destruct (add_transaction_raised _ _ _ _ _ Hadd) as [-> Hcause].
  split; [apply wallet_eta|]. split; [right; eauto|].
  exists e2. split; [reflexivity|].
  destruct Hcause as [[reason ->] | [(available & required & -> & Ha & Hr & Hlt') | ->]].
  - right. right. right. right. left. eauto.
  - exfalso.
    rewrite list_lookup_total_middle in Ha, Hr by reflexivity.
    assert (Hsame : Transaction.sender_address tx
                    = default EmptyString (Wallet.address self)
                    /\ Transaction.amount tx = amount /\ Transaction.fee tx = fee).
    { pose proof (sign_transaction_true _ _ _ _ _ Hsign) as ->.
      destruct (sign_transaction_returned _ _ _ _ Hsign) as (r0 & s0 & _ & ->).
      repeat split. }
    destruct Hsame as (Hs & Hamt & Hfee).
    rewrite Hs in Ha. rewrite Hamt, Hfee in Hr. subst required.
    unfold Wallet.get_balance in Hbal.
    destruct (Wallet.address self) as [a|]; [|discriminate].
    destruct (PyStr.truthy a); [|discriminate].
    injection Hbal as Hbal. simpl in Ha.
    rewrite get_balance_heap_grow in Ha
      by apply chain_refs_live, reachable_chain_ok, Hreach.
    congruence.
  - right. right. right. right. right. reflexivity.
Qed.

(** X19: a call of the wallet's [send_transaction] that returns has
    created exactly one Transaction object and returns it: sent from the
    wallet's address to the given recipient with the given amount, fee
    and message, signed with the wallet's key, accepted by [is_valid].
    The wallet was unlocked, its balance on the chain was not below
    amount + fee, and afterwards the object is the last entry of the
    pending queue and of the pool, with the blocks, the difficulty, the
    reward and the wallet's keys and address as before. *)
Theorem send_transaction_success now k prints recipient_address amount fee message
    (h : Heap) self transaction h' self' :
  Wallet.send_transaction now k prints recipient_address amount fee message h self
  = (Returned transaction, h', self') ->
  exists address key tx,
    Wallet.is_unlocked self = true
    /\ Wallet.address self = Some address
    /\ Wallet.private_key self = Some key
    /\ Transaction.sign_transaction key k
         (Transaction.new address recipient_address amount fee message now)
       = (Returned true, tx)
    /\ transaction = length h /\ h' = h ++ [tx]
    /\ (Transaction.is_valid tx).1 = true
    /\ (Blockchain.get_balance h address (Wallet.blockchain self) <? amount + fee)%float
       = false
    /\ let bc := Wallet.blockchain self in
       self' = Wallet.set_blockchain
                 (Blockchain.mk (Blockchain.chain bc) (Blockchain.difficulty bc)
                    (Blockchain.pending_transactions bc ++ [transaction])
                    (Blockchain.mining_reward bc)
                    (TransactionPool.mk
                       (TransactionPool.transactions (Blockchain.transaction_pool bc)
                        ++ [transaction])
                       (TransactionPool.confirmed_transactions
                          (Blockchain.transaction_pool bc))))
                 self.
Proof.
  unfold Wallet.send_transaction.
  destruct (Wallet.is_unlocked self); cbn [negb]; [|discriminate].
  unfold Wallet.get_balance.
  destruct (Wallet.address self) as [address|]; [|discriminate].
  destruct (PyStr.truthy address); [|discriminate].
  cbv zeta. destruct (_ <? _)%float eqn:Hlt; [discriminate|].
  destruct (Wallet.private_key self) as [key|]; [|discriminate].
  cbn [default from_option id].
  destruct (Transaction.sign_transaction key k _) as [signed tx] eqn:Hsign.
  destruct signed as [ok|e1]; [|discriminate].
  pose proof (sign_transaction_true _ _ _ _ _ Hsign) as ->.
  destruct (Blockchain.add_transaction _ _ _) as [[r|e2] bc] eqn:Hadd;
    [|discriminate].
  destruct prints as [raised|]; [discriminate|].
  intros [= ? ? ?]. subst transaction h' self'.
  destruct (add_transaction_returned _ _ _ _ _ Hadd) as (_ & Hv & _ & ->).
  rewrite list_lookup_total_middle in Hv by reflexivity.
  exists address, key, tx. repeat split; auto.
Qed.

(** X20: mining through the wallet pays the wallet.  When [mine_block]
    returns true on a reachable chain, and the wallet's address is party
    to none of the transactions that were pending and is not "system",
    the wallet's [get_balance] afterwards is the balance before plus
    10.0, and the queue is empty. *)
Theorem wallet_mine_block_reward fuel now prints (h : Heap) self h' self' :
  reachable h (Wallet.blockchain self) ->
  Wallet.mine_block fuel now prints h self = Some (Returned true, h', self') ->
  (forall address, Wallet.address self = Some address ->
     address <> "system"%string
     /\ Forall (fun l => Transaction.sender_address (h !!! l) <> address
                         /\ Transaction.recipient_address (h !!! l) <> address)
               (Blockchain.pending_transactions (Wallet.blockchain self))) ->
  exists balance,
    Wallet.get_balance h self = Returned balance
    /\ Wallet.get_balance h' self' = Returned (balance + 10)%float
    /\ Blockchain.pending_transactions (Wallet.blockchain self') = [].
Proof.
  intros Hreach Hmine Hun. unfold Wallet.mine_block in Hmine.
  unfold Wallet.get_balance.
  destruct (Wallet.address self) as [address|] eqn:Haddr; [|discriminate].
  destruct (PyStr.truthy address) eqn:Htruthy; [|discriminate].
  destruct (Blockchain.mine_pending_transactions _ _ _ _ _)
    as [[[[success|e] h1] bc1]|] eqn:Hm; try discriminate.
  destruct success.
  2:{ destruct prints; discriminate. }
  destruct prints as [raised|]; [discriminate|].
  injection Hmine as <- <-.
  destruct (Hun address eq_refl) as [Hsys Hparty].
  destruct (mining_replay _ _ _ _ _ _ _ Hreach Hm) as [seconds Hbal].
  exists (Blockchain.get_balance h address (Wallet.blockchain self)).
  split; [reflexivity|].
  cbn [Wallet.set_blockchain Wallet.address Wallet.blockchain].
  rewrite Haddr, Htruthy. split.
  - rewrite Hbal, replay_then_reward, String.eqb_refl; [| |exact Hsys].
    + rewrite (proj2 (proj2 (proj2 (reachable_in_sync _ _ Hreach)))). reflexivity.
    + apply Forall_forall. intros tx Htx.
      apply list_elem_of_In, in_map_iff in Htx as (l & <- & Hl).
      rewrite Forall_forall in Hparty. apply Hparty, list_elem_of_In, Hl.
  - destruct (mine_pending_returned _ _ _ _ _ _ _ (reachable_in_sync _ _ Hreach) Hm)
      as (seconds' & block & _ & _ & -> & _). reflexivity.
Qed.

(** ** Sums of binary64 values that are not below zero *)

Section FloatAddition.

Variables prec emax : Z.
Hypothesis prec_positive : 0 < prec.

Lemma digits2_pos_lower (m : positive) :
  2 ^ (Z.pos (digits2_pos m) - 1) <= Z.pos m.
Proof.
  induction m as [m IH|m IH|]; cbn [digits2_pos]; [| |simpl; lia].
  - rewrite Pos2Z.inj_succ.
    replace (Z.succ (Z.pos (digits2_pos m)) - 1)
      with (Z.succ (Z.pos (digits2_pos m) - 1)) by lia.
    rewrite Z.pow_succ_r by lia. lia.
  - rewrite Pos2Z.inj_succ.
    replace (Z.succ (Z.pos (digits2_pos m)) - 1)
      with (Z.succ (Z.pos (digits2_pos m) - 1)) by lia.
    rewrite Z.pow_succ_r by lia. lia.
Qed.

Lemma shr_1_lower k mrs :
  0 <= k -> 2 ^ (k + 1) <= shr_m mrs -> 2 ^ k <= shr_m (shr_1 mrs).
Proof.
  intros Hk. rewrite Z.pow_add_r by lia. change (2 ^ 1) with 2.
  assert (0 < 2 ^ k) by (apply Z.pow_pos_nonneg; lia).
  destruct mrs as [m r s]. cbn [shr_m].
  destruct m as [|[p|p|]|p]; cbn [shr_1 shr_m]; lia.
Qed.

Lemma iter_shr_1_lower (p : positive) : forall k mrs,
  0 <= k -> 2 ^ (k + Z.pos p) <= shr_m mrs ->
  2 ^ k <= shr_m (SpecFloat.iter_pos shr_1 p mrs).
Proof.
  induction p as [p IH|p IH|]; intros k mrs Hk Hm; cbn [SpecFloat.iter_pos].
  - apply IH; [exact Hk|]. apply IH; [lia|]. apply shr_1_lower; [lia|].
    replace (k + Z.pos p + Z.pos p + 1) with (k + Z.pos p~1) by lia. exact Hm.
  - apply IH; [exact Hk|]. apply IH; [lia|].
    replace (k + Z.pos p + Z.pos p) with (k + Z.pos p~0) by lia. exact Hm.
  - apply shr_1_lower; assumption.
Qed.

(** Shifting to the canonical exponent keeps a positive mantissa
    positive when the exponent is not below the least one. *)
Lemma shr_fexp_positive (m : positive) e l :
  SpecFloat.emin prec emax <= e ->
  0 < shr_m (SpecFloat.shr_fexp prec emax (Z.pos m) e l).1
  /\ SpecFloat.emin prec emax <= (SpecFloat.shr_fexp prec emax (Z.pos m) e l).2.
Proof.
  intros He. unfold SpecFloat.shr_fexp, shr. cbn [Zdigits2].
  pose proof (digits2_pos_lower m) as Hd.
  set (d := Z.pos (digits2_pos m)) in *.
  assert (Hm : shr_m (shr_record_of_loc (Z.pos m) l) = Z.pos m).
  { destruct l as [|[]]; reflexivity. }
  destruct (SpecFloat.fexp prec emax (d + e) - e) as [|n|n] eqn:Hn; cbn [fst snd].
  - rewrite Hm. lia.
  - unfold SpecFloat.fexp in Hn.
    assert (Hshift : Z.pos n = d - prec) by lia.
    split; [|unfold SpecFloat.fexp; lia].
    assert (Hlow : 2 ^ (prec - 1) <= shr_m (SpecFloat.iter_pos shr_1 n
                                              (shr_record_of_loc (Z.pos m) l))).
    { apply iter_shr_1_lower; [lia|]. rewrite Hm.
      replace (prec - 1 + Z.pos n) with (d - 1) by lia. exact Hd. }
    assert (0 < 2 ^ (prec - 1)) by (apply Z.pow_pos_nonneg; lia).
    lia.
  - rewrite Hm. lia.
Qed.

Lemma round_nearest_even_positive mx lx : 0 < mx -> 0 < round_nearest_even mx lx.
Proof.
  intros H. unfold round_nearest_even.
  destruct lx as [|[]]; try destruct (Z.even mx); lia.
Qed.

Lemma binary_round_aux_positive (m : positive) e l :
  SpecFloat.emin prec emax <= e ->
  sf_positive (SpecFloat.binary_round_aux prec emax false (Z.pos m) e l).
Proof.
  intros He. unfold SpecFloat.binary_round_aux.
  destruct (shr_fexp_positive m e l He) as [Hm1 He1].
  destruct (SpecFloat.shr_fexp prec emax (Z.pos m) e l) as [mrs' e']. cbn [fst snd] in *.
  pose proof (round_nearest_even_positive _ (loc_of_shr_record mrs') Hm1) as Hr.
  destruct (round_nearest_even (shr_m mrs') (loc_of_shr_record mrs'))
    as [|m2|m2]; try lia.
  destruct (shr_fexp_positive m2 e' loc_Exact He1) as [Hm2 _].
  destruct (SpecFloat.shr_fexp prec emax (Z.pos m2) e' loc_Exact) as [mrs'' e''].
  cbn [fst snd] in *.
  destruct (shr_m mrs'') as [|m3|m3]; try lia.
  destruct (e'' <=? emax - prec); [right; eauto | left; reflexivity].
Qed.

Lemma binary_round_positive (m : positive) e :
  SpecFloat.emin prec emax <= e -> sf_positive (SpecFloat.binary_round prec emax false m e).
Proof.
  intros He. unfold SpecFloat.binary_round, SpecFloat.shl_align.
  destruct (SpecFloat.fexp prec emax (Z.pos (digits2_pos m) + e) - e) as [|n|n] eqn:Hn;
    apply binary_round_aux_positive; try exact He.
  unfold SpecFloat.fexp in *. lia.
Qed.

Lemma valid_exponent s m e :
  SpecFloat.valid_binary prec emax (S754_finite s m e) = true -> SpecFloat.emin prec emax <= e.
Proof.
  unfold SpecFloat.valid_binary, SpecFloat.bounded, SpecFloat.canonical_mantissa, SpecFloat.fexp.
  intros H. apply andb_true_iff in H as [H _]. apply Z.eqb_eq in H. lia.
Qed.

(** A positive value plus one that is zero or positive is positive:
    rounding never takes the sum of two binary floats down to zero. *)
Lemma SFadd_positive x y :
  SpecFloat.valid_binary prec emax x = true -> SpecFloat.valid_binary prec emax y = true ->
  sf_positive x ->
  sf_positive y \/ (exists s, y = S754_zero s) ->
  sf_positive (SpecFloat.SFadd prec emax x y).
Proof.
  intros Hvx Hvy [->|(mx & ex & ->)] [[->|(my & ey & ->)]|[s ->]];
    try (left; reflexivity); try (right; eauto; fail).
  cbn [SpecFloat.SFadd]. cbv zeta. cbn [cond_Zopp].
  pose proof (valid_exponent _ _ _ Hvx). pose proof (valid_exponent _ _ _ Hvy).
  change (Z.pos ?a + Z.pos ?b) with (Z.pos (a + b)). cbn [SpecFloat.binary_normalize].
  apply binary_round_positive. lia.
Qed.

End FloatAddition.

Lemma is_nan_spec (x : float) :
  PrimFloat.is_nan x = true <-> Prim2SF x = S754_nan.
Proof.
  unfold PrimFloat.is_nan. rewrite FloatAxioms.eqb_spec. unfold SFeqb.
  destruct (Prim2SF x) as [[]|[]| |[] m e]; simpl; try (split; congruence).
  - rewrite Z.compare_refl. fold (Pos.compare m m). rewrite Pos.compare_refl.
    simpl. split; congruence.
  - rewrite Z.compare_refl. fold (Pos.compare m m). rewrite Pos.compare_refl.
    simpl. split; congruence.
Qed.

Lemma float_add_nan (x y : float) :
  PrimFloat.is_nan x = true \/ PrimFloat.is_nan y = true ->
  forall z, (z <? x + y)%float = false.
Proof.
  intros H z. rewrite FloatAxioms.ltb_spec, FloatAxioms.add_spec.
  assert (Hn : SF64add (Prim2SF x) (Prim2SF y) = S754_nan).
  { destruct H as [H|H]; apply is_nan_spec in H; rewrite H.
    - reflexivity.
    - destruct (Prim2SF x) as [[]|[]| |[] m e]; reflexivity. }
  rewrite Hn. unfold SFltb. destruct (Prim2SF z); reflexivity.
Qed.

(** An amount that is a number above zero plus a fee that is a number
    not below zero is above zero. *)
Lemma float_add_positive (amount fee : float) :
  PrimFloat.is_nan amount = false -> PrimFloat.is_nan fee = false ->
  (amount <=? 0)%float = false -> (fee <? 0)%float = false ->
  (0 <? amount + fee)%float = true.
Proof.
  intros Hna Hnf Ha Hf.
  assert (Hpa : sf_positive (Prim2SF amount)).
  { rewrite FloatAxioms.leb_spec in Ha. unfold SFleb in Ha.
    change (Prim2SF 0) with (S754_zero false) in Ha.
    destruct (Prim2SF amount) as [[]|[]| |[] m e] eqn:Hx; simpl in Ha;
      try discriminate; try (left; reflexivity); try (right; eauto; fail).
    apply is_nan_spec in Hx. congruence. }
  assert (Hpf : sf_positive (Prim2SF fee) \/ exists s, Prim2SF fee = S754_zero s).
  { rewrite FloatAxioms.ltb_spec in Hf. unfold SFltb in Hf.
    change (Prim2SF 0) with (S754_zero false) in Hf.
    destruct (Prim2SF fee) as [[]|[]| |[] m e] eqn:Hx; simpl in Hf;
      try discriminate; try (left; left; reflexivity);
      try (left; right; eauto; fail); try (right; eauto; fail).
    apply is_nan_spec in Hx. congruence. }
  rewrite FloatAxioms.ltb_spec, FloatAxioms.add_spec. unfold SFltb.
  change (Prim2SF 0) with (S754_zero false).
  destruct (SFadd_positive FloatOps.prec FloatOps.emax ltac:(reflexivity) _ _
              (FloatAxioms.Prim2SF_valid amount) (FloatAxioms.Prim2SF_valid fee)
              Hpa Hpf) as [H|(m & e & H)];
    unfold SF64add; rewrite H; reflexivity.
Qed.

(** ** Amounts and fees that are not numbers *)

(** X21: a transaction whose amount or fee is NaN passes the balance
    check whatever the sender owns: the sum is NaN and no balance is
    below NaN.  If it passes [is_valid] (a NaN amount is not <= 0, a NaN
    fee is not < 0) and its id is not pending, [add_transaction] accepts
    it and queues it. *)
Theorem nan_passes_balance_check (h : Heap) transaction bc :
  let tx := h !!! transaction in
  (Transaction.is_valid tx).1 = true ->
  PrimFloat.is_nan (Transaction.amount tx) = true
  \/ PrimFloat.is_nan (Transaction.fee tx) = true ->
  ~ id_in_pool h transaction (Blockchain.transaction_pool bc) ->
  exists bc',
    Blockchain.add_transaction h transaction bc = (Returned true, bc')
    /\ Blockchain.pending_transactions bc'
       = Blockchain.pending_transactions bc ++ [transaction].
Proof.
  intros tx Hv Hnan Hid.
  pose proof (add_transaction_cases h transaction bc) as Hc. cbv zeta in Hc.
  fold tx in Hc. rewrite Hc, Hv. cbn [negb].
  rewrite (float_add_nan _ _ Hnan).
  destruct (existsb _ _) eqn:He.
  - exfalso. apply Hid, same_id_exists, He.
  - eexists. split; reflexivity.
Qed.

Lemma get_balance_new (h : Heap) address difficulty now :
  Blockchain.get_balance h address (Blockchain.new difficulty now) = 0%float.
Proof. reflexivity. Qed.

(** On a chain that holds the genesis block only, a transaction whose
    amount and fee are numbers is turned away. *)
Lemma add_transaction_new (h : Heap) transaction difficulty now r bc' :
  numeric (h !!! transaction) ->
  Blockchain.add_transaction h transaction (Blockchain.new difficulty now) = (r, bc') ->
  bc' = Blockchain.new difficulty now /\ r <> Returned true.
Proof.
  intros [Hna Hnf].
  pose proof (add_transaction_cases h transaction (Blockchain.new difficulty now)) as Hc.
  cbv zeta in Hc. rewrite Hc, get_balance_new.
  destruct (negb (Transaction.is_valid (h !!! transaction)).1) eqn:Hv.
  { intros [= <- <-]. split; [reflexivity | discriminate]. }
  assert (Hpos : (0 <? Transaction.amount (h !!! transaction)
                       + Transaction.fee (h !!! transaction))%float = true).
  { apply float_add_positive; auto.
    - revert Hv. unfold Transaction.is_valid.
      destruct (negb _ || negb _); [discriminate|].
      destruct (_ <=? 0)%float; [discriminate | reflexivity].
    - revert Hv. unfold Transaction.is_valid.
      destruct (negb _ || negb _); [discriminate|].
      destruct (_ <=? 0)%float; [discriminate|].
      destruct (_ <? 0)%float; [discriminate | reflexivity]. }
  rewrite Hpos. intros [= <- <-]. split; [reflexivity | discriminate].
Qed.

Lemma reachable_new_or_nan (h : Heap) bc :
  reachable h bc ->
  (exists difficulty now, bc = Blockchain.new difficulty now)
  \/ exists l, (l < length h)%nat /\ ~ numeric (h !!! l).
Proof.
  intros Hreach. induction Hreach
    as [h d now | h bc tx Hr IH | h bc l r bc' Hr IH Hl Hadd
       | h bc fuel now address r h' bc' Hr IH Hmine].
  - left. eauto.
  - destruct IH as [IH | (l & Hl & Hn)]; [left; exact IH|].
    right. exists l. rewrite length_app, lookup_total_app_l by exact Hl.
    split; [lia | exact Hn].
  - destruct IH as [(d & now & ->) | IH]; [|right; exact IH].
    assert (Hdec : numeric (h !!! l) \/ ~ numeric (h !!! l)).
    { unfold numeric.
      destruct (PrimFloat.is_nan (Transaction.amount (h !!! l))),
               (PrimFloat.is_nan (Transaction.fee (h !!! l)));
        intuition congruence. }
    destruct Hdec as [Hnum | Hnum].
    + left. destruct (add_transaction_new _ _ _ _ _ _ Hnum Hadd) as [-> _]. eauto.
    + right. eauto.
  - destruct IH as [(d & now' & ->) | (l & Hl & Hn)].
    + left. revert Hmine.
      unfold Blockchain.mine_pending_transactions, Blockchain.new.
      cbn [Blockchain.pending_transactions]. intros [= <- <- <-]. eauto.
    + right. pose proof (reachable_in_sync _ _ Hr) as Hsync.
      destruct r as [[|]|e].
      * destruct (mine_pending_returned _ _ _ _ _ _ _ Hsync Hmine)
          as (seconds & block & _ & -> & _ & Hf).
        cbv zeta in *. exists l. rewrite confirm_in_heap_length, length_app.
        split; [lia|].
        destruct (same_but_status_fields _ _ (confirmed_heap_fields _ _ l Hf))
          as (_ & _ & Ha & Hfee & _).
        unfold numeric. rewrite Ha, Hfee, lookup_total_app_l by exact Hl. exact Hn.
      * destruct (mine_pending_cases _ _ _ _ _ _ _ _ Hmine)
          as [(_ & -> & _) | [(e & tx & Hr' & _) | (Hr' & _)]]; try discriminate.
        eauto.
      * destruct (mine_pending_cases _ _ _ _ _ _ _ _ Hmine)
          as [(Hr' & _) | [(e' & tx & _ & -> & _) | (Hr' & _)]]; try discriminate.
        exists l. rewrite length_app, lookup_total_app_l by exact Hl.
        split; [lia | exact Hn].
Qed.

(** X22: without a NaN nothing ever happens.  From a new chain every
    balance is 0.0, [add_transaction] turns away every transaction whose
    amount and fee are numbers (the amount must be above zero, so the sum
    is above the balance), and mining needs a pending transaction.  So in
    a reachable state in which the amount and the fee of every
    transaction object are numbers, the chain is still the genesis block
    alone, the queue and the pool are empty and every balance is 0.0. *)
Theorem no_nan_no_ledger (h : Heap) bc :
  reachable h bc ->
  Forall numeric h ->
  (exists difficulty now, bc = Blockchain.new difficulty now)
  /\ forall address, Blockchain.get_balance h address bc = 0%float.
Proof.
  intros Hreach Hnum.
  destruct (reachable_new_or_nan _ _ Hreach) as [(d & now & ->) | (l & Hl & Hn)].
  - split; [eauto | intros address; reflexivity].
  - exfalso. apply Hn. rewrite Forall_forall in Hnum. apply Hnum.
    apply list_elem_of_lookup_total_2, Hl.
Qed.

(** ** Submitting a confirmed transaction again *)

(** X23: a transaction that has been mined can be submitted again.
    After a mining call that returned true on a reachable state, every
    transaction object that was pending still passes [is_valid], and the
    pool's pending list, the only place where ids are compared, is
    empty; so [add_transaction] accepts the same object once more
    whenever the sender's new balance is not below amount + fee, and
    queues it for a second block. *)
Theorem replay_after_mining fuel now address (h : Heap) bc h' bc' transaction :
  reachable h bc ->
  Blockchain.mine_pending_transactions fuel now address h bc
  = Some (Returned true, h', bc') ->
  transaction ∈ Blockchain.pending_transactions bc ->
  let tx := h' !!! transaction in
  (Blockchain.get_balance h' (Transaction.sender_address tx) bc'
   <? Transaction.amount tx + Transaction.fee tx)%float = false ->
  Transaction.status tx = "confirmed"%string
  /\ transaction ∈ chain_refs bc'
  /\ exists bc'',
       Blockchain.add_transaction h' transaction bc' = (Returned true, bc'')
       /\ Blockchain.pending_transactions bc'' = [transaction].
Proof.
  intros Hreach Hmine Hin tx Hbal.
  pose proof (reachable_in_sync _ _ Hreach) as Hsync.
  destruct (reachable_pending_ok _ _ Hreach) as [Hvalid _].
  destruct (mine_pending_returned _ _ _ _ _ _ _ Hsync Hmine)
    as (seconds & block & Htx & Hh' & Hbc' & Hf).
  cbv zeta in *.
  destruct Hsync as (_ & Hlive & _).
  assert (Hlt : (transaction < length h)%nat).
  { rewrite Forall_forall in Hlive. apply Hlive, Hin. }
  assert (Hv : (Transaction.is_valid tx).1 = true).
  { unfold tx. rewrite Hh'.
    rewrite (is_valid_status _ _ (confirmed_heap_fields _ _ transaction Hf)).
    rewrite lookup_total_app_l by exact Hlt.
    rewrite Forall_forall in Hvalid. apply Hvalid, Hin. }
  split; [|split].
  - unfold tx. rewrite Hh', (confirm_in_heap_lookup _ _ _ Hf).
    destruct (decide (transaction ∈ Blockchain.pending_transactions bc));
      [reflexivity | contradiction].
  - rewrite Hbc'. unfold chain_refs. cbn [Blockchain.chain].
    rewrite map_app, concat_app. cbn [map concat]. rewrite app_nil_r, Htx.
    apply elem_of_app. right. apply elem_of_app. left. exact Hin.
  - pose proof (add_transaction_cases h' transaction bc') as Hc. cbv zeta in Hc.
    fold tx in Hc. rewrite Hc, Hv, Hbal. cbn [negb].
    rewrite Hbc'. cbn [Blockchain.transaction_pool TransactionPool.transactions
                        Blockchain.pending_transactions existsb app].
    eexists. split; reflexivity.
Qed.

(** ** The chain only grows *)

(** X24: the interface never removes or replaces a block, and never
    changes the difficulty or the reward.  [add_transaction] leaves the
    list of blocks as it is, whatever it returns; a mining call leaves it
    as it is or appends one block to it. *)
Theorem chain_append_only (h : Heap) bc :
  (forall transaction r bc',
     Blockchain.add_transaction h transaction bc = (r, bc') ->
     Blockchain.chain bc' = Blockchain.chain bc
     /\ Blockchain.difficulty bc' = Blockchain.difficulty bc
     /\ Blockchain.mining_reward bc' = Blockchain.mining_reward bc)
  /\ (forall fuel now address r h' bc',
        Blockchain.mine_pending_transactions fuel now address h bc
        = Some (r, h', bc') ->
        (Blockchain.chain bc' = Blockchain.chain bc
         \/ exists block, Blockchain.chain bc' = Blockchain.chain bc ++ [block])
        /\ Blockchain.difficulty bc' = Blockchain.difficulty bc
        /\ Blockchain.mining_reward bc' = Blockchain.mining_reward bc).
Proof.
  split.
  - intros transaction r bc' Hadd.
    pose proof (add_transaction_cases h transaction bc) as Hc. cbv zeta in Hc.
    rewrite Hc in Hadd.
    repeat match type of Hadd with
           | context [if ?c then _ else _] => destruct c
           end; injection Hadd as <- <-; auto.
  - intros fuel now address r h' bc' Hmine.
    destruct (mine_pending_cases _ _ _ _ _ _ _ _ Hmine)
      as [(_ & _ & -> & _) | [(e & tx & _ & _ & -> & _)
                             | (_ & _ & seconds & latest & block & _ & _ & _ & _ & ->)]];
      auto.
    cbn [Blockchain.chain Blockchain.difficulty Blockchain.mining_reward]. eauto.
Qed.

(** ** The nonce that mining finds *)

(** X25: [mine_block] returns the first block on target.  When it
    returns, the block is the one reached after n passes of the loop
    body, its nonce is the starting nonce plus n, no smaller number of
    passes gives a hash on target, and the answer does not depend on how
    long the search was allowed to run: it is returned exactly when at
    least n passes are allowed. *)
Theorem mine_block_least_nonce (h : Heap) difficulty fuel b block :
  Block.mine_block fuel h difficulty b = Some block ->
  exists n,
    block = Nat.iter n (Block.next_nonce h) b
    /\ Block.nonce block = Block.nonce b + Z.of_nat n
    /\ (forall m, (m < n)%nat ->
          Block.meets_target difficulty
            (Block.hash (Nat.iter m (Block.next_nonce h) b)) = false)
    /\ (forall fuel', (n <= fuel')%nat
                      <-> Block.mine_block fuel' h difficulty b = Some block).
Proof.
  intros Hm.
  destruct (mine_block_first _ _ _ _ _ Hm) as (n & Hn & -> & Hleast).
  destruct (mine_block_post _ _ _ _ _ Hm) as (Ht & _).
  exists n. split; [reflexivity|]. split; [apply iter_next_nonce|].
  split; [exact Hleast|].
  intros fuel'. split.
  - intros Hle.
    destruct (mine_block_finds h difficulty n fuel' b Ht Hle) as (m & Hmn & Hr).
    destruct (decide (m = n)) as [->|Hne]; [exact Hr|].
    exfalso. destruct (mine_block_post _ _ _ _ _ Hr) as (Ht' & _).
    rewrite (Hleast m ltac:(lia)) in Ht'. discriminate.
  - intros Hr. destruct (mine_block_first _ _ _ _ _ Hr) as (n' & Hn' & Heq & Hleast').
    destruct (decide (n <= fuel')%nat) as [|Hgt]; [assumption|].
    exfalso. assert (Hlt : (n' < n)%nat) by lia.
    pose proof (Hleast n' Hlt) as Hf. rewrite <- Heq, Ht in Hf. discriminate.
Qed.

(** ** NaN through the wallet *)

Lemma is_valid_signed (tx : Transaction.t) r s :
  (Transaction.is_valid
     (Transaction.set_transaction_id (Some (Transaction.calculate_hash tx))
        (Transaction.set_signature (Some (Hex.of_Z 64 r +:+ Hex.of_Z 64 s)) tx))).1
  = PyStr.truthy (Transaction.sender_address tx)
    && PyStr.truthy (Transaction.recipient_address tx)
    && negb (Transaction.amount tx <=? 0)%float
    && negb (Transaction.fee tx <? 0)%float
    && negb (String.eqb (Transaction.sender_address tx)
                        (Transaction.recipient_address tx)).
Proof.
  assert (Hid : PyStr.truthy (Transaction.calculate_hash tx) = true).
  { pose proof (sha256_hexdigest_length (Transaction.get_transaction_data tx)) as H.
    unfold Transaction.calculate_hash, CryptoUtils.hash_transaction.
    destruct (SHA256.hexdigest _); [discriminate H | reflexivity]. }
  unfold Transaction.is_valid.
  change (Transaction.signature _) with (Some (Hex.of_Z 64 r +:+ Hex.of_Z 64 s)).
  change (Transaction.transaction_id _) with (Some (Transaction.calculate_hash tx)).
  cbn [Transaction.sender_address Transaction.recipient_address Transaction.amount
       Transaction.fee Transaction.set_transaction_id Transaction.set_signature].
  unfold PyStr.opt_truthy. cbv beta iota. rewrite signature_truthy, Hid.
  destruct (PyStr.truthy (Transaction.sender_address tx)),
           (PyStr.truthy (Transaction.recipient_address tx)),
           (Transaction.amount tx <=? 0)%float,
           (Transaction.fee tx <? 0)%float,
           (String.eqb (Transaction.sender_address tx)
                       (Transaction.recipient_address tx)); reflexivity.
Qed.

(** X26: the wallet lets a NaN through as well.  An unlocked wallet with
    a key and an address, whatever its balance, queues a transaction
    whose amount or fee is NaN: its own balance check and the chain's
    both compare the balance with NaN, the transaction is signed, passes
    [is_valid] and is appended to the pending queue, provided the signer
    returns a signature, the recipient is another non-empty address, the
    amount is not <= 0, the fee is not < 0 and the id is not pending
    already.  The call returns the transaction when the prints that
    follow pass, and raises what they raise otherwise, with the
    transaction queued all the same. *)
Theorem wallet_sends_nan now k prints recipient_address amount fee message
    (h : Heap) self address key :
  reachable h (Wallet.blockchain self) ->
  Wallet.is_unlocked self = true ->
  Wallet.address self = Some address ->
  Wallet.private_key self = Some key ->
  let tx := Transaction.new address recipient_address amount fee message now in
  PyStr.truthy address = true -> PyStr.truthy recipient_address = true ->
  address <> recipient_address ->
  PrimFloat.is_nan amount = true \/ PrimFloat.is_nan fee = true ->
  (amount <=? 0)%float = false -> (fee <? 0)%float = false ->
  Secp256k1.sign key k (Transaction.get_transaction_data tx) <> None ->
  Forall (fun l => Transaction.transaction_id (h !!! l)
                   <> Some (Transaction.calculate_hash tx))
         (Blockchain.pending_transactions (Wallet.blockchain self)) ->
  exists signed self',
    Wallet.send_transaction now k prints recipient_address amount fee message h self
    = (match prints with
       | None => Returned (length h)
       | Some raised => Raised (Wallet.failed_to_send raised)
       end, h ++ [signed], self')
    /\ Transaction.sign_transaction key k tx = (Returned true, signed)
    /\ Blockchain.pending_transactions (Wallet.blockchain self')
       = Blockchain.pending_transactions (Wallet.blockchain self) ++ [length h].
Proof.
  intros Hreach Hun Haddr Hkey tx Ha Hr Hne Hnan Hamt Hfee Hsign Hfresh.
  destruct (reachable_in_sync _ _ Hreach) as (Hsync & Hlive & _).
  unfold Wallet.send_transaction, Wallet.get_balance.
  rewrite Hun, Haddr, Ha, Hkey. cbn [negb default from_option id]. cbv zeta.
  rewrite (float_add_nan _ _ Hnan). fold tx.
  unfold Transaction.sign_transaction, CryptoUtils.sign_message.
  destruct (Secp256k1.sign key k (Transaction.get_transaction_data tx))
    as [[r s]|]; [|contradiction]. cbv zeta.
  set (signed := Transaction.set_transaction_id _ _).
  pose proof (add_transaction_cases (h ++ [signed]) (length h) (Wallet.blockchain self))
    as Hc. cbv zeta in Hc.
  rewrite list_lookup_total_middle in Hc by reflexivity.
  assert (Hv : (Transaction.is_valid signed).1 = true).
  { unfold signed.
    change (Transaction.calculate_hash (Transaction.set_signature _ tx))
      with (Transaction.calculate_hash tx).
    rewrite is_valid_signed.
    cbn [tx Transaction.new Transaction.sender_address Transaction.recipient_address
         Transaction.amount Transaction.fee].
    rewrite Ha, Hr, Hamt, Hfee. apply String.eqb_neq in Hne. rewrite Hne. reflexivity. }
  assert (Hbal : forall b, (b <? Transaction.amount signed + Transaction.fee signed)%float
                           = false).
  { intros b. apply float_add_nan. exact Hnan. }
  assert (He : existsb (TransactionPool.same_id (h ++ [signed])
                          (Transaction.transaction_id signed))
                       (TransactionPool.transactions
                          (Blockchain.transaction_pool (Wallet.blockchain self)))
               = false).
  { rewrite Hsync. apply not_true_is_false. intros He.
    apply existsb_exists in He as (l & Hl & Hid).
    apply list_elem_of_In in Hl. rewrite Forall_forall in Hfresh, Hlive.
    apply (Hfresh l Hl). unfold TransactionPool.same_id in Hid.
    apply opt_eqb_eq in Hid. rewrite lookup_total_app_l in Hid by (apply Hlive, Hl).
    exact Hid. }
  rewrite Hv, Hbal, He in Hc. cbn [negb] in Hc. rewrite Hc.
  exists signed. eexists. split; [destruct prints; reflexivity|].
  split; reflexivity.
Qed.

(** ** The further statements at concrete inputs *)

Lemma scenario_reach0 : reachable Scenario.h0 Scenario.bc0.
Proof. exact (reach_new Scenario.h0 2 1700000000.0). Qed.

Lemma scenario_mined1 :
  Blockchain.mine_pending_transactions 100 Scenario.clock1 "miner"
    Scenario.h0 Scenario.bc1
  = Some (Returned true, Scenario.h2, Scenario.bc2).
Proof. vm_compute. reflexivity. Qed.

Lemma scenario_added1 :
  Blockchain.add_transaction Scenario.h0 0%nat Scenario.bc0
  = (Returned true, Scenario.bc1).
Proof. vm_compute. reflexivity. Qed.

Lemma scenario_signed0 :
  Transaction.sign_transaction Scenario.alice_key 3
    (Transaction.new "alice" "bob" 1.0 nan EmptyString 1700000010.5)
  = (Returned true, Scenario.tx0).
Proof. vm_compute. reflexivity. Qed.

Lemma reachable_chain_structure_witness :
  reachable Scenario.h2 Scenario.bc2
  /\ Blockchain.chain Scenario.bc2 !! 1%nat = Some Scenario.block1
  /\ Block.index Scenario.block1 = 1
  /\ String.length (Block.hash Scenario.block1) = 64%nat.
Proof.
  assert (Hb : Blockchain.chain Scenario.bc2 !! 1%nat = Some Scenario.block1)
    by reflexivity.
  split; [exact scenario_reach2|]. split; [exact Hb|].
  destruct (proj2 (reachable_chain_structure _ _ scenario_reach2) 1%nat _ Hb)
    as (Hi & _ & Hh & _).
  split; [exact Hi | exact Hh].
Defined.

Lemma is_chain_valid_failure_mode_witness :
  reachable Scenario.h2 Scenario.bc2
  /\ (Blockchain.is_chain_valid Scenario.h2 Scenario.bc2
      = (true, "Blockchain is valid"%string)
      \/ exists i b, (1 <= i < length (Blockchain.chain Scenario.bc2))%nat
           /\ Blockchain.chain Scenario.bc2 !! i = Some b
           /\ Block.hash b <> Block.calculate_hash Scenario.h2 b
           /\ Blockchain.is_chain_valid Scenario.h2 Scenario.bc2
              = (false, "Invalid hash at block " +:+ pretty i)).
Proof.
  split; [exact scenario_reach2|].
  exact (is_chain_valid_failure_mode _ _ scenario_reach2).
Defined.

Lemma get_block_by_index_reachable_witness :
  reachable Scenario.h2 Scenario.bc2
  /\ 0 <= 1 < Z.of_nat (length (Blockchain.chain Scenario.bc2))
  /\ exists b, Blockchain.get_block_by_index 1 Scenario.bc2 = Some b
               /\ Block.index b = 1
               /\ Blockchain.chain Scenario.bc2 !! Z.to_nat 1 = Some b.
Proof.
  assert (Hi : 0 <= 1 < Z.of_nat (length (Blockchain.chain Scenario.bc2)))
    by (simpl; lia).
  split; [exact scenario_reach2|]. split; [exact Hi|].
  exact (proj1 (get_block_by_index_reachable _ _ 1 scenario_reach2) Hi).
Defined.


Lemma pending_queue_invariant_witness :
  reachable Scenario.h0 Scenario.bc1
  /\ TransactionPool.transactions (Blockchain.transaction_pool Scenario.bc1)
     = Blockchain.pending_transactions Scenario.bc1
  /\ Blockchain.pending_transactions Scenario.bc1 = [0%nat].
Proof.
  split; [exact scenario_reach1|].
  split; [exact (proj1 (pending_queue_invariant _ _ scenario_reach1)) | reflexivity].
Defined.

Lemma search_after_add_witness :
  reachable Scenario.h0 Scenario.bc0
  /\ Blockchain.add_transaction Scenario.h0 0%nat Scenario.bc0
     = (Returned true, Scenario.bc1)
  /\ Blockchain.search_transaction Scenario.h0
       (Transaction.transaction_id (Scenario.h0 !!! 0%nat)) Scenario.bc1
     = (Some 0%nat, "pending"%string).
Proof.
  split; [exact scenario_reach0|]. split; [exact scenario_added1|].
  apply (proj2 (search_after_add _ _ _ _ scenario_reach0 scenario_added1)).
  reflexivity.
Defined.

Lemma search_after_mining_witness :
  reachable Scenario.h0 Scenario.bc1
  /\ Blockchain.mine_pending_transactions 100 Scenario.clock1 "miner"
       Scenario.h0 Scenario.bc1
     = Some (Returned true, Scenario.h2, Scenario.bc2)
  /\ exists found,
       Blockchain.search_transaction Scenario.h2
         (Transaction.transaction_id (Scenario.h0 !!! 0%nat)) Scenario.bc2
       = (Some found, "confirmed"%string)
       /\ Transaction.transaction_id (Scenario.h2 !!! found)
          = Transaction.transaction_id (Scenario.h0 !!! 0%nat).
Proof.
  split; [exact scenario_reach1|]. split; [exact scenario_mined1|].
  apply (proj1 (search_after_mining _ _ _ _ _ _ _ scenario_reach1 scenario_mined1)).
  left.
Defined.

Lemma balance_after_mining_witness :
  reachable Scenario.h0 Scenario.bc1
  /\ Blockchain.mine_pending_transactions 100 Scenario.clock1 "miner"
       Scenario.h0 Scenario.bc1
     = Some (Returned true, Scenario.h2, Scenario.bc2)
  /\ Blockchain.get_balance Scenario.h2 "miner" Scenario.bc2
     = (Blockchain.get_balance Scenario.h0 "miner" Scenario.bc1 + 10)%float
  /\ Blockchain.get_balance Scenario.h2 "carol" Scenario.bc2
     = Blockchain.get_balance Scenario.h0 "carol" Scenario.bc1.
Proof.
  split; [exact scenario_reach1|]. split; [exact scenario_mined1|].
  assert (Hun : forall who, who <> "alice"%string -> who <> "bob"%string ->
                  who <> "system"%string ->
                  Forall (fun tx => Transaction.sender_address tx <> who
                                    /\ Transaction.recipient_address tx <> who)
                         (map (fun l => Scenario.h0 !!! l)
                              (Blockchain.pending_transactions Scenario.bc1))
                  /\ who <> "system"%string).
  { intros who Ha Hb Hs. split; [|exact Hs].
    constructor; [|constructor]. split; apply not_eq_sym; assumption. }
  split.
  - apply (proj2 (proj2 (balance_after_mining _ _ _ _ _ _ _ "miner"
                           scenario_reach1 scenario_mined1)));
      [apply Hun; discriminate | reflexivity].
  - apply (proj1 (proj2 (balance_after_mining _ _ _ _ _ _ _ "carol"
                           scenario_reach1 scenario_mined1)));
      [apply Hun; discriminate | discriminate].
Defined.

Lemma private_key_hex_round_trip_witness :
  1 <= Scenario.alice_key < Secp256k1.n
  /\ CryptoUtils.private_key_to_hex Scenario.alice_key
     = "0000000000000000000000000000000000000000000000000000000000000007"%string
  /\ CryptoUtils.private_key_from_hex (CryptoUtils.private_key_to_hex Scenario.alice_key)
     = Returned Scenario.alice_key.
Proof.
  assert (Hk : 1 <= Scenario.alice_key < Secp256k1.n) by (split; reflexivity || discriminate).
  split; [exact Hk|]. split; [reflexivity|].
  exact (proj2 (private_key_hex_round_trip _ Hk)).
Defined.

Lemma sign_then_verify_witness :
  Transaction.sign_transaction Scenario.alice_key 3
    (Transaction.new "alice" "bob" 1.0 nan EmptyString 1700000010.5)
  = (Returned true, Scenario.tx0)
  /\ exists r s,
       Transaction.signature Scenario.tx0 = Some (Hex.of_Z 64 r +:+ Hex.of_Z 64 s)
       /\ forall public_key,
            Transaction.verify_signature public_key Scenario.tx0
            = Secp256k1.verify public_key
                (Transaction.get_transaction_data Scenario.tx0) r s.
Proof.
  split; [exact scenario_signed0|].
  destruct (sign_then_verify _ _ _ _ scenario_signed0) as (r & s & _ & Hsig & Hdata & Hv).
  exists r, s. split; [exact Hsig|]. intros public_key.
  rewrite Hdata. apply Hv.
Defined.

Lemma sign_then_is_valid_witness :
  Transaction.sign_transaction Scenario.alice_key 3
    (Transaction.new "alice" "bob" 1.0 nan EmptyString 1700000010.5)
  = (Returned true, Scenario.tx0)
  /\ (Transaction.is_valid Scenario.tx0).1 = true.
Proof.
  split; [exact scenario_signed0|].
  rewrite (proj2 (proj2 (proj2 (sign_then_is_valid _ _ _ _ scenario_signed0)))).
  reflexivity.
Defined.

Lemma genesis_never_checked_witness :
  Blockchain.chain Scenario.bc2 = Scenario.genesis :: [Scenario.block1]
  /\ Blockchain.is_chain_valid Scenario.h2 (with_genesis WalletRun.forged_genesis Scenario.bc2)
     = Blockchain.is_chain_valid Scenario.h2 Scenario.bc2
  /\ Blockchain.get_balance Scenario.h2 "miner" (with_genesis WalletRun.forged_genesis Scenario.bc2)
     = 20%float.
Proof.
  assert (Hc : Blockchain.chain Scenario.bc2 = Scenario.genesis :: [Scenario.block1])
    by reflexivity.
  split; [exact Hc|]. split; [|vm_compute; reflexivity].
  exact (genesis_never_checked Scenario.h2 Scenario.bc2 WalletRun.forged_genesis _ _ Hc eq_refl).
Defined.

Lemma pool_lookup_after_add_witness :
  Blockchain.add_transaction Scenario.h0 0%nat Scenario.bc0
  = (Returned true, Scenario.bc1)
  /\ TransactionPool.get_transaction_by_id Scenario.h0
       (Transaction.transaction_id (Scenario.h0 !!! 0%nat))
       (Blockchain.transaction_pool Scenario.bc1)
     = Some 0%nat.
Proof.
  split; [exact scenario_added1|].
  exact (proj1 (pool_lookup_after_add _ _ _ _ scenario_added1)).
Defined.

Lemma confirm_transaction_moves_one_witness :
  Forall (fun l => (l < length Scenario.h0)%nat)
         (TransactionPool.transactions (Blockchain.transaction_pool Scenario.bc1))
  /\ (TransactionPool.confirm_transaction
        (Transaction.transaction_id Scenario.tx0)
        (Scenario.h0, Blockchain.transaction_pool Scenario.bc1)).1 = true.
Proof.
  assert (Hlive : Forall (fun l => (l < length Scenario.h0)%nat)
                    (TransactionPool.transactions
                       (Blockchain.transaction_pool Scenario.bc1))).
  { constructor; [simpl; lia | constructor]. }
  split; [exact Hlive|].
  destruct (confirm_transaction_moves_one Scenario.h0
              (Transaction.transaction_id Scenario.tx0)
              (Blockchain.transaction_pool Scenario.bc1) Hlive)
    as [[_ Hnone] | (before & tx & after & _ & _ & _ & Hr & _)].
  - exfalso. inversion Hnone as [|? ? Hn _]. apply Hn. reflexivity.
  - rewrite Hr. reflexivity.
Defined.

Lemma pool_balance_without_rewards_witness :
  reachable Scenario.h2 Scenario.bc2
  /\ never_rewarded Scenario.h2 "bob" Scenario.bc2
  /\ TransactionPool.calculate_balance Scenario.h2 "bob"
       (Blockchain.transaction_pool Scenario.bc2)
     = Blockchain.get_balance Scenario.h2 "bob" Scenario.bc2
  /\ TransactionPool.calculate_balance Scenario.h2 "miner"
       (Blockchain.transaction_pool Scenario.bc2) = 0%float
  /\ Blockchain.get_balance Scenario.h2 "miner" Scenario.bc2 = 10%float.
Proof.
  assert (Hn : never_rewarded Scenario.h2 "bob" Scenario.bc2).
  { split; [discriminate|].
    constructor; [intros l Hl; discriminate Hl|].
    constructor; [|constructor]. intros l [= <-]. discriminate. }
  split; [exact scenario_reach2|]. split; [exact Hn|]. split.
  - exact (proj2 (pool_balance_without_rewards _ _ "bob" scenario_reach2) Hn).
  - split; vm_compute; reflexivity.
Defined.

Lemma send_transaction_failure_witness :
  reachable Scenario.h2 (Wallet.blockchain (WalletRun.miner Scenario.bc2))
  /\ Wallet.send_transaction 1700000030.5 5 (Some WalletRun.encode_error)
       "carol" 1.0 0.001 EmptyString Scenario.h2 (WalletRun.miner Scenario.bc2)
     = (Raised (Wallet.failed_to_send WalletRun.encode_error),
        Scenario.h3, WalletRun.miner Scenario.bc3)
  /\ Blockchain.pending_transactions Scenario.bc3 = [2%nat]
  /\ Wallet.send_transaction 1700000030.5 5 None
       "carol" 1.0 0.001 EmptyString Scenario.h2 (WalletRun.miner Scenario.bc2)
     = (Returned 2%nat, Scenario.h3, WalletRun.miner Scenario.bc3).
Proof.
  assert (H : Wallet.send_transaction 1700000030.5 5 (Some WalletRun.encode_error)
                "carol" 1.0 0.001 EmptyString Scenario.h2
                (WalletRun.miner Scenario.bc2)
              = (Raised (Wallet.failed_to_send WalletRun.encode_error),
                 Scenario.h3, WalletRun.miner Scenario.bc3))
    by (vm_compute; reflexivity).
  split; [exact scenario_reach2|]. split; [exact H|]. split; [reflexivity|].
  destruct (send_transaction_failure _ _ _ _ _ _ _ _ (WalletRun.miner Scenario.bc2)
              _ _ _ scenario_reach2 H)
    as [(Hself & _) | (raised & tx & _ & _ & _ & _ & Hret)].
  - exfalso. revert Hself. vm_compute. discriminate.
  - exact Hret.
Defined.

Lemma send_transaction_success_witness :
  Wallet.send_transaction 1700000030.5 5 None "carol" 1.0 0.001 EmptyString
    Scenario.h2 (WalletRun.miner Scenario.bc2)
  = (Returned 2%nat, Scenario.h3, WalletRun.miner Scenario.bc3)
  /\ (Transaction.is_valid Scenario.tx2).1 = true.
Proof.
  assert (H : Wallet.send_transaction 1700000030.5 5 None "carol" 1.0 0.001 EmptyString
                Scenario.h2 (WalletRun.miner Scenario.bc2)
              = (Returned 2%nat, Scenario.h3, WalletRun.miner Scenario.bc3))
    by (vm_compute; reflexivity).
  split; [exact H|].
  destruct (send_transaction_success _ _ _ _ _ _ _ _ _ _ _ _ H)
    as (address & key & tx & _ & _ & _ & _ & _ & Hh & Hv & _).
  apply app_inj_tail in Hh as [_ <-]. exact Hv.
Defined.

Lemma wallet_mine_block_reward_witness :
  reachable Scenario.h0 (Wallet.blockchain (WalletRun.miner Scenario.bc1))
  /\ Wallet.mine_block 100 Scenario.clock1 None Scenario.h0
       (WalletRun.miner Scenario.bc1)
     = Some (Returned true, Scenario.h2, WalletRun.miner Scenario.bc2)
  /\ Wallet.get_balance Scenario.h0 (WalletRun.miner Scenario.bc1) = Returned 0%float
  /\ Wallet.get_balance Scenario.h2 (WalletRun.miner Scenario.bc2)
     = Returned 10%float.
Proof.
  assert (Hm : Wallet.mine_block 100 Scenario.clock1 None Scenario.h0
                 (WalletRun.miner Scenario.bc1)
               = Some (Returned true, Scenario.h2, WalletRun.miner Scenario.bc2))
    by (vm_compute; reflexivity).
  split; [exact scenario_reach1|]. split; [exact Hm|].
  destruct (wallet_mine_block_reward _ _ _ _ (WalletRun.miner Scenario.bc1) _ _
              scenario_reach1 Hm)
    as (balance & Hb & Hb' & _).
  - intros address [= <-]. split; [discriminate|].
    constructor; [split; discriminate | constructor].
  - assert (Hz : balance = 0%float).
    { assert (Hc : Wallet.get_balance Scenario.h0 (WalletRun.miner Scenario.bc1)
                   = Returned 0%float) by reflexivity.
      congruence. }
    subst balance. split; [exact Hb|]. rewrite Hb'. reflexivity.
Defined.

Lemma nan_passes_balance_check_witness :
  (Transaction.is_valid (Scenario.h0 !!! 0%nat)).1 = true
  /\ PrimFloat.is_nan (Transaction.fee (Scenario.h0 !!! 0%nat)) = true
  /\ Blockchain.get_balance Scenario.h0 "alice" Scenario.bc0 = 0%float
  /\ exists bc',
       Blockchain.add_transaction Scenario.h0 0%nat Scenario.bc0 = (Returned true, bc').
Proof.
  assert (Hv : (Transaction.is_valid (Scenario.h0 !!! 0%nat)).1 = true) by reflexivity.
  assert (Hn : PrimFloat.is_nan (Transaction.fee (Scenario.h0 !!! 0%nat)) = true)
    by reflexivity.
  split; [exact Hv|]. split; [exact Hn|]. split; [reflexivity|].
  destruct (nan_passes_balance_check Scenario.h0 0%nat Scenario.bc0 Hv (or_intror Hn))
    as (bc' & Hadd & _).
  - intros (l & Hl & _). inversion Hl.
  - exists bc'. exact Hadd.
Defined.

Lemma no_nan_no_ledger_witness :
  reachable Scenario.h5 Scenario.bc0
  /\ Forall numeric Scenario.h5
  /\ Blockchain.get_balance Scenario.h5 "carol" Scenario.bc0 = 0%float.
Proof.
  assert (Hr : reachable Scenario.h5 Scenario.bc0)
    by exact (reach_new Scenario.h5 2 1700000000.0).
  assert (Hn : Forall numeric Scenario.h5).
  { repeat constructor. }
  split; [exact Hr|]. split; [exact Hn|].
  exact (proj2 (no_nan_no_ledger _ _ Hr Hn) "carol"%string).
Defined.

Lemma replay_after_mining_witness :
  reachable Scenario.h0 Scenario.bc1
  /\ Blockchain.mine_pending_transactions 100 Scenario.clock1 "miner"
       Scenario.h0 Scenario.bc1
     = Some (Returned true, Scenario.h2, Scenario.bc2)
  /\ 0%nat ∈ Blockchain.pending_transactions Scenario.bc1
  /\ 0%nat ∈ chain_refs Scenario.bc2
  /\ exists bc'',
       Blockchain.add_transaction Scenario.h2 0%nat Scenario.bc2
       = (Returned true, bc'').
Proof.
  assert (Hin : 0%nat ∈ Blockchain.pending_transactions Scenario.bc1) by left.
  split; [exact scenario_reach1|]. split; [exact scenario_mined1|].
  split; [exact Hin|].
  destruct (replay_after_mining _ _ _ _ _ _ _ 0%nat scenario_reach1 scenario_mined1
              Hin eq_refl) as (_ & Hrefs & bc'' & Hadd & _).
  split; [exact Hrefs|]. exists bc''. exact Hadd.
Defined.

Lemma mine_block_least_nonce_witness :
  Block.mine_block 100 Scenario.h1 2
    (Block.new Scenario.h1 1 [0%nat; 1%nat] (Block.hash Scenario.genesis) None
               1700000026.125)
  = Some Scenario.block1
  /\ Block.nonce Scenario.block1 = 2
  /\ Block.mine_block 2 Scenario.h1 2
       (Block.new Scenario.h1 1 [0%nat; 1%nat] (Block.hash Scenario.genesis) None
                  1700000026.125)
     = Some Scenario.block1.
Proof.
  assert (Hm : Block.mine_block 100 Scenario.h1 2
                 (Block.new Scenario.h1 1 [0%nat; 1%nat] (Block.hash Scenario.genesis)
                            None 1700000026.125)
               = Some Scenario.block1) by (vm_compute; reflexivity).
  split; [exact Hm|]. split; [reflexivity|].
  destruct (mine_block_least_nonce _ _ _ _ _ Hm) as (n & _ & Hnonce & _ & Hfuel).
  apply Hfuel. change (Block.nonce Scenario.block1) with 2 in Hnonce.
  change (Block.nonce (Block.new _ _ _ _ _ _)) with 0 in Hnonce. lia.
Defined.

Lemma wallet_sends_nan_witness :
  reachable [] (Wallet.blockchain (WalletRun.alice Scenario.bc0))
  /\ Wallet.get_balance [] (WalletRun.alice Scenario.bc0) = Returned 0%float
  /\ PrimFloat.is_nan nan = true
  /\ exists self',
       Wallet.send_transaction 1700000010.5 3 None "bob" 1.0 nan EmptyString []
         (WalletRun.alice Scenario.bc0)
       = (Returned 0%nat, [Scenario.tx0], self')
       /\ Blockchain.pending_transactions (Wallet.blockchain self') = [0%nat].
Proof.
  assert (Hr : reachable [] (Wallet.blockchain (WalletRun.alice Scenario.bc0)))
    by exact (reach_new [] 2 1700000000.0).
  split; [exact Hr|]. split; [reflexivity|]. split; [reflexivity|].
  destruct (wallet_sends_nan 1700000010.5 3 None "bob" 1.0 nan EmptyString []
              (WalletRun.alice Scenario.bc0) "alice" Scenario.alice_key Hr
              eq_refl eq_refl eq_refl eq_refl eq_refl)
    as (signed & self' & Hsend & Hsign & Hp).
  - discriminate.
  - right. reflexivity.
  - reflexivity.
  - reflexivity.
  - vm_compute. discriminate.
  - constructor.
  - exists self'. rewrite scenario_signed0 in Hsign. injection Hsign as <-.
    split; [exact Hsend | exact Hp].
Defined.
